(** * Raiden: serialization helpers and test factories

    A shallow embedding of [raiden/utils/serialization.py] and
    [raiden/tests/utils/factories.py].

    Python values are modelled as follows.
    - [bytes] is [list byte]; [str] is [string], its characters the code
      points below 256 (those from 128 on are outside ASCII).
    - A raised exception is the [Raise] branch of [result]; the exception
      class is kept, the message is dropped.
    - A [dict] is an association list in insertion order.
    - Library calls ([eth_utils], [json], [networkx], [dataclasses]) are
      modelled by definitions in a module of the library's name, following
      the library's documented behaviour on the inputs the code gives it. *)

From Stdlib Require Import List String Ascii ZArith NArith Bool Lia Arith.
From Stdlib Require Import Init.Byte DecimalString.
Import ListNotations.

Set Implicit Arguments.
Set Warnings "-register-all".


(** ** Exceptions and results *)

Inductive exn : Type :=
| AssertionError
| AttributeError
| TypeError
| ValueError
| KeyError
| IndexError
| BinasciiError
| ModuleNotFoundError
| NetworkXError
| RecursionError.

Inductive result (A : Type) : Type :=
| OK (a : A)
| Raise (e : exn).
Arguments OK {A} a.
Arguments Raise {A} e.

Definition rbind {A B} (r : result A) (k : A -> result B) : result B :=
  match r with
  | OK a => k a
  | Raise e => Raise e
  end.

Declare Scope result_scope.
Delimit Scope result_scope with res.
Notation "x <- c ;; k" := (rbind c (fun x => k))
  (at level 61, c at next level, right associativity) : result_scope.

(** [[f(v) for v in l]] where [f] may raise: the first exception wins. *)
Section MapResult.

Context {A B : Type}.
Variable f : A -> result B.

Fixpoint map_result (l : list A) : result (list B) :=
  match l with
  | [] => OK []
  | a :: l' =>
      (b <- f a ;; bs <- map_result l' ;; OK (b :: bs))%res
  end.

End MapResult.

Definition bytes := list byte.

(** ** [eth_utils]: hexadecimal strings and addresses *)

Module eth_utils.

Local Open Scope char_scope.

Definition hexdigits : list ascii :=
  ["0"; "1"; "2"; "3"; "4"; "5"; "6"; "7";
   "8"; "9"; "a"; "b"; "c"; "d"; "e"; "f"].

Definition nibble_char (n : N) : ascii := nth (N.to_nat n) hexdigits "0".

(** [int(c, 16)] for one character. *)
Definition hex_value (c : ascii) : option N :=
  let n := N_of_ascii c in
  if (48 <=? n)%N && (n <=? 57)%N then Some (n - 48)%N
  else if (97 <=? n)%N && (n <=? 102)%N then Some (n - 87)%N
  else if (65 <=? n)%N && (n <=? 70)%N then Some (n - 55)%N
  else None.

Definition is_hexdigit (c : ascii) : bool :=
  match hex_value c with Some _ => true | None => false end.

Definition hex2 (b : byte) : string :=
  let n := Byte.to_N b in
  String (nibble_char (n / 16)) (String (nibble_char (n mod 16)) EmptyString).

(** [binascii.hexlify]: two lowercase digits per byte. *)
Fixpoint hexlify (bs : bytes) : string :=
  match bs with
  | [] => EmptyString
  | b :: r => (hex2 b ++ hexlify r)%string
  end.

(** The digits read by [binascii.unhexlify], two for a byte and of
    either case; an odd length or a character that is no digit raises
    [binascii.Error]. *)
Fixpoint unhexlify_digits (s : string) : result bytes :=
  match s with
  | EmptyString => OK []
  | String _ EmptyString => Raise BinasciiError
  | String c1 (String c2 r) =>
      match hex_value c1, hex_value c2 with
      | Some h, Some l =>
          match Byte.of_N (16 * h + l) with
          | Some b => (bs <- unhexlify_digits r ;; OK (b :: bs))%res
          | None => Raise BinasciiError
          end
      | _, _ => Raise BinasciiError
      end
  end.

Fixpoint string_forallb (p : ascii -> bool) (s : string) : bool :=
  match s with
  | EmptyString => true
  | String c r => p c && string_forallb p r
  end.

(** [str.isascii] *)
Definition isascii (s : string) : bool :=
  string_forallb (fun c => (N_of_ascii c <? 128)%N) s.

(** [binascii.unhexlify] of a [str]: a string with a character outside
    ASCII is refused with [ValueError] before any digit is read. *)
Definition unhexlify (s : string) : result bytes :=
  if isascii s then unhexlify_digits s else Raise ValueError.

Definition is_0x_prefixed (s : string) : bool :=
  match s with
  | String "0" (String "x" _) => true
  | String "0" (String "X" _) => true
  | _ => false
  end.

Definition remove_0x_prefix (s : string) : string :=
  if is_0x_prefixed s then substring 2 (String.length s - 2) s else s.

Definition add_0x_prefix (s : string) : string :=
  if is_0x_prefixed s then s else ("0x" ++ s)%string.

Definition encode_hex (b : bytes) : string := add_0x_prefix (hexlify b).

Definition decode_hex (s : string) : result bytes :=
  unhexlify (remove_0x_prefix s).

(** [to_hex(primitive)] for a [bytes] primitive. *)
Definition to_hex (b : bytes) : string := encode_hex b.

(** [to_bytes(hexstr=s)]: a string of odd length is padded with one zero. *)
Definition to_bytes (hexstr : string) : result bytes :=
  if Nat.odd (String.length hexstr)
  then decode_hex ("0x0" ++ remove_0x_prefix hexstr)%string
  else decode_hex hexstr.

(** [str.lower] and [str.upper] on the characters of an ASCII string. *)
Definition lower_char (c : ascii) : ascii :=
  let n := N_of_ascii c in
  if (65 <=? n)%N && (n <=? 90)%N then ascii_of_N (n + 32) else c.

Definition upper_char (c : ascii) : ascii :=
  let n := N_of_ascii c in
  if (97 <=? n)%N && (n <=? 122)%N then ascii_of_N (n - 32) else c.

Fixpoint lower (s : string) : string :=
  match s with
  | EmptyString => EmptyString
  | String c r => String (lower_char c) (lower r)
  end.

(** [is_hexstr]: after the optional prefix, only hexadecimal digits. *)
Definition is_hexstr (s : string) : bool :=
  string_forallb is_hexdigit (remove_0x_prefix s).

(** [is_hex_address] on a normalized (lowercase) string. *)
Definition is_hex_address (s : string) : bool :=
  is_hexstr s && (String.length (remove_0x_prefix s) =? 40)%nat.

(** [to_normalized_address] of a [bytes] value:
    [to_hex(value).lower()], checked by [is_address]. *)
Definition to_normalized_address_bytes (value : bytes) : result string :=
  let hex_address := lower (to_hex value) in
  if is_hex_address hex_address then OK hex_address else Raise ValueError.

(** [to_normalized_address] of a [str] value: [hexstr_if_str] refuses a
    string that is not hexadecimal, then [to_hex(hexstr=value).lower()]. *)
Definition to_normalized_address_str (value : string) : result string :=
  if negb (String.eqb (remove_0x_prefix value) EmptyString) && negb (is_hexstr value)
  then Raise ValueError
  else
    let hex_address := lower (add_0x_prefix (lower value)) in
    if is_hex_address hex_address then OK hex_address else Raise ValueError.

Definition to_canonical_address (address : string) : result bytes :=
  (norm <- to_normalized_address_str address ;; decode_hex norm)%res.

Definition string_to_bytes (s : string) : bytes :=
  map byte_of_ascii (list_ascii_of_string s).

Section Checksum.

(** The keccak-256 digest, as a 256-bit number. *)
Variable keccak : bytes -> N.

(** [int(address_hash[i], 16)] for the [i]-th digit after the prefix of
    [address_hash = encode_hex(keccak(..))]. *)
Definition hash_nibble (h : N) (i : nat) : N :=
  ((h mod 2 ^ 256) / 16 ^ N.of_nat (63 - i)) mod 16.

Fixpoint checksum_case (h : N) (i : nat) (s : string) : string :=
  match s with
  | EmptyString => EmptyString
  | String c r =>
      String (if (7 <? hash_nibble h i)%N then upper_char c else c)
             (checksum_case h (S i) r)
  end.

Definition to_checksum_address (value : bytes) : result string :=
  (norm_address <- to_normalized_address_bytes value ;;
   let address_hash := keccak (string_to_bytes (remove_0x_prefix norm_address)) in
   OK (add_0x_prefix (checksum_case address_hash 0 (substring 2 40 norm_address))))%res.

End Checksum.

End eth_utils.

(** ** [raiden/utils/serialization.py]: bytes *)

Definition map_list {A B} (value_func : A -> result B) (l : list A) : result (list B) :=
  map_result value_func l.

Definition serialize_bytes (data : bytes) : string := eth_utils.to_hex data.

Definition deserialize_bytes (data : string) : result bytes := eth_utils.to_bytes data.

(** ** [raiden/utils/serialization.py]: the participants of a channel *)

Section Participants.

Variable keccak : bytes -> N.

Definition serialize_participants_tuple (participants : bytes * bytes) : result (list string) :=
  (p0 <- eth_utils.to_checksum_address keccak (fst participants) ;;
   p1 <- eth_utils.to_checksum_address keccak (snd participants) ;;
   OK [p0; p1])%res.

Definition deserialize_participants_tuple (data : list string) : result (bytes * bytes) :=
  if negb (List.length data =? 2)%nat then Raise AssertionError
  else
    match data with
    | d0 :: d1 :: _ =>
        (a0 <- eth_utils.to_canonical_address d0 ;;
         a1 <- eth_utils.to_canonical_address d1 ;;
         OK (a0, a1))%res
    | _ => Raise IndexError
    end.

End Participants.

(** ** [raiden/transfer/merkle_tree.py] *)

Module merkle_tree.

(** Python compares [bytes] lexicographically by unsigned byte value. *)
Fixpoint bytes_leb (a b : bytes) : bool :=
  match a, b with
  | [], _ => true
  | _ :: _, [] => false
  | x :: a', y :: b' =>
      match (Byte.to_N x ?= Byte.to_N y)%N with
      | Lt => true
      | Gt => false
      | Eq => bytes_leb a' b'
      end
  end.

Fixpoint insert_sorted (x : bytes) (l : list bytes) : list bytes :=
  match l with
  | [] => [x]
  | y :: l' => if bytes_leb x y then x :: l else y :: insert_sorted x l'
  end.

(** [sorted(elements)] *)
Fixpoint sorted (l : list bytes) : list bytes :=
  match l with
  | [] => []
  | x :: l' => insert_sorted x (sorted l')
  end.

(** Modelled from the spec: the constant [LEAVES] of
    [raiden.transfer.merkle_tree] is missing; the leaves are the first
    layer of the tree ("ordered sequence of lock hashes (leaves) plus
    derived layers up to a single root"). *)
Definition LEAVES : nat := 0.

Section Layers.

(** The hash of two sibling nodes, and the fixed root of the empty tree. *)
Variable hash_pair : bytes -> bytes -> bytes.
Variable EMPTY_MERKLE_ROOT : bytes.

(** One layer up: pairwise hashing, an unpaired last node is carried
    unchanged. *)
Fixpoint next_layer (layer : list bytes) : list bytes :=
  match layer with
  | a :: b :: rest => hash_pair a b :: next_layer rest
  | _ => layer
  end.

Fixpoint layers_above (fuel : nat) (layer : list bytes) : list (list bytes) :=
  match fuel with
  | O => []
  | S fuel' =>
      if (List.length layer <=? 1)%nat then []
      else let up := next_layer layer in up :: layers_above fuel' up
  end.

(** Modelled from the spec: [compute_layers] of
    [raiden.transfer.merkle_tree] is missing. The spec gives: the leaves
    are canonicalized by sorting, so that the root does not depend on the
    insertion order; each further layer hashes the nodes of the layer
    below pairwise, up to a single root; the empty tree has a fixed root
    constant. *)
Definition compute_layers (elements : list bytes) : list (list bytes) :=
  let leaves := sorted elements in
  match leaves with
  | [] => [[]; [EMPTY_MERKLE_ROOT]]
  | _ => leaves :: layers_above (List.length leaves) leaves
  end.

End Layers.

End merkle_tree.

(** ** [raiden/utils/serialization.py]: merkle tree layers *)

Section MerkleLayers.

Variable hash_pair : bytes -> bytes -> bytes.
Variable EMPTY_MERKLE_ROOT : bytes.

Definition serialize_merkletree_layers (data : list (list bytes)) : result (list string) :=
  match nth_error data merkle_tree.LEAVES with
  | Some leaves => map_list (fun b => OK (serialize_bytes b)) leaves
  | None => Raise IndexError
  end.

Definition deserialize_merkletree_layers (data : list string) : result (list (list bytes)) :=
  (elements <- map_list deserialize_bytes data ;;
   OK (merkle_tree.compute_layers hash_pair EMPTY_MERKLE_ROOT elements))%res.

End MerkleLayers.

(** ** [json]: documents

    [json.dumps] and [json.loads] are modelled up to the text: a document
    is the tree that the text denotes. The printer and the parser of the
    standard library are inverse to each other on these trees; numbers
    are integers. *)

Module json.

Inductive doc : Type :=
| JNull
| JBool (b : bool)
| JNum (z : Z)
| JStr (s : string)
| JArr (items : list doc)
| JObj (members : list (string * doc)).

End json.
Import json.

(** [d[k]], [k in d] and [d[k] = v] on a dict kept as an association list. *)
Fixpoint dict_get {V} (d : list (string * V)) (k : string) : option V :=
  match d with
  | [] => None
  | (k', v) :: d' => if String.eqb k' k then Some v else dict_get d' k
  end.

Definition dict_has {V} (d : list (string * V)) (k : string) : bool :=
  match dict_get d k with Some _ => true | None => false end.

Fixpoint dict_set {V} (d : list (string * V)) (k : string) (v : V) : list (string * V) :=
  match d with
  | [] => [(k, v)]
  | (k', v') :: d' =>
      if String.eqb k' k then (k', v) :: d' else (k', v') :: dict_set d' k v
  end.

Fixpoint dict_pop {V} (d : list (string * V)) (k : string) : list (string * V) :=
  match d with
  | [] => []
  | (k', v') :: d' => if String.eqb k' k then d' else (k', v') :: dict_pop d' k
  end.

(** ** [networkx.Graph]

    An undirected graph without node or edge attributes. [_node] and
    [_adj] are the two dicts of the class, in insertion order; nodes are
    integers, strings or byte strings. *)

Module networkx.

Inductive node : Type :=
| NInt (z : Z)
| NStr (s : string)
| NBytes (b : bytes).

Definition node_eqb (a b : node) : bool :=
  match a, b with
  | NInt x, NInt y => Z.eqb x y
  | NStr x, NStr y => String.eqb x y
  | NBytes x, NBytes y =>
      if list_eq_dec Byte.byte_eq_dec x y then true else false
  | _, _ => false
  end.

Definition mem (n : node) (l : list node) : bool := existsb (node_eqb n) l.

Record Graph : Type := mkGraph {
  _node : list node;
  _adj : list (node * list node)
}.

Definition empty : Graph := mkGraph [] [].

Fixpoint adj_get (adj : list (node * list node)) (n : node) : option (list node) :=
  match adj with
  | [] => None
  | (k, l) :: adj' => if node_eqb k n then Some l else adj_get adj' n
  end.

(** [G[n]]: the neighbours of [n]. *)
Definition neighbors (g : Graph) (n : node) : list node :=
  match adj_get (_adj g) n with Some l => l | None => [] end.

(** [if n not in self._node: self._adj[n] = {}; self._node[n] = {}] *)
Definition add_node (g : Graph) (n : node) : Graph :=
  if mem n (_node g) then g
  else mkGraph (_node g ++ [n]) (_adj g ++ [(n, [])]).

(** [self._adj[u][v] = datadict] *)
Fixpoint adj_set (adj : list (node * list node)) (u v : node) : list (node * list node) :=
  match adj with
  | [] => []
  | (k, l) :: adj' =>
      if node_eqb k u then (k, if mem v l then l else l ++ [v]) :: adj'
      else (k, l) :: adj_set adj' u v
  end.

Definition add_edge (g : Graph) (e : node * node) : Graph :=
  let (u, v) := e in
  let g := add_node g u in
  let g := add_node g v in
  mkGraph (_node g) (adj_set (adj_set (_adj g) u v) v u).

(** [Graph(edge_list)], through [from_edgelist] and [add_edges_from]. *)
Definition from_edgelist (l : list (node * node)) : Graph :=
  fold_left add_edge l empty.

(** Iteration over [graph.edges]: every edge once, from the endpoint met
    first in [_adj]. *)
Fixpoint edges_from (seen : list node) (adj : list (node * list node)) : list (node * node) :=
  match adj with
  | [] => []
  | (n, nbrs) :: adj' =>
      map (pair n) (filter (fun nbr => negb (mem nbr seen)) nbrs)
      ++ edges_from (n :: seen) adj'
  end.

Definition edges (g : Graph) : list (node * node) := edges_from [] (_adj g).

(** The invariant of the class: [_adj] has one entry per node, no node
    is listed twice, and adjacency is symmetric. *)
Fixpoint nodupb (l : list node) : bool :=
  match l with
  | [] => true
  | n :: l' => negb (mem n l') && nodupb l'
  end.

Fixpoint nodes_eqb (l1 l2 : list node) : bool :=
  match l1, l2 with
  | [], [] => true
  | a :: l1', b :: l2' => node_eqb a b && nodes_eqb l1' l2'
  | _, _ => false
  end.

Definition consistent (g : Graph) : bool :=
  nodes_eqb (map fst (_adj g)) (_node g)
  && nodupb (_node g)
  && forallb (fun entry => forallb (fun v => mem (fst entry) (neighbors g v)) (snd entry))
       (_adj g).

(** No node is [bytes]: every node has a JSON form. *)
Definition json_nodes (g : Graph) : bool :=
  forallb (fun n => match n with NBytes _ => false | _ => true end) (_node g).

(** Every node has at least one incident edge. *)
Definition no_isolated_node (g : Graph) : bool :=
  forallb (fun n => match neighbors g n with [] => false | _ => true end) (_node g).


End networkx.

(** ** [raiden/utils/serialization.py]: graphs *)

(** [json.dumps] of a node: [bytes] are not JSON serializable. *)
Definition dumps_node (n : networkx.node) : result doc :=
  match n with
  | networkx.NInt z => OK (JNum z)
  | networkx.NStr s => OK (JStr s)
  | networkx.NBytes _ => Raise TypeError
  end.

Definition dumps_edge (e : networkx.node * networkx.node) : result doc :=
  (u <- dumps_node (fst e) ;; v <- dumps_node (snd e) ;; OK (JArr [u; v]))%res.

Definition serialize_networkx_graph (graph : networkx.Graph) : result doc :=
  (items <- map_result dumps_edge (networkx.edges graph) ;; OK (JArr items))%res.

(** A node read back from a document. Integers and strings are the nodes
    that the serializer writes; the other documents are outside this model,
    which refuses them (of these, [networkx] itself refuses a list, which
    is unhashable, and [None]). *)
Definition loads_node (d : doc) : result networkx.node :=
  match d with
  | JNum z => OK (networkx.NInt z)
  | JStr s => OK (networkx.NStr s)
  | _ => Raise NetworkXError
  end.

(** One item of the edge list: [u, v] or [u, v, data]. *)
Definition loads_edge (d : doc) : result (networkx.node * networkx.node) :=
  match d with
  | JArr [u; v] => (u' <- loads_node u ;; v' <- loads_node v ;; OK (u', v'))%res
  | JArr [u; v; JObj _] => (u' <- loads_node u ;; v' <- loads_node v ;; OK (u', v'))%res
  | _ => Raise NetworkXError
  end.

(** [networkx.Graph(json.loads(data))] for a document that is a list of
    edges, which is what [serialize_networkx_graph] writes. [networkx]
    has more input forms (a dict of dicts or of lists, [None]); they are
    outside this model, which refuses them. *)
Definition deserialize_networkx_graph (data : doc) : result networkx.Graph :=
  match data with
  | JArr items =>
      (l <- map_result loads_edge items ;; OK (networkx.from_edgelist l))%res
  | _ => Raise NetworkXError
  end.

(** The documents that are lists of edges between integer and string
    nodes: an array of arrays of two integers or strings. *)
Definition node_document (d : doc) : bool :=
  match d with
  | JNum _ | JStr _ => true
  | _ => false
  end.

Definition edge_list_document (d : doc) : bool :=
  match d with
  | JArr items =>
      forallb (fun item =>
                 match item with
                 | JArr [u; v] => node_document u && node_document v
                 | _ => false
                 end) items
  | _ => false
  end.

(** ** [raiden/utils/serialization.py]: the JSON encoder and decoder *)

(** The Python objects that reach the encoder: the JSON types, and
    instances of classes. An instance carries [obj.__module__],
    [obj.__class__.__name__] and its attributes. *)
Inductive pyobj : Type :=
| PNone
| PBool (b : bool)
| PInt (z : Z)
| PStr (s : string)
| PList (items : list pyobj)
| PDict (items : list (string * pyobj))
| PInstance (module_ name : string) (attrs : list (string * pyobj)).

(** A class, as far as the encoder and the decoder look at it:
    the method [to_dict] and the class method [from_dict], when the class
    has them. *)
Record klass : Type := mkKlass {
  to_dict : option (list (string * pyobj) -> result (list (string * pyobj)));
  from_dict : option (list (string * pyobj) -> result pyobj)
}.

(** The importable modules, each with the classes it defines. *)
Definition modules : Type := list (string * list (string * klass)).

(** [type_name.split('.')], as [*module_name, klass_name] with the
    module name joined again. *)
Fixpoint rsplit_dot (s : string) : option (string * string) :=
  match s with
  | EmptyString => None
  | String c r =>
      match rsplit_dot r with
      | Some (m, k) => Some (String c m, k)
      | None => if Ascii.eqb c "."%char then Some (EmptyString, r) else None
      end
  end.

(** The names under which a module can be imported are absolute: not
    empty, and without a leading dot. *)
Definition absolute_name (name : string) : bool :=
  match name with
  | EmptyString => false
  | String c _ => negb (Ascii.eqb c ".")
  end.

Definition importable (env : modules) : bool :=
  forallb (fun entry => absolute_name (fst entry)) env.

Section JSON.

Variable env : modules.

Definition class_of (module_ name : string) : option klass :=
  match dict_get env module_ with
  | Some classes => dict_get classes name
  | None => None
  end.

(** [RaidenJSONEncoder.default] *)
Definition default (obj : pyobj) : result pyobj :=
  match obj with
  | PInstance module_ name attrs =>
      match class_of module_ name with
      | Some {| to_dict := Some obj_to_dict |} =>
          (result <- obj_to_dict attrs ;;
           OK (PDict (dict_set result "_type" (PStr (module_ ++ "." ++ name)))))%res
      | _ => Raise TypeError
      end
  | _ => Raise TypeError
  end.

(** [json.dumps(obj, cls=RaidenJSONEncoder)]: an object that is no JSON
    type goes through [default], and what [default] returns is encoded in
    its place. *)
Fixpoint dumps (depth : nat) (obj : pyobj) : result doc :=
  match depth with
  | O => Raise RecursionError
  | S depth' =>
      match obj with
      | PNone => OK JNull
      | PBool b => OK (JBool b)
      | PInt z => OK (JNum z)
      | PStr s => OK (JStr s)
      | PList items =>
          (docs <- map_result (dumps depth') items ;; OK (JArr docs))%res
      | PDict items =>
          (members <- map_result
                        (fun kv => (d <- dumps depth' (snd kv) ;; OK (fst kv, d))%res)
                        items ;;
           OK (JObj members))%res
      | PInstance _ _ _ =>
          (replacement <- default obj ;; dumps depth' replacement)%res
      end
  end.

(** [importlib.import_module(name, None)]. [env] holds the modules that
    can be imported, under their absolute names. For any other name the
    exception goes by the form of the name: an empty name raises
    [ValueError], a relative name (one that starts with a dot) raises
    [TypeError], as no package is given, and an absolute name raises
    [ModuleNotFoundError]. *)
Definition import_module (name : string) : result (list (string * klass)) :=
  match dict_get env name with
  | Some module_ => OK module_
  | None =>
      match name with
      | EmptyString => Raise ValueError
      | String "." _ => Raise TypeError
      | _ => Raise ModuleNotFoundError
      end
  end.

(** [RaidenJSONDecoder._import_type]; a name without a dot has the empty
    module name. *)
Definition _import_type (type_name : string) : result klass :=
  let (module_name, klass_name) :=
    match rsplit_dot type_name with
    | Some path => path
    | None => (EmptyString, type_name)
    end in
  (module_ <- import_module module_name ;;
   match dict_get module_ klass_name with
   | None => Raise TypeError
   | Some klass => OK klass
   end)%res.

(** [json.JSONDecoder.object_hook]: the class [json.JSONDecoder] has no
    attribute of this name (its [__init__] sets it on the instance), so the
    attribute lookup on the class raises before anything is called. *)
Definition JSONDecoder_object_hook (data : list (string * pyobj)) : result pyobj :=
  Raise AttributeError.

(** [RaidenJSONDecoder.object_hook] *)
Definition object_hook (data : list (string * pyobj)) : result pyobj :=
  let fall_through := JSONDecoder_object_hook data in
  if dict_has data "_type" then
    match dict_get data "_type" with
    | Some (PStr _type) =>
        (klass <- _import_type _type ;;
         match from_dict klass with
         | Some klass_from_dict => klass_from_dict data
         | None => fall_through
         end)%res
    | _ => Raise AttributeError
    end
  else fall_through.

(** [dict(pairs)] *)
Definition dict_of_pairs (pairs : list (string * pyobj)) : list (string * pyobj) :=
  fold_left (fun d kv => dict_set d (fst kv) (snd kv)) pairs [].

(** [json.loads(text, cls=RaidenJSONDecoder)]: the hook is called on
    every object of the document, innermost first, and its result stands
    for the object. *)
Fixpoint loads (d : doc) : result pyobj :=
  match d with
  | JNull => OK PNone
  | JBool b => OK (PBool b)
  | JNum z => OK (PInt z)
  | JStr s => OK (PStr s)
  | JArr items => (objs <- map_result loads items ;; OK (PList objs))%res
  | JObj members =>
      (pairs <- map_result
                  (fun kv => (o <- loads (snd kv) ;; OK (fst kv, o))%res)
                  members ;;
       object_hook (dict_of_pairs pairs))%res
  end.

Definition json_encode (depth : nat) (obj : pyobj) : result doc := dumps depth obj.

Definition json_decode (obj : doc) : result pyobj := loads obj.

End JSON.

Local Open Scope string_scope.

(** An entity in the sense of the encoder: a class whose [to_dict] gives
    the attributes and whose [from_dict] builds the instance back from
    them. Its [balances] attribute is a plain dict. *)
Definition Entity : klass := {|
  to_dict := Some (fun attrs => OK attrs);
  from_dict := Some (fun data => OK (PInstance "app.state" "Entity" (dict_pop data "_type")))
|}.

Definition entity_modules : modules := [("app.state", [("Entity", Entity)])].

Definition nested_entity : pyobj :=
  PInstance "app.state" "Entity"
    [("name", PStr "channel"); ("balances", PDict [("ours", PInt 50); ("theirs", PInt 50)])].

Definition flat_entity : pyobj :=
  PInstance "app.state" "Entity" [("name", PStr "channel"); ("nonces", PList [PInt 1; PInt 2])].

(** Objects made of JSON scalars and lists only, and their nesting depth. *)
Fixpoint flat (o : pyobj) : bool :=
  match o with
  | PNone | PBool _ | PInt _ | PStr _ => true
  | PList items => forallb flat items
  | PDict _ | PInstance _ _ _ => false
  end.

Fixpoint height (o : pyobj) : nat :=
  match o with
  | PList items => S (fold_right (fun i h => Nat.max (height i) h) 0 items)
  | _ => 0
  end.

(** ** [raiden/tests/utils/factories.py]: values *)

(** The classes of the module that derive from [Properties]. *)
Inductive pclass : Type :=
| Properties
| TransactionExecutionStatusProperties
| NettingChannelEndStateProperties
| NettingChannelStateProperties
| BalanceProofProperties
| BalanceProofSignedStateProperties
| LockedTransferProperties
| LockedTransferSignedStateProperties
| RouteProperties.

(** The state and message classes that the factories build. *)
Inductive tclass : Type :=
| TransactionExecutionStatus
| NettingChannelEndState
| NettingChannelState
| BalanceProofUnsignedState
| BalanceProofSignedState
| LockedTransferUnsignedState
| LockedTransferSignedState
| HashTimeLockState
| MerkleTreeState
| CanonicalIdentifier
| Lock
| LockedTransfer.

(** The values that the factories handle. [EMPTY] and [GENERATE] are the
    two sentinels of the module, which the code tells apart by identity
    ([is], [is not]); an instance carries its class and its [__dict__]. *)
Inductive value : Type :=
| EMPTY
| GENERATE
| VNone
| VInt (z : Z)
| VBytes (b : bytes)
| VStr (s : string)
| VList (items : list value)
| VProps (cls : pclass) (dict : list (string * value))
| VObj (cls : tclass) (dict : list (string * value)).

Definition pclass_eqb (a b : pclass) : bool :=
  match a, b with
  | Properties, Properties
  | TransactionExecutionStatusProperties, TransactionExecutionStatusProperties
  | NettingChannelEndStateProperties, NettingChannelEndStateProperties
  | NettingChannelStateProperties, NettingChannelStateProperties
  | BalanceProofProperties, BalanceProofProperties
  | BalanceProofSignedStateProperties, BalanceProofSignedStateProperties
  | LockedTransferProperties, LockedTransferProperties
  | LockedTransferSignedStateProperties, LockedTransferSignedStateProperties
  | RouteProperties, RouteProperties => true
  | _, _ => false
  end.

Definition tclass_eqb (a b : tclass) : bool :=
  match a, b with
  | TransactionExecutionStatus, TransactionExecutionStatus
  | NettingChannelEndState, NettingChannelEndState
  | NettingChannelState, NettingChannelState
  | BalanceProofUnsignedState, BalanceProofUnsignedState
  | BalanceProofSignedState, BalanceProofSignedState
  | LockedTransferUnsignedState, LockedTransferUnsignedState
  | LockedTransferSignedState, LockedTransferSignedState
  | HashTimeLockState, HashTimeLockState
  | MerkleTreeState, MerkleTreeState
  | CanonicalIdentifier, CanonicalIdentifier
  | Lock, Lock
  | LockedTransfer, LockedTransfer => true
  | _, _ => false
  end.

Definition bytes_eqb (a b : bytes) : bool :=
  if list_eq_dec Byte.byte_eq_dec a b then true else false.

(** [a == b] *)
Fixpoint value_eqb (a b : value) : bool :=
  let fix items_eqb (l1 l2 : list value) : bool :=
    match l1, l2 with
    | [], [] => true
    | x :: l1', y :: l2' => value_eqb x y && items_eqb l1' l2'
    | _, _ => false
    end in
  let fix dict_eqb (d1 d2 : list (string * value)) : bool :=
    match d1, d2 with
    | [], [] => true
    | (k1, x) :: d1', (k2, y) :: d2' =>
        String.eqb k1 k2 && value_eqb x y && dict_eqb d1' d2'
    | _, _ => false
    end in
  match a, b with
  | EMPTY, EMPTY | GENERATE, GENERATE | VNone, VNone => true
  | VInt x, VInt y => Z.eqb x y
  | VBytes x, VBytes y => bytes_eqb x y
  | VStr x, VStr y => String.eqb x y
  | VList x, VList y => items_eqb x y
  | VProps c1 d1, VProps c2 d2 => pclass_eqb c1 c2 && dict_eqb d1 d2
  | VObj c1 d1, VObj c2 d2 => tclass_eqb c1 c2 && dict_eqb d1 d2
  | _, _ => false
  end.

Definition is_EMPTY (v : value) : bool :=
  match v with EMPTY => true | _ => false end.

Definition is_None (v : value) : bool :=
  match v with VNone => true | _ => false end.

(** [isinstance(v, Properties)] *)
Definition is_properties (v : value) : bool :=
  match v with VProps _ _ => true | _ => false end.

(** The truth value of an object, for [or] and [if]. *)
Definition truthy (v : value) : bool :=
  match v with
  | VNone => false
  | VInt z => negb (Z.eqb z 0)
  | VBytes [] => false
  | VStr EmptyString => false
  | VList [] => false
  | _ => true
  end.

(** [value if value is not EMPTY else default] *)
Definition if_empty (v default : value) : value :=
  if is_EMPTY v then default else v.

(** [obj.__dict__] *)
Definition dict_of (v : value) : result (list (string * value)) :=
  match v with
  | VProps _ d => OK d
  | VObj _ d => OK d
  | _ => Raise AttributeError
  end.

(** [d[k]] *)
Definition getitem (d : list (string * value)) (k : string) : result value :=
  match dict_get d k with
  | Some v => OK v
  | None => Raise KeyError
  end.

(** [obj.name] for an attribute kept in the instance. *)
Definition getattr (v : value) (name : string) : result value :=
  match v with
  | VProps _ d | VObj _ d =>
      match dict_get d name with
      | Some x => OK x
      | None => Raise AttributeError
      end
  | _ => Raise AttributeError
  end.

(** The fields of each dataclass with their defaults, in the order of
    the class body, inherited fields first. A field without default is
    required. *)
Local Open Scope string_scope.

Definition BalanceProofProperties_fields : list (string * option value) :=
  [("nonce", Some EMPTY); ("transferred_amount", Some EMPTY);
   ("locked_amount", Some EMPTY); ("locksroot", Some EMPTY);
   ("canonical_identifier", Some EMPTY)].

Definition LockedTransferProperties_fields : list (string * option value) :=
  (BalanceProofProperties_fields ++
   [("amount", Some EMPTY); ("expiration", Some EMPTY); ("initiator", Some EMPTY);
    ("target", Some EMPTY); ("payment_identifier", Some EMPTY);
    ("token", Some EMPTY); ("secret", Some EMPTY)])%list.

Definition fields (cls : pclass) : list (string * option value) :=
  match cls with
  | Properties => []
  | TransactionExecutionStatusProperties =>
      [("started_block_number", Some EMPTY); ("finished_block_number", Some EMPTY);
       ("result", Some EMPTY)]
  | NettingChannelEndStateProperties =>
      [("address", Some EMPTY); ("privatekey", Some EMPTY); ("balance", Some EMPTY);
       ("merkletree_leaves", Some EMPTY); ("merkletree_width", Some EMPTY)]
  | NettingChannelStateProperties =>
      [("canonical_identifier", Some EMPTY); ("token_address", Some EMPTY);
       ("payment_network_identifier", Some EMPTY);
       ("reveal_timeout", Some EMPTY); ("settle_timeout", Some EMPTY);
       ("mediation_fee", Some EMPTY);
       ("our_state", Some EMPTY); ("partner_state", Some EMPTY);
       ("open_transaction", Some EMPTY); ("close_transaction", Some EMPTY);
       ("settle_transaction", Some EMPTY)]
  | BalanceProofProperties => BalanceProofProperties_fields
  | BalanceProofSignedStateProperties =>
      (BalanceProofProperties_fields ++
       [("message_hash", Some EMPTY); ("signature", Some GENERATE);
        ("sender", Some EMPTY); ("pkey", Some EMPTY)])%list
  | LockedTransferProperties => LockedTransferProperties_fields
  | LockedTransferSignedStateProperties =>
      (LockedTransferProperties_fields ++
       [("sender", Some EMPTY); ("recipient", Some EMPTY); ("pkey", Some EMPTY);
        ("message_identifier", Some EMPTY)])%list
  | RouteProperties =>
      [("address1", None); ("address2", None); ("capacity1to2", None);
       ("capacity2to1", Some (VInt 0))]
  end.

Definition field_names (cls : pclass) : list string := map fst (fields cls).

(** The annotation of a field, when it names a [Properties] class. *)
Definition field_class (cls : pclass) (name : string) : option pclass :=
  match cls with
  | NettingChannelStateProperties =>
      if String.eqb name "our_state" || String.eqb name "partner_state"
      then Some NettingChannelEndStateProperties
      else if String.eqb name "open_transaction" || String.eqb name "close_transaction"
              || String.eqb name "settle_transaction"
      then Some TransactionExecutionStatusProperties
      else None
  | _ => None
  end.

(** [TARGET_TYPE] *)
Definition TARGET_TYPE (cls : pclass) : option tclass :=
  match cls with
  | Properties | RouteProperties => None
  | TransactionExecutionStatusProperties => Some TransactionExecutionStatus
  | NettingChannelEndStateProperties => Some NettingChannelEndState
  | NettingChannelStateProperties => Some NettingChannelState
  | BalanceProofProperties => Some BalanceProofUnsignedState
  | BalanceProofSignedStateProperties => Some BalanceProofSignedState
  | LockedTransferProperties => Some LockedTransferUnsignedState
  | LockedTransferSignedStateProperties => Some LockedTransferSignedState
  end.

Definition string_mem (k : string) (l : list string) : bool :=
  existsb (String.eqb k) l.

(** The constructor call [cls(k1=v1, ...)] for a dataclass: every keyword must be a field, and
    every field without default must be given. *)
Definition new (cls : pclass) (kwargs : list (string * value)) : result value :=
  if negb (forallb (fun kv => string_mem (fst kv) (field_names cls)) kwargs)
  then Raise TypeError
  else
    (dict <- map_result
               (fun f =>
                  match dict_get kwargs (fst f), snd f with
                  | Some v, _ => OK (fst f, v)
                  | None, Some v => OK (fst f, v)
                  | None, None => Raise TypeError
                  end)
               (fields cls) ;;
     OK (VProps cls dict))%res.

Module dataclasses.

(** [fields(cls)], by name. The classes of this module are dataclasses,
    but for the base class [Properties], on which [fields] raises
    [TypeError]. *)
Definition fields (cls : pclass) : result (list string) :=
  match cls with
  | Properties => Raise TypeError
  | _ => OK (field_names cls)
  end.

(** [replace(obj, **changes)] on an instance of a dataclass of this
    module: a new instance of the class of [obj], with the fields of [obj]
    except where [changes] gives a value. *)
Definition replace (obj : value) (changes : list (string * value)) : result value :=
  match obj with
  | VProps cls dict =>
      new cls (map (fun kv => match dict_get changes (fst kv) with
                              | Some v => (fst kv, v)
                              | None => kv
                              end) dict
               ++ filter (fun kv => negb (dict_has dict (fst kv))) changes)%list
  | _ => Raise TypeError
  end.

End dataclasses.

(** [Properties.kwargs] *)
Definition kwargs (properties : value) : result (list (string * value)) :=
  match properties with
  | VProps _ dict => OK (filter (fun kv => negb (is_EMPTY (snd kv))) dict)
  | _ => Raise AttributeError
  end.

(** [_partial_dict(full_dict, *args)] *)
Definition _partial_dict (full_dict : list (string * value)) (args : list string)
  : result (list (string * value)) :=
  map_result (fun key => (v <- getitem full_dict key ;; OK (key, v))%res) args.

(** [Properties.extract(subset_type)] *)
Definition extract (self : value) (subset_type : pclass) : result value :=
  (names <- dataclasses.fields subset_type ;;
   d <- dict_of self ;;
   kw <- _partial_dict d names ;;
   new subset_type kw)%res.

(** [sys.getrecursionlimit()] *)
Definition recursion_limit : nat := 1000.

Section CreateProperties.

(** [type(properties).DEFAULTS], [None] where the class sets none. *)
Variable DEFAULTS : pclass -> value.

Definition DEFAULTS_of (properties : value) : result value :=
  match properties with
  | VProps cls _ => OK (DEFAULTS cls)
  | _ => Raise AttributeError
  end.

(** [create_properties], with [_replace_properties] as a parameter. *)
Definition create_properties_with
  (_replace_properties : value -> value -> result value)
  (properties defaults : value) : result value :=
  (full_defaults <- DEFAULTS_of properties ;;
   full_defaults <- (if negb (is_None defaults)
                     then _replace_properties defaults full_defaults
                     else OK full_defaults) ;;
   _replace_properties properties full_defaults)%res.

(** [_replace_properties]; [depth] bounds the depth of the calls. *)
Fixpoint _replace_properties (depth : nat) (properties defaults : value) : result value :=
  match depth with
  | O => Raise RecursionError
  | S depth' =>
      (kw <- kwargs properties ;;
       replacements <-
         map_result
           (fun kv =>
              if is_properties (snd kv) then
                (d <- dict_of defaults ;;
                 dk <- getitem d (fst kv) ;;
                 r <- create_properties_with (_replace_properties depth') (snd kv) dk ;;
                 OK (fst kv, r))
              else OK kv)
           kw ;;
       dataclasses.replace defaults replacements)%res
  end.

Definition create_properties (properties defaults : value) : result value :=
  create_properties_with (_replace_properties recursion_limit) properties defaults.

(** The rule for one field when [properties] is merged with [default]:
    a field that is [EMPTY] takes the default; a field that is itself a
    properties object is merged with the default by [create_properties];
    any other field is kept. *)
Definition merge_field (field : value) (default : result value) : result value :=
  if is_EMPTY field then default
  else if is_properties field
       then (d <- default ;; create_properties field d)%res
       else OK field.

End CreateProperties.

Local Close Scope string_scope.

(** ** Randomness and exceptions in the factories

    The functions of [random] read a source of numbers that is part of the
    state; every theorem holds for every source. *)

Record rng : Type := mkRng {
  source : nat -> N;
  position : nat
}.

Definition M (A : Type) : Type := rng -> result (A * rng).

Definition ret {A} (a : A) : M A := fun g => OK (a, g).

Definition bind {A B} (m : M A) (k : A -> M B) : M B :=
  fun g => match m g with
           | OK (a, g') => k a g'
           | Raise e => Raise e
           end.

Definition raise {A} (e : exn) : M A := fun _ => Raise e.

Definition lift {A} (r : result A) : M A :=
  fun g => match r with
           | OK a => OK (a, g)
           | Raise e => Raise e
           end.

(** [assert cond] *)
Definition assert (cond : bool) : M unit :=
  if cond then ret tt else raise AssertionError.

Declare Scope rand_scope.
Delimit Scope rand_scope with rand.
Notation "x <- c ;; k" := (bind c (fun x => k))
  (at level 61, c at next level, right associativity) : rand_scope.
Notation "c ;; k" := (bind c (fun _ => k))
  (at level 61, right associativity) : rand_scope.

Section MapM.

Context {A B : Type}.
Variable f : A -> M B.

Fixpoint mapM (l : list A) : M (list B) :=
  match l with
  | [] => ret []
  | a :: l' => (b <- f a ;; bs <- mapM l' ;; ret (b :: bs))%rand
  end.

End MapM.

Module random.

Definition draw : M N :=
  fun g => OK (source g (position g), mkRng (source g) (S (position g))).

(** [random.randint(a, b)]: some integer between [a] and [b], both
    included. *)
Definition randint (a b : Z) : M Z :=
  (n <- draw ;; ret (a + Z.of_N n mod (b - a + 1))%Z)%rand.

(** [random.choice(seq)] on a sequence that is not empty. *)
Definition choice {A} (seq : list A) (default : A) : M A :=
  (n <- draw ;; ret (nth (N.to_nat n mod List.length seq) seq default))%rand.

End random.

(** [string.printable]: digits, letters, punctuation and whitespace. *)
Definition printable : list byte :=
  let range (a b : nat) :=
    map (fun n => match Byte.of_N (N.of_nat n) with Some c => c | None => x00 end)
        (seq a (S b - a)) in
  (range 48 57 ++ range 97 122 ++ range 65 90
   ++ range 33 47 ++ range 58 64 ++ range 91 96 ++ range 123 126
   ++ range 32 32 ++ range 9 10 ++ range 13 13 ++ range 11 12)%list.

(** Modelled from the spec: [raiden.constants] is missing; the names give
    the values ("nonce: uint64", "amount: uint256"). *)
Definition UINT64_MAX : Z := 2 ^ 64 - 1.
Definition UINT256_MAX : Z := 2 ^ 256 - 1.

(** ** What the factories take from the rest of the code base

    The hash, the signatures and the encodings that are signed are used
    through their interface only, as are the parts of [raiden.messages],
    [raiden.transfer.channel] and [raiden.transfer.merkle_tree] that the
    factories call. *)
Class Collaborators : Type := {
  (** the keccak-256 digest as a 256-bit number *)
  keccak : bytes -> N;
  privatekey_to_address : bytes -> bytes;
  (** [Signer.sign(data)] with the signer's private key, and the address
      recovered from signed data *)
  sign : bytes -> bytes -> bytes;
  recover : bytes -> bytes -> bytes;
  (** the encoding of a lock: [Lock.as_bytes], [HashTimeLockState.encoded] *)
  lock_as_bytes : value -> value -> value -> bytes;
  (** the bytes of a [LockedTransfer] that are signed, and its
      [message_hash] *)
  data_to_sign : value -> bytes;
  message_hash : value -> bytes;
  hash_balance_data : value -> value -> value -> bytes;
  pack_balance_proof : bytes -> value -> value -> value -> bytes;
  hash_pair : bytes -> bytes -> bytes;
  EMPTY_MERKLE_ROOT : bytes;
  (** [TransactionExecutionStatus.SUCCESS], a string *)
  SUCCESS : string;
  (** [channel.is_valid_lockedtransfer]: the verdict *)
  is_valid_lockedtransfer : value -> value -> value -> value -> bool;
  (** [channel.compute_merkletree_with] and [merkleroot] *)
  compute_merkletree_with : value -> bytes -> value;
  merkleroot : value -> value
}.

(** [n] as [len] bytes, most significant first. *)
Fixpoint N_to_bytes (len : nat) (n : N) : bytes :=
  match len with
  | O => []
  | S len' =>
      (N_to_bytes len' (n / 256)
       ++ [match Byte.of_N (n mod 256) with Some b => b | None => x00 end])%list
  end.

Section Factories.

Context {collaborators : Collaborators}.

(** The state of [random] when the module is imported. *)
Variable import_rng : rng.

Local Open Scope string_scope.

(** [sha3(data)]: the 32 bytes of the digest. *)
Definition sha3 (data : bytes) : bytes := N_to_bytes 32 (keccak data mod 2 ^ 256).

Definition as_bytes (v : value) : result bytes :=
  match v with
  | VBytes b => OK b
  | _ => Raise TypeError
  end.

(** [int(v)] *)
Definition as_int (v : value) : result Z :=
  match v with
  | VInt z => OK z
  | _ => Raise TypeError
  end.

(** [a < b] and [a >= b] on integers; another operand is a type error
    in the model. *)
Definition py_lt (a b : value) : result bool :=
  match a, b with
  | VInt x, VInt y => OK (x <? y)%Z
  | _, _ => Raise TypeError
  end.

Definition py_ge (a b : value) : result bool :=
  match a, b with
  | VInt x, VInt y => OK (x >=? y)%Z
  | _, _ => Raise TypeError
  end.

(** A [bytes] literal of ASCII characters. *)
Definition py_bytes (s : string) : value := VBytes (eth_utils.string_to_bytes s).

(** *** Random values *)

Definition make_uint256 : M value :=
  (n <- random.randint 0 UINT256_MAX ;; ret (VInt n))%rand.

Definition make_channel_identifier : M value := make_uint256.

Definition make_message_identifier : M value :=
  (n <- random.randint 0 UINT64_MAX ;; ret (VInt n))%rand.

Definition random_printable (n : nat) : M value :=
  (cs <- mapM (fun _ => random.choice printable x00) (seq 0 n) ;; ret (VBytes cs))%rand.

Definition make_20bytes : M value := random_printable 20.

Definition make_address : M value := make_20bytes.

Definition make_32bytes : M value := random_printable 32.

Definition make_payment_network_identifier : M value := make_address.

(** [format(i, ">032")]: the decimal form, padded with zeros on the left
    to 32 characters. *)
Definition format_032 (i : Z) : string :=
  let s := DecimalString.NilZero.string_of_int (Z.to_int i) in
  (string_of_list_ascii (repeat "0"%char (32 - String.length s)) ++ s)%string.

Definition make_secret (i : value) : M value :=
  if negb (is_EMPTY i) then
    match i with
    | VInt z => ret (py_bytes (format_032 z))
    | _ => raise TypeError
    end
  else make_32bytes.

Definition make_merkletree_leaves (width : value) : M value :=
  (w <- lift (as_int width) ;;
   leaves <- mapM (fun _ => make_secret EMPTY) (seq 0 (Z.to_nat w)) ;;
   ret (VList leaves))%rand.

(** *** Constants of the module *)

Definition UNIT_SETTLE_TIMEOUT : Z := 50.
Definition UNIT_REVEAL_TIMEOUT : Z := 5.
Definition UNIT_TRANSFER_AMOUNT : Z := 10.
Definition UNIT_SECRET : value := py_bytes "secretsecretsecretsecretsecretse".
Definition UNIT_TOKEN_ADDRESS : value := py_bytes "tokentokentokentoken".
Definition UNIT_TOKEN_NETWORK_ADDRESS : value := py_bytes "networknetworknetwor".
Definition UNIT_CHANNEL_ID : Z := 1338.
Definition UNIT_CHAIN_ID : Z := 337.
Definition UNIT_CANONICAL_ID : value :=
  VObj CanonicalIdentifier
    [("chain_identifier", VInt UNIT_CHAIN_ID);
     ("token_network_address", UNIT_TOKEN_NETWORK_ADDRESS);
     ("channel_identifier", VInt UNIT_CHANNEL_ID)].
Definition UNIT_PAYMENT_NETWORK_IDENTIFIER : value := py_bytes "paymentnetworkidentifier".
Definition UNIT_TRANSFER_IDENTIFIER : Z := 37.
Definition UNIT_TRANSFER_INITIATOR : value := py_bytes "initiatorinitiatorin".
Definition UNIT_TRANSFER_TARGET : value := py_bytes "targettargettargetta".
Definition UNIT_TRANSFER_PKEY_BIN : bytes := sha3 (eth_utils.string_to_bytes "transfer pkey").
Definition UNIT_TRANSFER_PKEY : value := VBytes UNIT_TRANSFER_PKEY_BIN.
Definition UNIT_TRANSFER_SENDER : value :=
  VBytes (privatekey_to_address (sha3 (eth_utils.string_to_bytes "transfer pkey"))).

(** [make_canonical_identifier]; a [channel_identifier] that is [None]
    or [0] is replaced by a random one. *)
Definition make_canonical_identifier
  (chain_identifier token_network_address channel_identifier : value) : M value :=
  (cid <- (if truthy channel_identifier then ret channel_identifier
           else make_channel_identifier) ;;
   ret (VObj CanonicalIdentifier
          [("chain_identifier", chain_identifier);
           ("token_network_address", token_network_address);
           ("channel_identifier", cid)]))%rand.

(** *** The [DEFAULTS] of the properties classes

    A statement at the level of the module binds a name when the module is
    imported; [imported] gives the value that is bound. *)
Definition imported (r : result value) : value :=
  match r with
  | OK v => v
  | Raise _ => VNone
  end.

Definition TransactionExecutionStatusProperties_DEFAULTS : value :=
  imported (new TransactionExecutionStatusProperties
    [("started_block_number", VNone); ("finished_block_number", VNone);
     ("result", VStr SUCCESS)]).

Definition NettingChannelEndStateProperties_DEFAULTS : value :=
  imported (new NettingChannelEndStateProperties
    [("address", VNone); ("privatekey", VNone); ("balance", VInt 100);
     ("merkletree_leaves", VNone); ("merkletree_width", VInt 0)]).

Definition NettingChannelStateProperties_DEFAULTS : value :=
  imported
    (canonical_identifier <-
       match make_canonical_identifier (VInt UNIT_CHAIN_ID) UNIT_TOKEN_NETWORK_ADDRESS VNone
               import_rng with
       | OK (c, _) => OK c
       | Raise e => Raise e
       end ;;
     new NettingChannelStateProperties
       [("canonical_identifier", canonical_identifier);
        ("token_address", UNIT_TOKEN_ADDRESS);
        ("payment_network_identifier", UNIT_PAYMENT_NETWORK_IDENTIFIER);
        ("reveal_timeout", VInt UNIT_REVEAL_TIMEOUT);
        ("settle_timeout", VInt UNIT_SETTLE_TIMEOUT);
        ("mediation_fee", VInt 0);
        ("our_state", NettingChannelEndStateProperties_DEFAULTS);
        ("partner_state", NettingChannelEndStateProperties_DEFAULTS);
        ("open_transaction", TransactionExecutionStatusProperties_DEFAULTS);
        ("close_transaction", VNone);
        ("settle_transaction", VNone)])%res.

Definition BalanceProofProperties_DEFAULTS : value :=
  imported (new BalanceProofProperties
    [("nonce", VInt 1); ("transferred_amount", VInt UNIT_TRANSFER_AMOUNT);
     ("locked_amount", VInt 0); ("locksroot", VBytes EMPTY_MERKLE_ROOT);
     ("canonical_identifier", UNIT_CANONICAL_ID)]).

Definition BalanceProofSignedStateProperties_DEFAULTS : value :=
  imported
    (d <- dict_of BalanceProofProperties_DEFAULTS ;;
     new BalanceProofSignedStateProperties
       (d ++ [("sender", UNIT_TRANSFER_SENDER); ("pkey", UNIT_TRANSFER_PKEY)])%list)%res.

(** The classes that have their [DEFAULTS] when [LockedTransferProperties]
    computes its own with [create_properties]. *)
Definition DEFAULTS_so_far (cls : pclass) : value :=
  match cls with
  | TransactionExecutionStatusProperties => TransactionExecutionStatusProperties_DEFAULTS
  | NettingChannelEndStateProperties => NettingChannelEndStateProperties_DEFAULTS
  | NettingChannelStateProperties => NettingChannelStateProperties_DEFAULTS
  | BalanceProofProperties => BalanceProofProperties_DEFAULTS
  | BalanceProofSignedStateProperties => BalanceProofSignedStateProperties_DEFAULTS
  | _ => VNone
  end.

Definition LockedTransferProperties_DEFAULTS : value :=
  imported
    (partial <- new BalanceProofProperties
                  [("locked_amount", VInt UNIT_TRANSFER_AMOUNT);
                   ("transferred_amount", VInt 0)] ;;
     balance_proof <- create_properties DEFAULTS_so_far partial VNone ;;
     d <- dict_of balance_proof ;;
     new LockedTransferProperties
       (d ++ [("amount", VInt UNIT_TRANSFER_AMOUNT);
              ("expiration", VInt UNIT_REVEAL_TIMEOUT);
              ("initiator", UNIT_TRANSFER_INITIATOR);
              ("target", UNIT_TRANSFER_TARGET);
              ("payment_identifier", VInt 1);
              ("token", UNIT_TOKEN_ADDRESS);
              ("secret", UNIT_SECRET)])%list)%res.

Definition LockedTransferSignedStateProperties_DEFAULTS : value :=
  imported
    (d <- dict_of LockedTransferProperties_DEFAULTS ;;
     new LockedTransferSignedStateProperties
       (d ++ [("sender", UNIT_TRANSFER_SENDER);
              ("recipient", UNIT_TRANSFER_TARGET);
              ("pkey", UNIT_TRANSFER_PKEY);
              ("message_identifier", VInt 1)])%list)%res.

(** [cls.DEFAULTS]; [Properties] and [RouteProperties] keep the [None]
    of the base class. *)
Definition DEFAULTS (cls : pclass) : value :=
  match cls with
  | Properties | RouteProperties => VNone
  | TransactionExecutionStatusProperties => TransactionExecutionStatusProperties_DEFAULTS
  | NettingChannelEndStateProperties => NettingChannelEndStateProperties_DEFAULTS
  | NettingChannelStateProperties => NettingChannelStateProperties_DEFAULTS
  | BalanceProofProperties => BalanceProofProperties_DEFAULTS
  | BalanceProofSignedStateProperties => BalanceProofSignedStateProperties_DEFAULTS
  | LockedTransferProperties => LockedTransferProperties_DEFAULTS
  | LockedTransferSignedStateProperties => LockedTransferSignedStateProperties_DEFAULTS
  end.

Definition SIGNED_TRANSFER_FOR_CHANNEL_DEFAULTS : value :=
  imported
    (p <- new LockedTransferSignedStateProperties
            [("expiration", VInt (UNIT_SETTLE_TIMEOUT - UNIT_REVEAL_TIMEOUT))] ;;
     create_properties DEFAULTS p VNone)%res.

(** *** State and message objects

    Modelled from the spec: the classes of [raiden.transfer.state],
    [raiden.transfer.mediated_transfer.state] and [raiden.messages] are
    missing. An object keeps the arguments of its constructor as
    attributes, under the names of the parameters; the spec lists them in
    its data model. *)
Definition construct (cls : tclass) (kwargs : list (string * value)) : value :=
  VObj cls kwargs.

(** [compute_layers(leaves)] on values. *)
Definition compute_layers (leaves : value) : result value :=
  match leaves with
  | VList items =>
      (elements <- map_result as_bytes items ;;
       OK (VList (map (fun layer => VList (map VBytes layer))
                      (merkle_tree.compute_layers hash_pair EMPTY_MERKLE_ROOT elements))))%res
  | _ => Raise TypeError
  end.

(** Modelled from the spec: a channel end-state starts with the empty
    tree of pending locks ("Empty tree has a well-defined fixed root
    constant"). *)
Definition NettingChannelEndState_init (address balance : value) : value :=
  construct NettingChannelEndState
    [("address", address); ("balance", balance);
     ("merkletree",
      construct MerkleTreeState
        [("layers", VList [VList []; VList [VBytes EMPTY_MERKLE_ROOT]])])].

(** [Lock(amount, expiration, secrethash)] and
    [HashTimeLockState(amount, expiration, secrethash)], with their
    encoding and their hash. *)
Definition new_lock (cls : tclass) (amount expiration secrethash : value) : value :=
  construct cls [("amount", amount); ("expiration", expiration); ("secrethash", secrethash)].

Definition Lock_as_bytes (lock : value) : result bytes :=
  (amount <- getattr lock "amount" ;;
   expiration <- getattr lock "expiration" ;;
   secrethash <- getattr lock "secrethash" ;;
   OK (lock_as_bytes amount expiration secrethash))%res.

Definition lockhash (lock : value) : result value :=
  (encoded <- Lock_as_bytes lock ;; OK (VBytes (sha3 encoded)))%res.

(** [message.sign(signer)] and [message.sender] *)
Definition sign_message (message : value) (pkey : bytes) : result value :=
  match message with
  | VObj cls dict =>
      OK (VObj cls (dict_set dict "signature" (VBytes (sign pkey (data_to_sign message)))))
  | _ => Raise AttributeError
  end.

Definition message_sender (message : value) : result value :=
  match message with
  | VObj cls dict =>
      (signature <- getattr message "signature" ;;
       s <- as_bytes signature ;;
       OK (VBytes (recover (data_to_sign (VObj cls (dict_pop dict "signature"))) s)))%res
  | _ => Raise AttributeError
  end.

(** Modelled from the spec: [lockedtransfersigned_from_message] is
    missing. The signed transfer state has, from the message, "initiator,
    target, token, amount, lock, payment_identifier, balance_proof
    snapshot" and "sender, recipient, message_identifier", bound to the
    channel by the canonical identifier. *)
Definition lockedtransfersigned_from_message (message : value) : result value :=
  (let get := getattr message in
   nonce <- get "nonce" ;;
   transferred_amount <- get "transferred_amount" ;;
   locked_amount <- get "locked_amount" ;;
   locksroot <- get "locksroot" ;;
   chain_id <- get "chain_id" ;;
   token_network_address <- get "token_network_address" ;;
   channel_identifier <- get "channel_identifier" ;;
   signature <- get "signature" ;;
   sender <- message_sender message ;;
   lock <- get "lock" ;;
   amount <- getattr lock "amount" ;;
   expiration <- getattr lock "expiration" ;;
   secrethash <- getattr lock "secrethash" ;;
   message_identifier <- get "message_identifier" ;;
   payment_identifier <- get "payment_identifier" ;;
   token <- get "token" ;;
   initiator <- get "initiator" ;;
   target <- get "target" ;;
   let balance_proof :=
     construct BalanceProofSignedState
       [("nonce", nonce); ("transferred_amount", transferred_amount);
        ("locked_amount", locked_amount); ("locksroot", locksroot);
        ("canonical_identifier",
         construct CanonicalIdentifier
           [("chain_identifier", chain_id);
            ("token_network_address", token_network_address);
            ("channel_identifier", channel_identifier)]);
        ("message_hash", VBytes (message_hash message));
        ("signature", signature); ("sender", sender)] in
   OK (construct LockedTransferSignedState
         [("message_identifier", message_identifier);
          ("payment_identifier", payment_identifier);
          ("token", token);
          ("balance_proof", balance_proof);
          ("lock", new_lock HashTimeLockState amount expiration secrethash);
          ("initiator", initiator);
          ("target", target)]))%res.

(** *** [create] *)

(** [defaults or fallback] *)
Definition or_default (defaults fallback : value) : value :=
  if truthy defaults then defaults else fallback.

Section CreateBody.

(** [create], for the calls that [create] makes. *)
Variable create : value -> value -> M value.

Definition _properties_to_kwargs (properties defaults : value) : M (list (string * value)) :=
  (fallback <- lift (DEFAULTS_of DEFAULTS properties) ;;
   properties <- lift (create_properties DEFAULTS properties (or_default defaults fallback)) ;;
   d <- lift (dict_of properties) ;;
   mapM (fun kv => (v <- create (snd kv) VNone ;; ret (fst kv, v))) d)%rand.

(** The body of [create] that is not registered for a class. *)
Definition create_generic (properties defaults : value) : M value :=
  match properties with
  | VProps cls _ =>
      (kw <- _properties_to_kwargs properties defaults ;;
       match TARGET_TYPE cls with
       | Some target => ret (construct target kw)
       | None => raise TypeError
       end)%rand
  | _ => ret properties
  end.

(** [@create.register(NettingChannelEndStateProperties)] *)
Definition create_NettingChannelEndState (properties defaults : value) : M value :=
  (args <- _properties_to_kwargs properties
             (or_default defaults NettingChannelEndStateProperties_DEFAULTS) ;;
   address <- lift (getitem args "address") ;;
   address <- (if truthy address then ret address else make_address) ;;
   balance <- lift (getitem args "balance") ;;
   let state := NettingChannelEndState_init address balance in
   leaves <- lift (getitem args "merkletree_leaves") ;;
   merkletree_leaves <-
     (if truthy leaves then ret leaves
      else
        (width <- lift (getitem args "merkletree_width") ;;
         made <- make_merkletree_leaves width ;;
         ret (or_default made VNone))) ;;
   if truthy merkletree_leaves then
     (layers <- lift (compute_layers merkletree_leaves) ;;
      match state with
      | VObj cls dict =>
          ret (VObj cls (dict_set dict "merkletree"
                           (construct MerkleTreeState [("layers", layers)])))
      | _ => ret state
      end)
   else ret state)%rand.

(** [@create.register(BalanceProofSignedStateProperties)] *)
Definition create_BalanceProofSignedState (properties defaults : value) : M value :=
  lift
    (let defaults := or_default defaults BalanceProofSignedStateProperties_DEFAULTS in
     merged <- create_properties DEFAULTS properties defaults ;;
     params <- dict_of merged ;;
     pkey <- getitem params "pkey" ;;
     let params := dict_pop params "pkey" in
     pkey <- as_bytes pkey ;;
     signature <- getitem params "signature" ;;
     params <-
       match signature with
       | GENERATE =>
           (transferred_amount <- getitem params "transferred_amount" ;;
            locked_amount <- getitem params "locked_amount" ;;
            locksroot <- getitem params "locksroot" ;;
            let balance_hash := hash_balance_data transferred_amount locked_amount locksroot in
            additional_hash <- getitem params "message_hash" ;;
            canonical_identifier <- getitem params "canonical_identifier" ;;
            let nonce := match dict_get params "nonce" with Some n => n | None => VNone end in
            let data := pack_balance_proof balance_hash additional_hash
                          canonical_identifier nonce in
            OK (dict_set params "signature" (VBytes (sign pkey data))))
       | _ => OK params
       end ;;
     OK (construct BalanceProofSignedState params))%res.

(** [@create.register(LockedTransferProperties)] *)
Definition create_LockedTransferUnsignedState (properties defaults : value) : M value :=
  (transfer <- lift (create_properties DEFAULTS properties defaults) ;;
   lock <- lift
     (amount <- getattr transfer "amount" ;;
      expiration <- getattr transfer "expiration" ;;
      secret <- getattr transfer "secret" ;;
      secret <- as_bytes secret ;;
      OK (new_lock HashTimeLockState amount expiration (VBytes (sha3 secret))))%res ;;
   transfer <- lift
     (locksroot <- getattr transfer "locksroot" ;;
      if value_eqb locksroot (VBytes EMPTY_MERKLE_ROOT)
      then (h <- lockhash lock ;; dataclasses.replace transfer [("locksroot", h)])
      else OK transfer)%res ;;
   balance_proof_properties <- lift (extract transfer BalanceProofProperties) ;;
   balance_proof <- create balance_proof_properties VNone ;;
   rest <- lift
     (d <- dict_of transfer ;;
      _partial_dict d ["initiator"; "target"; "payment_identifier"; "token"])%res ;;
   ret (construct LockedTransferUnsignedState
          (("balance_proof", balance_proof) :: ("lock", lock) :: rest)))%rand.

(** [@create.register(LockedTransferSignedStateProperties)] *)
Definition create_LockedTransferSignedState (properties defaults : value) : M value :=
  lift
    (transfer <- create_properties DEFAULTS properties defaults ;;
     params <- dict_of transfer ;;
     amount <- getattr transfer "amount" ;;
     expiration <- getattr transfer "expiration" ;;
     secret <- getattr transfer "secret" ;;
     secret <- as_bytes secret ;;
     let lock := new_lock Lock amount expiration (VBytes (sha3 secret)) in
     pkey <- getitem params "pkey" ;;
     let params := dict_pop params "pkey" in
     pkey <- as_bytes pkey ;;
     sender <- getitem params "sender" ;;
     let params := dict_pop params "sender" in
     canonical_identifier <- getitem params "canonical_identifier" ;;
     let params := dict_pop params "canonical_identifier" in
     chain_identifier <- getattr canonical_identifier "chain_identifier" ;;
     chain_id <- as_int chain_identifier ;;
     let params := dict_set params "chain_id" (VInt chain_id) in
     channel_identifier <- getattr canonical_identifier "channel_identifier" ;;
     channel_identifier <- as_int channel_identifier ;;
     let params := dict_set params "channel_identifier" (VInt channel_identifier) in
     token_network_address <- getattr canonical_identifier "token_network_address" ;;
     let params := dict_set params "token_network_address" token_network_address in
     locksroot <- getitem params "locksroot" ;;
     params <- (if value_eqb locksroot (VBytes EMPTY_MERKLE_ROOT)
                then (h <- lockhash lock ;; OK (dict_set params "locksroot" h))
                else OK params) ;;
     let locked_transfer := construct LockedTransfer (("lock", lock) :: params) in
     locked_transfer <- sign_message locked_transfer pkey ;;
     signed_by <- message_sender locked_transfer ;;
     if value_eqb signed_by sender
     then lockedtransfersigned_from_message locked_transfer
     else Raise AssertionError)%res.

End CreateBody.

(** [create]: the implementation registered for the class of
    [properties], else the generic one. Every class of the module is
    registered under its own name only, so the class of the instance
    decides. *)
Fixpoint create_rec (depth : nat) (properties defaults : value) : M value :=
  match depth with
  | O => raise RecursionError
  | S depth' =>
      let create := create_rec depth' in
      match properties with
      | VProps NettingChannelEndStateProperties _ =>
          create_NettingChannelEndState create properties defaults
      | VProps BalanceProofSignedStateProperties _ =>
          create_BalanceProofSignedState properties defaults
      | VProps LockedTransferProperties _ =>
          create_LockedTransferUnsignedState create properties defaults
      | VProps LockedTransferSignedStateProperties _ =>
          create_LockedTransferSignedState properties defaults
      | _ => create_generic create properties defaults
      end
  end.

Definition create (properties defaults : value) : M value :=
  create_rec recursion_limit properties defaults.

(** *** Channel states *)

(** The default of an argument is evaluated before [if_empty] is called:
    the random value is drawn whether it is used or not. *)
Definition make_channel_endstate (address balance : value) : M value :=
  (made <- make_address ;;
   let address := if_empty address made in
   let balance := if_empty balance (VInt 0) in
   ret (NettingChannelEndState_init address balance))%rand.

Definition make_channel_state
  (our_balance partner_balance our_address partner_address token_address
   payment_network_identifier token_network_identifier channel_identifier
   reveal_timeout settle_timeout : value) : M value :=
  (let our_balance := if_empty our_balance (VInt 0) in
   let partner_balance := if_empty partner_balance (VInt 0) in
   made <- make_address ;;
   let our_address := if_empty our_address made in
   made <- make_address ;;
   let partner_address := if_empty partner_address made in
   made <- make_address ;;
   let token_address := if_empty token_address made in
   made <- make_payment_network_identifier ;;
   let payment_network_identifier := if_empty payment_network_identifier made in
   made <- make_address ;;
   let token_network_identifier := if_empty token_network_identifier made in
   made <- make_channel_identifier ;;
   let channel_identifier := if_empty channel_identifier made in
   let reveal_timeout := if_empty reveal_timeout (VInt UNIT_REVEAL_TIMEOUT) in
   let settle_timeout := if_empty settle_timeout (VInt UNIT_SETTLE_TIMEOUT) in
   let opened_block_number := VInt 10 in
   let close_transaction := VNone in
   let settle_transaction := VNone in
   our_state <- make_channel_endstate our_address our_balance ;;
   partner_state <- make_channel_endstate partner_address partner_balance ;;
   let open_transaction :=
     construct TransactionExecutionStatus
       [("started_block_number", VNone);
        ("finished_block_number", opened_block_number);
        ("result", VStr SUCCESS)] in
   canonical_identifier <-
     make_canonical_identifier (VInt UNIT_CHAIN_ID) token_network_identifier
       channel_identifier ;;
   ret (construct NettingChannelState
          [("canonical_identifier", canonical_identifier);
           ("token_address", token_address);
           ("payment_network_identifier", payment_network_identifier);
           ("reveal_timeout", reveal_timeout);
           ("settle_timeout", settle_timeout);
           ("mediation_fee", VInt 0);
           ("our_state", our_state);
           ("partner_state", partner_state);
           ("open_transaction", open_transaction);
           ("close_transaction", close_transaction);
           ("settle_transaction", settle_transaction)]))%rand.

(** *** Signed transfers *)

(** The parameters of [make_signed_transfer]; each defaults to [EMPTY]. *)
Definition make_signed_transfer_parameters : list string :=
  ["amount"; "initiator"; "target"; "expiration"; "secret"; "payment_identifier";
   "message_identifier"; "nonce"; "transferred_amount"; "locked_amount";
   "locksroot"; "recipient"; "channel_identifier"; "token_network_address";
   "token"; "pkey"; "sender"].

Definition argument (kwargs : list (string * value)) (name : string) : value :=
  match dict_get kwargs name with
  | Some v => v
  | None => EMPTY
  end.

(** [make_signed_transfer], called with keyword arguments. *)
Definition make_signed_transfer (kwargs : list (string * value)) : M value :=
  if negb (forallb (fun kv => string_mem (fst kv) make_signed_transfer_parameters) kwargs)
  then raise TypeError
  else
  (let amount := if_empty (argument kwargs "amount") (VInt UNIT_TRANSFER_AMOUNT) in
   made <- make_address ;;
   let initiator := if_empty (argument kwargs "initiator") made in
   made <- make_address ;;
   let target := if_empty (argument kwargs "target") made in
   let expiration := if_empty (argument kwargs "expiration") (VInt UNIT_REVEAL_TIMEOUT) in
   made <- make_secret EMPTY ;;
   let secret := if_empty (argument kwargs "secret") made in
   let payment_identifier := if_empty (argument kwargs "payment_identifier") (VInt 1) in
   made <- make_message_identifier ;;
   let message_identifier := if_empty (argument kwargs "message_identifier") made in
   let nonce := if_empty (argument kwargs "nonce") (VInt 1) in
   let transferred_amount := if_empty (argument kwargs "transferred_amount") (VInt 0) in
   let locked_amount := if_empty (argument kwargs "locked_amount") amount in
   let locksroot := if_empty (argument kwargs "locksroot") (VBytes EMPTY_MERKLE_ROOT) in
   let recipient := if_empty (argument kwargs "recipient") UNIT_TRANSFER_TARGET in
   let channel_identifier :=
     if_empty (argument kwargs "channel_identifier") (VInt UNIT_CHANNEL_ID) in
   let token_network_address :=
     if_empty (argument kwargs "token_network_address") UNIT_TOKEN_NETWORK_ADDRESS in
   let token := if_empty (argument kwargs "token") UNIT_TOKEN_ADDRESS in
   let pkey := if_empty (argument kwargs "pkey") UNIT_TRANSFER_PKEY in
   signer <- lift (as_bytes pkey) ;;
   let sender := if_empty (argument kwargs "sender") UNIT_TRANSFER_SENDER in
   enough <- lift (py_ge locked_amount amount) ;;
   assert enough ;;
   secret_bytes <- lift (as_bytes secret) ;;
   let secrethash := VBytes (sha3 secret_bytes) in
   let lock := new_lock Lock amount expiration secrethash in
   locksroot <-
     (if value_eqb locksroot (VBytes EMPTY_MERKLE_ROOT)
      then (encoded <- lift (Lock_as_bytes lock) ;; ret (VBytes (sha3 encoded)))
      else ret locksroot) ;;
   let transfer :=
     construct LockedTransfer
       [("chain_id", VInt UNIT_CHAIN_ID);
        ("message_identifier", message_identifier);
        ("payment_identifier", payment_identifier);
        ("nonce", nonce);
        ("token_network_address", token_network_address);
        ("token", token);
        ("channel_identifier", channel_identifier);
        ("transferred_amount", transferred_amount);
        ("locked_amount", locked_amount);
        ("recipient", recipient);
        ("locksroot", locksroot);
        ("lock", lock);
        ("target", target);
        ("initiator", initiator)] in
   transfer <- lift (sign_message transfer signer) ;;
   signed_by <- lift (message_sender transfer) ;;
   assert (value_eqb signed_by sender) ;;
   ret transfer)%rand.

(** [make_signed_transfer_for]. [properties] and [defaults] are [None]
    when they are not given, [channel_state] is [EMPTY]. *)
Definition make_signed_transfer_for
  (channel_state properties defaults : value)
  (compute_locksroot allow_invalid only_transfer : bool) : M value :=
  (blank <- lift (new LockedTransferSignedStateProperties []) ;;
   properties <- lift
     (create_properties DEFAULTS
        (or_default properties blank)
        (or_default defaults SIGNED_TRANSFER_FOR_CHANNEL_DEFAULTS)) ;;
   blank_channel <- lift (new NettingChannelStateProperties []) ;;
   made <- create blank_channel VNone ;;
   let channel_state := if_empty channel_state made in
   (if negb allow_invalid then
      (transfer <- lift (extract properties LockedTransferProperties) ;;
       expiration <- lift (getattr transfer "expiration") ;;
       reveal_timeout <- lift (getattr channel_state "reveal_timeout") ;;
       above <- lift (py_lt reveal_timeout expiration) ;;
       valid <- (if above
                 then (settle_timeout <- lift (getattr channel_state "settle_timeout") ;;
                       lift (py_lt expiration settle_timeout))
                 else ret false) ;;
       assert valid)
    else ret tt) ;;
   pkey <- lift (getattr properties "pkey") ;;
   pkey_bytes <- lift (as_bytes pkey) ;;
   sender <- lift (getattr properties "sender") ;;
   assert (value_eqb (VBytes (privatekey_to_address pkey_bytes)) sender) ;;
   our_state <- lift (getattr channel_state "our_state") ;;
   our_address <- lift (getattr our_state "address") ;;
   recipient <-
     (if value_eqb sender our_address then
        (partner_state <- lift (getattr channel_state "partner_state") ;;
         lift (getattr partner_state "address"))
      else
        (partner_state <- lift (getattr channel_state "partner_state") ;;
         partner_address <- lift (getattr partner_state "address") ;;
         if value_eqb sender partner_address then ret our_address
         else raise AssertionError)) ;;
   locksroot <-
     (if compute_locksroot then
        (transfer <- lift (extract properties LockedTransferProperties) ;;
         amount <- lift (getattr transfer "amount") ;;
         expiration <- lift (getattr transfer "expiration") ;;
         secret <- lift (getattr transfer "secret") ;;
         secret <- lift (as_bytes secret) ;;
         let lock := new_lock Lock amount expiration (VBytes (sha3 secret)) in
         partner_state <- lift (getattr channel_state "partner_state") ;;
         merkletree <- lift (getattr partner_state "merkletree") ;;
         encoded <- lift (Lock_as_bytes lock) ;;
         ret (merkleroot (compute_merkletree_with merkletree (sha3 encoded))))
      else
        (transfer <- lift (extract properties LockedTransferProperties) ;;
         balance_proof <- lift (extract transfer BalanceProofProperties) ;;
         lift (getattr balance_proof "locksroot"))) ;;
   canonical_identifier <- lift (getattr channel_state "canonical_identifier") ;;
   transfer_properties <-
     (if only_transfer then
        (transfer <- lift (extract properties LockedTransferProperties) ;;
         amount <- lift (getattr transfer "amount") ;;
         lift (new LockedTransferProperties
                 [("locksroot", locksroot);
                  ("canonical_identifier", canonical_identifier);
                  ("locked_amount", amount)]))
      else
        lift (new LockedTransferProperties
                [("locksroot", locksroot);
                 ("canonical_identifier", canonical_identifier)])) ;;
   transfer_dict <- lift (dict_of transfer_properties) ;;
   signed_properties <- lift
     (new LockedTransferSignedStateProperties (("recipient", recipient) :: transfer_dict)) ;;
   transfer <- create signed_properties properties ;;
   (if negb allow_invalid then
      (partner_state <- lift (getattr channel_state "partner_state") ;;
       assert (is_valid_lockedtransfer transfer channel_state partner_state our_state))
    else ret tt) ;;
   ret transfer)%rand.

(** *** Well-formed instances *)

Fixpoint strings_eqb (l1 l2 : list string) : bool :=
  match l1, l2 with
  | [], [] => true
  | a :: l1', b :: l2' => String.eqb a b && strings_eqb l1' l2'
  | _, _ => false
  end.

(** [v] is an instance of the properties class [cls]: it has the fields
    of the class; a field annotated with a properties class holds
    [EMPTY], [None] or an instance of that class, and no other field
    holds a properties object. *)
Fixpoint instance_of (cls : pclass) (v : value) : bool :=
  match v with
  | VProps c dict =>
      pclass_eqb cls c
      && strings_eqb (map fst dict) (field_names cls)
      && forallb
           (fun kv : string * value =>
              match field_class cls (fst kv) with
              | Some sub =>
                  match snd kv with
                  | EMPTY | VNone => true
                  | VProps _ _ => instance_of sub (snd kv)
                  | _ => false
                  end
              | None => negb (is_properties (snd kv))
              end)
           dict
  | _ => false
  end.

(** An instance in which no field annotated with a properties class is
    [EMPTY]: such a field holds [None] or an instance. The defaults of a
    class are of this kind. *)
Definition nested_set (cls : pclass) (v : value) : bool :=
  instance_of cls v
  && match v with
     | VProps _ dict =>
         forallb (fun kv : string * value =>
                    match field_class cls (fst kv) with
                    | Some _ => negb (is_EMPTY (snd kv))
                    | None => true
                    end) dict
     | _ => false
     end.

(** No field is [EMPTY], at any depth. *)
Fixpoint populated (v : value) : bool :=
  match v with
  | EMPTY => false
  | VProps _ dict => forallb (fun kv : string * value => populated (snd kv)) dict
  | _ => true
  end.

(** The depth of the annotations below a class. *)
Definition rank (cls : pclass) : nat :=
  match cls with
  | NettingChannelStateProperties => 1
  | _ => 0
  end.

(** A transaction status that is finished, with success: it has the
    number of the block in which it finished, and its result is [SUCCESS]. *)
Definition finished_successfully (status : value) : Prop :=
  (exists finished,
      getattr status "finished_block_number" = OK finished /\ finished <> VNone) /\
  getattr status "result" = OK (VStr SUCCESS).

(** An open channel, with its two timeouts: no close and no settle
    transaction, and the reveal timeout below the settle timeout. *)
Definition open_channel (state : value) (reveal_timeout settle_timeout : Z) : Prop :=
  getattr state "close_transaction" = OK VNone /\
  getattr state "settle_transaction" = OK VNone /\
  getattr state "reveal_timeout" = OK (VInt reveal_timeout) /\
  getattr state "settle_timeout" = OK (VInt settle_timeout) /\
  (reveal_timeout < settle_timeout)%Z.

(** *** More factories *)

(** [make_checksum_address] *)
Definition make_checksum_address : M value :=
  (address <- make_address ;;
   a <- lift (as_bytes address) ;;
   s <- lift (eth_utils.to_checksum_address keccak a) ;;
   ret (VStr s))%rand.

Definition make_privatekey_bin : M value := make_32bytes.

(** [make_privatekey] and [make_privatekey_address]: as in
    [make_channel_endstate], the random default is drawn before [if_empty]
    looks at the argument. *)
Definition make_privatekey (privatekey_bin : value) : M value :=
  (made <- make_privatekey_bin ;; ret (if_empty privatekey_bin made))%rand.

Definition make_privatekey_address (privatekey : value) : M (value * value) :=
  (made <- make_privatekey EMPTY ;;
   let privatekey := if_empty privatekey made in
   key <- lift (as_bytes privatekey) ;;
   let address := VBytes (privatekey_to_address key) in
   ret (privatekey, address))%rand.

(** [pkeys_from_channel_state] *)
Definition pkeys_from_channel_state (properties defaults : value) : result (value * value) :=
  (let our_key := VNone in
   our_state <- getattr properties "our_state" ;;
   our_key <-
     (if negb (is_EMPTY our_state) then getattr our_state "privatekey"
      else if negb (is_None defaults) then
        (our_state <- getattr defaults "our_state" ;; getattr our_state "privatekey")
      else OK our_key) ;;
   let partner_key := VNone in
   partner_state <- getattr properties "partner_state" ;;
   partner_key <-
     (if negb (is_EMPTY partner_state) then getattr partner_state "privatekey"
      else if negb (is_None defaults) then
        (partner_state <- getattr defaults "partner_state" ;;
         getattr partner_state "privatekey")
      else OK partner_key) ;;
   OK (our_key, partner_key))%res.

(** [ChannelSet]: the three lists that its constructor stores. *)
Record ChannelSet : Type := mkChannelSet {
  channels : list value;
  our_privatekeys : list value;
  partner_privatekeys : list value
}.

(** [l[index]] for a list: a negative index counts from the end. *)
Definition list_getitem (l : list value) (index : Z) : result value :=
  let i := if (index <? 0)%Z then (index + Z.of_nat (List.length l))%Z else index in
  if (i <? 0)%Z then Raise IndexError
  else match nth_error l (Z.to_nat i) with
       | Some v => OK v
       | None => Raise IndexError
       end.

(** [ChannelSet.__getitem__], [our_address] and [partner_address] *)
Definition ChannelSet_getitem (self : ChannelSet) (item : Z) : result value :=
  list_getitem (channels self) item.

Definition ChannelSet_our_address (self : ChannelSet) (index : Z) : result value :=
  (channel <- list_getitem (channels self) index ;;
   our_state <- getattr channel "our_state" ;;
   getattr our_state "address")%res.

Definition ChannelSet_partner_address (self : ChannelSet) (index : Z) : result value :=
  (channel <- list_getitem (channels self) index ;;
   partner_state <- getattr channel "partner_state" ;;
   getattr partner_state "address")%res.

(** The list [properties] of [make_channel_set] after its [while] loop:
    blank properties are appended (to the list that the caller gave) until
    there are [number_of_channels] of them. *)
Definition pad_properties (properties : list value) (number_of_channels : Z)
  : result (list value) :=
  (blank <- new NettingChannelStateProperties [] ;;
   OK (properties
       ++ repeat blank (Z.to_nat number_of_channels - List.length properties))%list)%res.

(** [make_channel_set]; [properties] and [number_of_channels] are [None]
    when they are not given. *)
Definition make_channel_set
  (properties : option (list value)) (defaults : value) (number_of_channels : option Z)
  : M ChannelSet :=
  (number_of_channels <-
     match number_of_channels, properties with
     | Some n, _ => ret n
     | None, Some l => ret (Z.of_nat (List.length l))
     | None, None => raise TypeError
     end ;;
   let properties := match properties with Some l => l | None => [] end in
   properties <- lift (pad_properties properties number_of_channels) ;;
   made <- mapM (fun p =>
                   keys <- lift (pkeys_from_channel_state p defaults) ;;
                   channel <- create p defaults ;;
                   ret (channel, keys))
                (firstn (Z.to_nat number_of_channels) properties) ;;
   ret (mkChannelSet (map fst made)
          (map (fun x => fst (snd x)) made)
          (map (fun x => snd (snd x)) made)))%rand.

(** [mediator_make_channel_pair] *)
Definition mediator_make_channel_pair (defaults amount : value) : M ChannelSet :=
  (canonical_identifier1 <-
     make_canonical_identifier (VInt UNIT_CHAIN_ID) UNIT_TOKEN_NETWORK_ADDRESS (VInt 1) ;;
   partner_state1 <- lift (new NettingChannelEndStateProperties
                             [("address", UNIT_TRANSFER_SENDER); ("balance", amount)]) ;;
   properties1 <- lift (new NettingChannelStateProperties
                          [("canonical_identifier", canonical_identifier1);
                           ("partner_state", partner_state1)]) ;;
   canonical_identifier2 <-
     make_canonical_identifier (VInt UNIT_CHAIN_ID) UNIT_TOKEN_NETWORK_ADDRESS (VInt 2) ;;
   our_state2 <- lift (new NettingChannelEndStateProperties [("balance", amount)]) ;;
   partner_state2 <- lift (new NettingChannelEndStateProperties
                             [("address", UNIT_TRANSFER_TARGET)]) ;;
   properties2 <- lift (new NettingChannelStateProperties
                          [("canonical_identifier", canonical_identifier2);
                           ("our_state", our_state2);
                           ("partner_state", partner_state2)]) ;;
   make_channel_set (Some [properties1; properties2]) defaults None)%rand.

(** [route_properties_to_channel] *)
Definition route_properties_to_channel (route : value) : M value :=
  (canonical_identifier <-
     make_canonical_identifier (VInt UNIT_CHAIN_ID) UNIT_TOKEN_NETWORK_ADDRESS VNone ;;
   address1 <- lift (getattr route "address1") ;;
   capacity1to2 <- lift (getattr route "capacity1to2") ;;
   our_state <- lift (new NettingChannelEndStateProperties
                        [("address", address1); ("balance", capacity1to2)]) ;;
   address2 <- lift (getattr route "address2") ;;
   capacity2to1 <- lift (getattr route "capacity2to1") ;;
   partner_state <- lift (new NettingChannelEndStateProperties
                            [("address", address2); ("balance", capacity2to1)]) ;;
   properties <- lift (new NettingChannelStateProperties
                         [("canonical_identifier", canonical_identifier);
                          ("our_state", our_state);
                          ("partner_state", partner_state)]) ;;
   create properties VNone)%rand.

Local Close Scope string_scope.

End Factories.

(** ** An instance of the collaborators

    A hash, a signature scheme and encodings that can be run: the
    signature of a key is the key, and the address of a key is the key cut
    to 20 bytes. *)

Definition sample_keccak (data : bytes) : N :=
  fold_left (fun acc c => (acc * 257 + Byte.to_N c + 1) mod 2 ^ 256)%N data 7%N.

Definition sample_encode (v : value) : bytes :=
  match v with
  | VInt z => N_to_bytes 8 (Z.to_N z)
  | VBytes c => c
  | _ => []
  end.

#[local] Instance sample_collaborators : Collaborators := {|
  keccak := sample_keccak;
  privatekey_to_address := firstn 20;
  sign := fun pkey _ => pkey;
  recover := fun _ signature => firstn 20 signature;
  lock_as_bytes := fun amount expiration secrethash =>
    (sample_encode expiration ++ sample_encode amount ++ sample_encode secrethash)%list;
  data_to_sign := fun message =>
    match message with
    | VObj _ dict => List.concat (map (fun kv => sample_encode (snd kv)) dict)
    | _ => @nil byte
    end;
  message_hash := fun message =>
    match message with
    | VObj _ dict =>
        N_to_bytes 32 (sample_keccak (List.concat (map (fun kv => sample_encode (snd kv)) dict)))
    | _ => @nil byte
    end;
  hash_balance_data := fun transferred locked locksroot =>
    N_to_bytes 32
      (sample_keccak (sample_encode transferred ++ sample_encode locked
                      ++ sample_encode locksroot)%list);
  pack_balance_proof := fun balance_hash additional_hash canonical_identifier nonce =>
    (balance_hash ++ sample_encode additional_hash ++ sample_encode nonce)%list;
  hash_pair := fun l r => N_to_bytes 32 (sample_keccak (l ++ r)%list);
  EMPTY_MERKLE_ROOT := repeat x00 32;
  SUCCESS := "success"%string;
  is_valid_lockedtransfer := fun _ _ _ _ => true;
  compute_merkletree_with := fun merkletree _ => merkletree;
  merkleroot := fun _ => VBytes (repeat x00 32)
|}.

Definition sample_rng : rng := mkRng (fun n => (N.of_nat n * 37 + 11)%N) 0.

(** The first channel of [mediator_make_channel_pair]: the partner is the
    sender of the unit transfers. *)
Definition sample_channel : value :=
  match
    (partner <- lift (new NettingChannelEndStateProperties
                        [("address", UNIT_TRANSFER_SENDER);
                         ("balance", VInt UNIT_TRANSFER_AMOUNT)]%string) ;;
     canonical_identifier <-
       make_canonical_identifier (VInt UNIT_CHAIN_ID) UNIT_TOKEN_NETWORK_ADDRESS (VInt 1) ;;
     properties <- lift (new NettingChannelStateProperties
                           [("canonical_identifier", canonical_identifier);
                            ("partner_state", partner)]%string) ;;
     create sample_rng properties VNone)%rand sample_rng
  with
  | OK (state, _) => state
  | Raise _ => VNone
  end.

(** Properties of a transfer that expires with the settle timeout. *)
Definition late_transfer : value :=
  imported (new LockedTransferSignedStateProperties
              [("expiration", VInt UNIT_SETTLE_TIMEOUT)]%string).

(** Properties of a channel that set the reveal timeout and the balance
    of our side, and defaults that set the settle timeout and the width of
    our tree. *)
Definition partial_channel : value :=
  imported (new NettingChannelStateProperties
              [("reveal_timeout", VInt 7);
               ("our_state",
                imported (new NettingChannelEndStateProperties
                            [("balance", VInt 30)]))]%string).

Definition channel_defaults : value :=
  imported (new NettingChannelStateProperties
              [("settle_timeout", VInt 60);
               ("our_state",
                imported (new NettingChannelEndStateProperties
                            [("merkletree_width", VInt 2)]))]%string).

(** [BalanceProofSignedStateProperties()], every field left as it is
    declared. *)
Definition blank_signed_proof : value :=
  imported (new BalanceProofSignedStateProperties []).

(** A route between two nodes, with the capacity of each direction. *)
Definition sample_route : value :=
  imported (new RouteProperties
              [("address1", py_bytes "hop1hop1hop1hop1hop1");
               ("address2", py_bytes "hop2hop2hop2hop2hop2");
               ("capacity1to2", VInt 50);
               ("capacity2to1", VInt 0)]%string).

(** * Properties *)

Unset Implicit Arguments.

Lemma map_result_OK {A B} (f : A -> result B) (g : A -> B) (l : list A) :
  (forall a, In a l -> f a = OK (g a)) ->
  map_result f l = OK (map g l).
Proof.
  induction l as [|a l IH]; intros Hf; simpl.
  - reflexivity.
  - rewrite (Hf a (or_introl eq_refl)). simpl.
    rewrite IH by (intros; apply Hf; now right). reflexivity.
Qed.

(** ** Hexadecimal encoding *)

Module hex_facts.
Import eth_utils.

Lemma substring_all (s : string) : substring 0 (String.length s) s = s.
Proof. induction s as [|c s IH]; simpl; [reflexivity | now rewrite IH]. Qed.

Lemma hexlify_cons (b : byte) (r : bytes) :
  exists c1 c2,
    hexlify (b :: r) = String c1 (String c2 (hexlify r)) /\
    hex_value c1 = Some (Byte.to_N b / 16)%N /\
    hex_value c2 = Some (Byte.to_N b mod 16)%N /\
    lower_char c1 = c1 /\ lower_char c2 = c2 /\
    lower_char (upper_char c1) = c1 /\ lower_char (upper_char c2) = c2 /\
    is_hexdigit (upper_char c1) = true /\ is_hexdigit (upper_char c2) = true /\
    c2 <> "x"%char /\ c2 <> "X"%char.
Proof.
  exists (nibble_char (Byte.to_N b / 16)), (nibble_char (Byte.to_N b mod 16)).
  split; [reflexivity|].
  destruct b; vm_compute; repeat split; discriminate.
Qed.

Lemma byte_of_nibbles (b : byte) :
  Byte.of_N (16 * (Byte.to_N b / 16) + Byte.to_N b mod 16) = Some b.
Proof. rewrite <- N.div_mod by discriminate. apply Byte.of_to_N. Qed.

Lemma unhexlify_digits_hexlify (b : bytes) : unhexlify_digits (hexlify b) = OK b.
Proof.
  induction b as [|x r IH]; [reflexivity|].
  destruct (hexlify_cons x r) as (c1 & c2 & -> & H1 & H2 & _).
  cbn [unhexlify_digits]. rewrite H1, H2, byte_of_nibbles, IH. reflexivity.
Qed.

(** A hexadecimal digit is an ASCII character. *)
Lemma hex_value_ascii (c : ascii) (h : N) :
  hex_value c = Some h -> (N_of_ascii c <? 128)%N = true.
Proof.
  unfold hex_value. intros H. apply N.ltb_lt.
  repeat match type of H with
         | (if ?c then _ else _) = _ => destruct c eqn:?
         end; try discriminate;
    repeat match goal with
           | E : (_ && _)%bool = true |- _ => apply andb_prop in E as [? ?]
           | E : (_ <=? _)%N = true |- _ => apply N.leb_le in E
           end; lia.
Qed.

Lemma isascii_hexlify (b : bytes) : isascii (hexlify b) = true.
Proof.
  induction b as [|x r IH]; [reflexivity|].
  destruct (hexlify_cons x r) as (c1 & c2 & -> & H1 & H2 & _).
  unfold isascii. cbn [string_forallb].
  rewrite (hex_value_ascii _ _ H1), (hex_value_ascii _ _ H2). exact IH.
Qed.

Lemma unhexlify_hexlify (b : bytes) : unhexlify (hexlify b) = OK b.
Proof.
  unfold unhexlify. rewrite isascii_hexlify. apply unhexlify_digits_hexlify.
Qed.

Lemma length_hexlify (b : bytes) : String.length (hexlify b) = 2 * List.length b.
Proof.
  induction b as [|x r IH]; [reflexivity|].
  destruct (hexlify_cons x r) as (c1 & c2 & -> & _).
  cbn [String.length List.length]. rewrite IH. lia.
Qed.

Lemma hexlify_not_prefixed (b : bytes) : is_0x_prefixed (hexlify b) = false.
Proof.
  destruct b as [|x r]; [reflexivity|].
  destruct (hexlify_cons x r) as (c1 & c2 & -> & H).
  destruct H as (_ & _ & _ & _ & _ & _ & _ & _ & Hx & HX).
  unfold is_0x_prefixed.
  destruct (ascii_dec c1 "0"%char) as [->|Hn].
  - destruct (ascii_dec c2 "x"%char) as [->|]; [congruence|].
    destruct (ascii_dec c2 "X"%char) as [->|]; [congruence|].
    destruct c2 as [[] [] [] [] [] [] [] []]; try reflexivity; congruence.
  - destruct c1 as [[] [] [] [] [] [] [] []]; try reflexivity; congruence.
Qed.

Lemma to_hex_eq (b : bytes) : to_hex b = ("0x" ++ hexlify b)%string.
Proof.
  unfold to_hex, encode_hex, add_0x_prefix.
  now rewrite hexlify_not_prefixed.
Qed.

Lemma remove_prefix_0x (s : string) : remove_0x_prefix ("0x" ++ s) = s.
Proof.
  unfold remove_0x_prefix. cbn -[substring]. cbn.
  rewrite Nat.sub_0_r. apply substring_all.
Qed.

Lemma decode_hex_to_hex (b : bytes) : decode_hex (to_hex b) = OK b.
Proof.
  unfold decode_hex. rewrite to_hex_eq, remove_prefix_0x.
  apply unhexlify_hexlify.
Qed.

Lemma length_to_hex (b : bytes) : String.length (to_hex b) = 2 + 2 * List.length b.
Proof. rewrite to_hex_eq. cbn. now rewrite length_hexlify. Qed.

Lemma to_bytes_to_hex (b : bytes) : to_bytes (to_hex b) = OK b.
Proof.
  unfold to_bytes. rewrite length_to_hex.
  replace (2 + 2 * List.length b) with (2 * S (List.length b)) by lia.
  rewrite Nat.odd_even. apply decode_hex_to_hex.
Qed.

End hex_facts.

(** C6. [deserialize_bytes] undoes [serialize_bytes] on every byte string,
    and the serialized form is the hex-string encoding of the bytes: the
    prefix [0x] followed by two lowercase hexadecimal digits per byte. *)
Theorem deserialize_serialize_bytes (b : bytes) :
  deserialize_bytes (serialize_bytes b) = OK b /\
  serialize_bytes b = ("0x" ++ eth_utils.hexlify b)%string /\
  String.length (serialize_bytes b) = 2 + 2 * List.length b.
Proof.
  unfold deserialize_bytes, serialize_bytes. split; [|split].
  - apply hex_facts.to_bytes_to_hex.
  - apply hex_facts.to_hex_eq.
  - apply hex_facts.length_to_hex.
Qed.

(** ** Addresses *)

Module address_facts.
Import eth_utils hex_facts.

Definition lower_hex (c : ascii) : bool :=
  existsb (Ascii.eqb c) hexdigits.

Lemma lower_hex_char (c : ascii) :
  lower_hex c = true ->
  lower_char c = c /\ lower_char (upper_char c) = c /\
  is_hexdigit c = true /\ is_hexdigit (upper_char c) = true.
Proof.
  unfold lower_hex. rewrite existsb_exists. intros (d & Hin & Heq).
  apply Ascii.eqb_eq in Heq. subst d.
  repeat (destruct Hin as [<-|Hin]; [vm_compute; repeat split|]).
  destruct Hin.
Qed.

Lemma nibble_char_lower_hex (n : N) : lower_hex (nibble_char n) = true.
Proof.
  unfold nibble_char.
  destruct (Nat.lt_ge_cases (N.to_nat n) (List.length hexdigits)) as [Hlt|Hge].
  - unfold lower_hex. rewrite existsb_exists.
    exists (nth (N.to_nat n) hexdigits "0"%char). split.
    + now apply nth_In.
    + apply Ascii.eqb_refl.
  - now rewrite nth_overflow.
Qed.

Lemma hexlify_lower_hex (b : bytes) : string_forallb lower_hex (hexlify b) = true.
Proof.
  induction b as [|x r IH]; [reflexivity|].
  cbn [hexlify hex2 append string_forallb].
  now rewrite !nibble_char_lower_hex, IH.
Qed.

Lemma lower_lower_hex (s : string) :
  string_forallb lower_hex s = true -> lower s = s.
Proof.
  induction s as [|c s IH]; [reflexivity|]. cbn.
  intros [Hc Hs]%andb_prop.
  destruct (lower_hex_char c Hc) as (-> & _). now rewrite IH.
Qed.

Lemma lower_hex_is_hexstr (s : string) :
  string_forallb lower_hex s = true -> string_forallb is_hexdigit s = true.
Proof.
  induction s as [|c s IH]; [reflexivity|]. cbn.
  intros [Hc Hs]%andb_prop.
  destruct (lower_hex_char c Hc) as (_ & _ & -> & _). now rewrite IH.
Qed.

Lemma lower_checksum_case (h : N) (s : string) (i : nat) :
  string_forallb lower_hex s = true -> lower (checksum_case h i s) = s.
Proof.
  revert i. induction s as [|c s IH]; intros i; [reflexivity|]. cbn.
  intros [Hc Hs]%andb_prop.
  destruct (lower_hex_char c Hc) as (Hl & Hlu & _).
  rewrite IH by assumption.
  destruct (N.ltb 7 (hash_nibble h i)); now rewrite ?Hl, ?Hlu.
Qed.

Lemma checksum_case_is_hexstr (h : N) (s : string) (i : nat) :
  string_forallb lower_hex s = true ->
  string_forallb is_hexdigit (checksum_case h i s) = true.
Proof.
  revert i. induction s as [|c s IH]; intros i; [reflexivity|]. cbn.
  intros [Hc Hs]%andb_prop.
  destruct (lower_hex_char c Hc) as (_ & _ & Hd & Hdu).
  rewrite IH by assumption.
  destruct (N.ltb 7 (hash_nibble h i)); now rewrite ?Hd, ?Hdu.
Qed.

Lemma length_checksum_case (h : N) (s : string) (i : nat) :
  String.length (checksum_case h i s) = String.length s.
Proof.
  revert i. induction s as [|c s IH]; intros i; [reflexivity|].
  cbn. now rewrite IH.
Qed.

Lemma is_0x_prefixed_inv (s : string) :
  is_0x_prefixed s = true ->
  exists c r, s = String "0" (String c r) /\ is_hexdigit c = false.
Proof.
  destruct s as [|c1 [|c2 r]]; cbn.
  - discriminate.
  - destruct c1 as [[] [] [] [] [] [] [] []]; discriminate.
  - destruct c1 as [[] [] [] [] [] [] [] []]; try discriminate.
    destruct c2 as [[] [] [] [] [] [] [] []]; try discriminate;
      intros _; eexists _, r; split; reflexivity.
Qed.

Lemma hexstr_not_prefixed (s : string) :
  string_forallb is_hexdigit s = true -> is_0x_prefixed s = false.
Proof.
  intros Hs. destruct (is_0x_prefixed s) eqn:Hp; [|reflexivity].
  destruct (is_0x_prefixed_inv s Hp) as (c & r & -> & Hc).
  cbn in Hs. rewrite Hc in Hs. cbn in Hs. discriminate.
Qed.

Lemma add_prefix_hexstr (s : string) :
  string_forallb is_hexdigit s = true -> add_0x_prefix s = ("0x" ++ s)%string.
Proof. intros Hs. unfold add_0x_prefix. now rewrite hexstr_not_prefixed. Qed.

Lemma normalized_bytes (a : bytes) :
  List.length a = 20 ->
  to_normalized_address_bytes a = OK ("0x" ++ hexlify a)%string.
Proof.
  intros Hlen. unfold to_normalized_address_bytes.
  rewrite to_hex_eq.
  change (lower ("0x" ++ hexlify a)) with ("0x" ++ lower (hexlify a))%string.
  rewrite lower_lower_hex by apply hexlify_lower_hex.
  unfold is_hex_address, is_hexstr. rewrite remove_prefix_0x.
  rewrite lower_hex_is_hexstr by apply hexlify_lower_hex.
  rewrite length_hexlify, Hlen. reflexivity.
Qed.

Lemma to_checksum_address_eq (keccak : bytes -> N) (a : bytes) :
  List.length a = 20 ->
  exists h,
    to_checksum_address keccak a
    = OK ("0x" ++ checksum_case h 0 (hexlify a))%string.
Proof.
  intros Hlen. unfold to_checksum_address.
  rewrite normalized_bytes by assumption. cbn [rbind].
  eexists. f_equal.
  assert (Hsub : substring 2 40 ("0x" ++ hexlify a) = hexlify a).
  { cbn. pose proof (length_hexlify a) as Hl. rewrite Hlen in Hl.
    change 40 with (2 * 20). rewrite <- Hl. apply substring_all. }
  rewrite Hsub. apply add_prefix_hexstr.
  apply checksum_case_is_hexstr, hexlify_lower_hex.
Qed.

Lemma to_canonical_checksummed (h : N) (a : bytes) :
  List.length a = 20 ->
  to_canonical_address ("0x" ++ checksum_case h 0 (hexlify a)) = OK a.
Proof.
  intros Hlen. unfold to_canonical_address, to_normalized_address_str.
  pose proof (hexlify_lower_hex a) as Hlow.
  unfold is_hexstr at 1. rewrite remove_prefix_0x.
  rewrite checksum_case_is_hexstr by assumption.
  rewrite andb_false_r.
  change (lower ("0x" ++ checksum_case h 0 (hexlify a)))
    with ("0x" ++ lower (checksum_case h 0 (hexlify a)))%string.
  rewrite lower_checksum_case by assumption.
  change (add_0x_prefix ("0x" ++ hexlify a)) with ("0x" ++ hexlify a)%string.
  change (lower ("0x" ++ hexlify a)) with ("0x" ++ lower (hexlify a))%string.
  rewrite lower_lower_hex by assumption.
  unfold is_hex_address, is_hexstr. rewrite remove_prefix_0x.
  rewrite lower_hex_is_hexstr by assumption.
  rewrite length_hexlify, Hlen. cbn [Nat.eqb Nat.mul Nat.add andb rbind].
  rewrite <- to_hex_eq. apply decode_hex_to_hex.
Qed.

End address_facts.



(** ** Merkle tree layers *)

Module merkle_facts.
Import merkle_tree.

Inductive ordered : list bytes -> Prop :=
| ordered_nil : ordered []
| ordered_one x : ordered [x]
| ordered_cons x y l : bytes_leb x y = true -> ordered (y :: l) -> ordered (x :: y :: l).

#[local] Hint Constructors ordered : core.

Lemma bytes_leb_total (a b : bytes) : bytes_leb a b = false -> bytes_leb b a = true.
Proof.
  revert b. induction a as [|x a IH]; intros [|y b]; cbn; try discriminate; auto.
  rewrite (N.compare_antisym (Byte.to_N x) (Byte.to_N y)).
  destruct (Byte.to_N x ?= Byte.to_N y)%N; cbn; auto; discriminate.
Qed.

Lemma insert_sorted_ordered (x : bytes) (l : list bytes) :
  ordered l -> ordered (insert_sorted x l).
Proof.
  induction 1 as [|y|y z l Hyz Hl IH]; cbn.
  - auto.
  - destruct (bytes_leb x y) eqn:E; auto using bytes_leb_total.
  - destruct (bytes_leb x y) eqn:E; auto.
    cbn in IH. destruct (bytes_leb x z) eqn:E'; auto using bytes_leb_total.
Qed.

Lemma sorted_ordered (l : list bytes) : ordered (sorted l).
Proof. induction l; cbn; auto using insert_sorted_ordered. Qed.

Lemma sorted_of_ordered (l : list bytes) : ordered l -> sorted l = l.
Proof.
  induction 1 as [|y|y z l Hyz Hl IH]; cbn; auto.
  cbn in IH. rewrite IH. cbn. now rewrite Hyz.
Qed.

(** Sorting is idempotent: the leaves layer is already canonical. *)
Lemma sorted_idempotent (l : list bytes) : sorted (sorted l) = sorted l.
Proof. apply sorted_of_ordered, sorted_ordered. Qed.

Lemma compute_layers_leaves hash_pair root (elements : list bytes) :
  nth_error (compute_layers hash_pair root elements) LEAVES = Some (sorted elements).
Proof. unfold compute_layers. destruct (sorted elements); reflexivity. Qed.

Lemma compute_layers_sorted hash_pair root (elements : list bytes) :
  compute_layers hash_pair root (sorted elements)
  = compute_layers hash_pair root elements.
Proof. unfold compute_layers. now rewrite sorted_idempotent. Qed.

Lemma map_deserialize_serialize (l : list bytes) :
  map_result deserialize_bytes (map serialize_bytes l) = OK l.
Proof.
  induction l as [|b l IH]; [reflexivity|]. cbn [map map_result].
  unfold deserialize_bytes at 1, serialize_bytes at 1.
  rewrite hex_facts.to_bytes_to_hex. cbn [rbind]. now rewrite IH.
Qed.

End merkle_facts.

(** C3. Serializing the layers computed from a list of leaves stores
    exactly the hex encoding of the leaves layer, and deserializing that
    output recomputes the whole layer structure: the result equals
    [compute_layers leaves], so all layers and the root are a function of
    the leaves alone. *)
Theorem deserialize_serialize_merkletree_layers
  (hash_pair : bytes -> bytes -> bytes) (EMPTY_MERKLE_ROOT : bytes)
  (leaves : list bytes) :
  let layers := merkle_tree.compute_layers hash_pair EMPTY_MERKLE_ROOT leaves in
  exists leaves_layer,
    nth_error layers merkle_tree.LEAVES = Some leaves_layer /\
    serialize_merkletree_layers layers = OK (map serialize_bytes leaves_layer) /\
    deserialize_merkletree_layers hash_pair EMPTY_MERKLE_ROOT
      (map serialize_bytes leaves_layer) = OK layers.
Proof.
  intros layers. exists (merkle_tree.sorted leaves). subst layers.
  split; [apply merkle_facts.compute_layers_leaves|]. split.
  - unfold serialize_merkletree_layers, map_list.
    rewrite merkle_facts.compute_layers_leaves.
    now apply map_result_OK.
  - unfold deserialize_merkletree_layers, map_list.
    rewrite merkle_facts.map_deserialize_serialize. cbn [rbind].
    f_equal. apply merkle_facts.compute_layers_sorted.
Qed.

(** ** Graphs *)

Module graph_facts.
Import networkx.

Lemma node_eqb_eq (a b : node) : node_eqb a b = true <-> a = b.
Proof.
  destruct a, b; cbn; try (split; [discriminate | congruence]).
  - rewrite Z.eqb_eq. split; congruence.
  - rewrite String.eqb_eq. split; congruence.
  - destruct (list_eq_dec Byte.byte_eq_dec b0 b); split; congruence.
Qed.

Lemma node_eqb_refl (a : node) : node_eqb a a = true.
Proof. now apply node_eqb_eq. Qed.

Lemma node_eqb_neq (a b : node) : node_eqb a b = false <-> a <> b.
Proof.
  rewrite <- node_eqb_eq. destruct (node_eqb a b); split; congruence.
Qed.

Ltac node_cases :=
  repeat match goal with
    | H : node_eqb _ _ = true |- _ => apply (proj1 (node_eqb_eq _ _)) in H
    | H : node_eqb _ _ = false |- _ => apply (proj1 (node_eqb_neq _ _)) in H
    end.

Lemma mem_In (n : node) (l : list node) : mem n l = true <-> In n l.
Proof.
  unfold mem. rewrite existsb_exists. split.
  - intros (x & Hx & ->%node_eqb_eq). assumption.
  - intros H. exists n. split; [assumption | apply node_eqb_refl].
Qed.

Lemma mem_not_In (n : node) (l : list node) : mem n l = false <-> ~ In n l.
Proof. rewrite <- mem_In. destruct (mem n l); split; congruence. Qed.

Lemma nodupb_NoDup (l : list node) : nodupb l = true -> NoDup l.
Proof.
  induction l as [|n l IH]; cbn; [constructor|].
  intros [Hn Hl]%andb_prop. constructor; [|auto].
  apply mem_not_In. now destruct (mem n l).
Qed.

Lemma nodes_eqb_eq (l1 l2 : list node) : nodes_eqb l1 l2 = true -> l1 = l2.
Proof.
  revert l2. induction l1 as [|a l1 IH]; intros [|b l2]; cbn; try congruence.
  intros [->%node_eqb_eq ->%IH]%andb_prop. reflexivity.
Qed.

(** *** Lookup in [_adj] *)

Lemma adj_get_In adj n l : adj_get adj n = Some l -> In (n, l) adj.
Proof.
  induction adj as [|[k l'] adj IH]; cbn; [discriminate|].
  destruct (node_eqb k n) eqn:E.
  - apply node_eqb_eq in E. intros [= ->]. left. congruence.
  - auto.
Qed.

Lemma adj_get_of_In adj n l :
  NoDup (map fst adj) -> In (n, l) adj -> adj_get adj n = Some l.
Proof.
  induction adj as [|[k l'] adj IH]; cbn; [contradiction|].
  intros Hnd [[= -> ->]|Hin]; inversion_clear Hnd as [|? ? Hk Hnd'].
  - now rewrite node_eqb_refl.
  - destruct (node_eqb k n) eqn:E; [|auto].
    apply node_eqb_eq in E. subst k. exfalso. apply Hk.
    change n with (fst (n, l)). now apply in_map.
Qed.

Lemma adj_get_key adj n : In n (map fst adj) <-> adj_get adj n <> None.
Proof.
  induction adj as [|[k l] adj IH]; cbn; [tauto|].
  destruct (node_eqb k n) eqn:E.
  - apply node_eqb_eq in E. split; [discriminate | auto].
  - apply node_eqb_neq in E. rewrite <- IH. tauto.
Qed.

Lemma neighbors_key g u v :
  In v (neighbors g u) -> In u (map fst (_adj g)).
Proof.
  unfold neighbors. intros H. apply adj_get_key.
  destruct (adj_get (_adj g) u); [discriminate | destruct H].
Qed.

(** *** The edges that iteration yields *)

Lemma edges_from_sound adj seen a b :
  In (a, b) (edges_from seen adj) -> exists l, In (a, l) adj /\ In b l.
Proof.
  revert seen. induction adj as [|[n nbrs] adj IH]; intros seen; cbn; [contradiction|].
  rewrite in_app_iff, in_map_iff.
  intros [(x & [= <- <-] & Hx%filter_In)|H].
  - exists nbrs. split; [now left | tauto].
  - destruct (IH _ H) as (l & Hl & Hb). exists l. auto.
Qed.

Lemma edges_from_complete adj seen u v lu lv :
  NoDup (map fst adj) ->
  (forall k, In k seen -> ~ In k (map fst adj)) ->
  In (u, lu) adj -> In v lu ->
  In (v, lv) adj -> In u lv ->
  In (u, v) (edges_from seen adj) \/ In (v, u) (edges_from seen adj).
Proof.
  revert seen. induction adj as [|[n nbrs] adj IH]; intros seen Hnd Hseen Hu Hv Hv' Hu';
    [destruct Hu|].
  cbn [edges_from]. rewrite !in_app_iff, !in_map_iff.
  assert (Hfresh : forall x l, In (x, l) ((n, nbrs) :: adj) -> mem x seen = false).
  { intros x l Hx. apply mem_not_In. intros Hs. apply (Hseen _ Hs).
    change x with (fst (x, l)). now apply in_map. }
  destruct Hu as [[= -> ->]|Hu].
  - left. left. exists v. split; [reflexivity|].
    apply filter_In. split; [assumption|]. now rewrite (Hfresh v lv).
  - destruct Hv' as [[= -> ->]|Hv'].
    + right. left. exists u. split; [reflexivity|].
      apply filter_In. split; [assumption|].
      rewrite (Hfresh u lu); [reflexivity | now right].
    + inversion_clear Hnd as [|? ? Hn Hnd'].
      destruct (IH (n :: seen) Hnd') as [H|H]; auto.
      intros k [<-|Hk]; [assumption|].
      intros Hin. apply (Hseen k Hk). now right.
Qed.

Section Consistent.

Variable g : Graph.
Hypothesis Hg : consistent g = true.

Lemma consistent_keys : map fst (_adj g) = _node g.
Proof.
  pose proof Hg as Hc. unfold consistent in Hc.
  apply andb_prop in Hc as [[H _]%andb_prop _].
  now apply nodes_eqb_eq.
Qed.

Lemma consistent_NoDup : NoDup (map fst (_adj g)).
Proof.
  rewrite consistent_keys.
  pose proof Hg as Hc. unfold consistent in Hc.
  apply andb_prop in Hc as [[_ H]%andb_prop _].
  now apply nodupb_NoDup.
Qed.

Lemma consistent_sym u v : In v (neighbors g u) -> In u (neighbors g v).
Proof.
  intros H. pose proof Hg as Hc. unfold consistent in Hc. apply andb_prop in Hc as [_ Hsym].
  rewrite forallb_forall in Hsym.
  unfold neighbors in H. destruct (adj_get (_adj g) u) as [l|] eqn:E; [|destruct H].
  specialize (Hsym _ (adj_get_In _ _ _ E)). cbn in Hsym.
  rewrite forallb_forall in Hsym. apply mem_In. auto.
Qed.

Lemma edges_neighbors a b : In (a, b) (edges g) -> In b (neighbors g a).
Proof.
  intros (l & Hl & Hb)%edges_from_sound.
  unfold neighbors. now rewrite (adj_get_of_In _ _ _ consistent_NoDup Hl).
Qed.

Lemma neighbors_edges u v :
  In v (neighbors g u) -> In (u, v) (edges g) \/ In (v, u) (edges g).
Proof.
  intros Huv. pose proof (consistent_sym _ _ Huv) as Hvu.
  unfold neighbors in Huv, Hvu.
  destruct (adj_get (_adj g) u) as [lu|] eqn:Eu; [|destruct Huv].
  destruct (adj_get (_adj g) v) as [lv|] eqn:Ev; [|destruct Hvu].
  apply (edges_from_complete (_adj g) [] u v lu lv);
    auto using consistent_NoDup, adj_get_In.
Qed.

Lemma edges_endpoints a b :
  In (a, b) (edges g) -> In a (_node g) /\ In b (_node g).
Proof.
  intros H%edges_neighbors. rewrite <- consistent_keys. split.
  - eapply neighbors_key; eassumption.
  - eapply neighbors_key. apply consistent_sym. eassumption.
Qed.

End Consistent.

(** *** Building a graph from an edge list *)

Lemma adj_set_keys adj u v : map fst (adj_set adj u v) = map fst adj.
Proof.
  induction adj as [|[k l] adj IH]; cbn; [reflexivity|].
  destruct (node_eqb k u); cbn; congruence.
Qed.

Lemma adj_get_adj_set adj u v x :
  adj_get (adj_set adj u v) x
  = match adj_get adj x with
    | Some l => Some (if node_eqb x u then (if mem v l then l else l ++ [v]) else l)
    | None => None
    end.
Proof.
  induction adj as [|[k l] adj IH]; cbn; [reflexivity|].
  destruct (node_eqb k u) eqn:Eku; cbn; destruct (node_eqb k x) eqn:Ekx; auto.
  - apply node_eqb_eq in Eku, Ekx. subst. now rewrite node_eqb_refl.
  - destruct (adj_get adj x); [|reflexivity].
    destruct (node_eqb x u) eqn:Exu; [|reflexivity].
    apply node_eqb_eq in Eku, Exu. subst. now rewrite node_eqb_refl in Ekx.
  - apply node_eqb_eq in Ekx. subst. now rewrite Eku.
Qed.

Lemma in_add_last (v y : node) (l : list node) :
  In y (if mem v l then l else l ++ [v]) <-> In y l \/ y = v.
Proof.
  destruct (mem v l) eqn:E.
  - apply mem_In in E. split; [auto | intros [H| ->]; auto].
  - rewrite in_app_iff. cbn. intuition congruence.
Qed.

Lemma adj_get_app_fresh adj n x :
  match adj_get (adj ++ [(n, [])]) x with Some l => l | None => [] end
  = match adj_get adj x with Some l => l | None => [] end.
Proof.
  induction adj as [|[k l] adj IH]; cbn.
  - now destruct (node_eqb n x).
  - now destruct (node_eqb k x).
Qed.

Definition keyed (g : Graph) : Prop := map fst (_adj g) = _node g.

Lemma add_node_spec g n :
  keyed g ->
  keyed (add_node g n) /\
  (forall x, In x (_node (add_node g n)) <-> In x (_node g) \/ x = n) /\
  (forall x, neighbors (add_node g n) x = neighbors g x).
Proof.
  unfold keyed, add_node. intros Hk. destruct (mem n (_node g)) eqn:E.
  - apply mem_In in E. repeat split; auto; intuition congruence.
  - cbn. repeat split.
    + rewrite map_app, Hk. reflexivity.
    + rewrite in_app_iff. cbn. intuition congruence.
    + rewrite in_app_iff. cbn. intuition congruence.
    + intros x. unfold neighbors. cbn. apply adj_get_app_fresh.
Qed.

Lemma add_edge_spec g u v :
  keyed g ->
  keyed (add_edge g (u, v)) /\
  (forall x, In x (_node (add_edge g (u, v))) <-> In x (_node g) \/ x = u \/ x = v) /\
  (forall x y, In y (neighbors (add_edge g (u, v)) x)
               <-> In y (neighbors g x) \/ (x = u /\ y = v) \/ (x = v /\ y = u)).
Proof.
  intros Hk. unfold add_edge.
  destruct (add_node_spec g u Hk) as (Hk1 & Hn1 & Ha1).
  destruct (add_node_spec _ v Hk1) as (Hk2 & Hn2 & Ha2).
  set (g2 := add_node (add_node g u) v) in *.
  assert (Hkey : forall x, In x (_node g2) -> adj_get (_adj g2) x <> None).
  { intros x Hx. apply adj_get_key. now rewrite Hk2. }
  split; [|split].
  - unfold keyed. cbn. now rewrite !adj_set_keys.
  - intros x. cbn. rewrite Hn2, Hn1. tauto.
  - intros x y. unfold neighbors at 1. cbn [_adj]. rewrite !adj_get_adj_set.
    assert (Hx : x = u \/ x = v -> adj_get (_adj g2) x <> None).
    { intros Hz. apply Hkey, Hn2. rewrite Hn1. tauto. }
    rewrite <- Ha1, <- Ha2. fold g2. unfold neighbors.
    destruct (adj_get (_adj g2) x) as [l|].
    + destruct (node_eqb x v) eqn:Ev, (node_eqb x u) eqn:Eu;
        rewrite ?in_add_last; node_cases; subst; intuition congruence.
    + split; [intros [] | intros [[]|H]]. exfalso. apply Hx; [tauto | reflexivity].
Qed.

Lemma fold_add_edge_spec l : forall g,
  keyed g ->
  let g' := fold_left add_edge l g in
  keyed g' /\
  (forall x, In x (_node g') <->
             In x (_node g) \/ exists e, In e l /\ (x = fst e \/ x = snd e)) /\
  (forall x y, In y (neighbors g' x) <->
               In y (neighbors g x) \/ In (x, y) l \/ In (y, x) l).
Proof.
  induction l as [|[u v] l IH]; intros g Hk; cbn.
  - split; [assumption|]. split.
    + intros x. split; [auto | intros [H|(e & [] & _)]; assumption].
    + intros x y. split; [auto | intros [H|[[]|[]]]; assumption].
  - destruct (add_edge_spec g u v Hk) as (Hk' & Hn & Ha).
    destruct (IH _ Hk') as (Hk'' & Hn' & Ha').
    split; [assumption|]. split.
    + intros x. rewrite Hn', Hn. split.
      * intros [[H|H]|(e & He & Hx)]; auto.
        -- right. exists (u, v). cbn. tauto.
        -- right. exists e. auto.
      * intros [H|(e & [<-|He] & Hx)]; cbn in *; auto.
        right. exists e. auto.
    + intros x y. rewrite Ha', Ha. split.
      * intros [[H|[[-> ->]|[-> ->]]]|[H|H]]; auto.
      * intros [H|[[[= -> ->]|H]|[[= -> ->]|H]]]; auto.
Qed.

Lemma from_edgelist_spec l :
  let g' := from_edgelist l in
  (forall x, In x (_node g') <-> exists e, In e l /\ (x = fst e \/ x = snd e)) /\
  (forall x y, In y (neighbors g' x) <-> In (x, y) l \/ In (y, x) l).
Proof.
  destruct (fold_add_edge_spec l empty eq_refl) as (_ & Hn & Ha).
  cbn. fold (from_edgelist l) in *. split.
  - intros x. rewrite Hn. cbn. tauto.
  - intros x y. rewrite Ha. cbn. tauto.
Qed.

(** *** The JSON form of the edge list *)

Definition edge_doc (e : node * node) : json.doc :=
  match dumps_node (fst e), dumps_node (snd e) with
  | OK u, OK v => JArr [u; v]
  | _, _ => JNull
  end.

Lemma dumps_edges_OK (l : list (node * node)) :
  (forall a b, In (a, b) l -> (forall x, a <> NBytes x) /\ (forall x, b <> NBytes x)) ->
  map_result dumps_edge l = OK (map edge_doc l) /\
  map_result loads_edge (map edge_doc l) = OK l.
Proof.
  induction l as [|[a b] l IH]; intros H; [split; reflexivity|].
  destruct IH as [IH1 IH2]; [intros; apply H; now right|].
  destruct (H a b (or_introl eq_refl)) as [Ha Hb].
  cbn [map map_result]. rewrite IH1, IH2.
  destruct a as [za|sa|ba]; [| |now destruct (Ha ba)];
    (destruct b as [zb|sb|bb]; [| |now destruct (Hb bb)]);
    split; reflexivity.
Qed.

End graph_facts.




(** ** The JSON encoder and decoder *)

Module json_facts.

Lemma map_result_inverse {A B} (f : A -> result B) (g : B -> result A) (l : list A) :
  (forall a, In a l -> exists b, f a = OK b /\ g b = OK a) ->
  exists l', map_result f l = OK l' /\ map_result g l' = OK l.
Proof.
  induction l as [|a l IH]; intros H.
  - exists []. split; reflexivity.
  - destruct (H a (or_introl eq_refl)) as (b & Hf & Hg).
    destruct IH as (l' & Hl & Hl'); [intros; apply H; now right|].
    exists (b :: l'). cbn. rewrite Hf, Hl. cbn. rewrite Hg, Hl'. split; reflexivity.
Qed.

Lemma height_item (items : list pyobj) (o : pyobj) :
  In o items -> height o < height (PList items).
Proof.
  cbn. induction items as [|i items IH]; [contradiction|].
  cbn. intros [->|H]; [lia|]. specialize (IH H). lia.
Qed.

Section Env.

Variable env : modules.
Local Open Scope string_scope.

(** A plain object makes the decoder raise: the hook falls through to an
    attribute that [json.JSONDecoder] does not have. *)
Lemma object_hook_plain (data : list (string * pyobj)) :
  dict_has data "_type" = false -> object_hook env data = Raise AttributeError.
Proof. unfold object_hook. now intros ->. Qed.

Lemma loads_OK_has_type (members : list (string * doc)) (o : pyobj) :
  loads env (JObj members) = OK o ->
  exists pairs,
    map_result (fun kv => (x <- loads env (snd kv) ;; OK (fst kv, x))%res) members
    = OK pairs /\
    dict_has (dict_of_pairs pairs) "_type" = true.
Proof.
  cbn [loads].
  destruct (map_result _ members) as [pairs|e]; cbn [rbind]; [|discriminate].
  intros H. exists pairs. split; [reflexivity|].
  destruct (dict_has (dict_of_pairs pairs) "_type") eqn:E; [reflexivity|].
  rewrite object_hook_plain in H by assumption. discriminate.
Qed.

(** Scalars and lists of them survive the round trip unchanged. *)
Lemma loads_dumps_flat (depth : nat) : forall o,
  height o < depth -> flat o = true ->
  exists d, dumps env depth o = OK d /\ loads env d = OK o.
Proof.
  induction depth as [|depth IH]; intros o Hh Hf; [lia|].
  destruct o; try discriminate; cbn [dumps]; try (eexists; split; reflexivity).
  destruct (map_result_inverse (dumps env depth) (loads env) items) as (l' & H1 & H2).
  { intros a Ha. apply IH.
    - pose proof (height_item items a Ha). lia.
    - cbn in Hf. rewrite forallb_forall in Hf. auto. }
  exists (JArr l'). rewrite H1. cbn. now rewrite H2.
Qed.

End Env.

Lemma dict_set_other {V} (d : list (string * V)) (k k' : string) (v : V) :
  k' <> k -> dict_get (dict_set d k v) k' = dict_get d k'.
Proof.
  intros Hne. induction d as [|[k0 v0] d IH]; cbn.
  - destruct (String.eqb_spec k k'); congruence.
  - destruct (String.eqb_spec k0 k); cbn.
    + subst. destruct (String.eqb_spec k k'); congruence.
    + destruct (String.eqb_spec k0 k'); congruence.
Qed.

Lemma dict_set_same {V} (d : list (string * V)) (k : string) (v : V) :
  dict_get (dict_set d k v) k = Some v.
Proof.
  induction d as [|[k0 v0] d IH]; cbn.
  - now rewrite String.eqb_refl.
  - destruct (String.eqb_spec k0 k); cbn.
    + subst. now rewrite String.eqb_refl.
    + destruct (String.eqb_spec k0 k); congruence.
Qed.

End json_facts.

Local Open Scope string_scope.

(** Where the round trip of C1 holds: an entity whose dict form holds
    scalars and lists only. *)
Example json_decode_encode_flat_entity :
  exists d,
    json_encode entity_modules 4 flat_entity = OK d /\
    json_decode entity_modules d = OK flat_entity.
Proof. eexists. split; reflexivity. Qed.

(** C1. The claim fails on the code where the serialized form nests a plain
    JSON object. [Entity] does its part ([from_dict] undoes [to_dict] with
    the [_type] field), and [json_encode] emits [to_dict()] extended with
    [_type]; but [json_decode] raises [AttributeError] on the nested object
    that has no [_type] key, instead of reconstructing the entity. *)
Theorem json_decode_nested_plain_object :
  (exists obj_to_dict klass_from_dict attrs,
      nested_entity = PInstance "app.state" "Entity" attrs /\
      to_dict Entity = Some obj_to_dict /\
      from_dict Entity = Some klass_from_dict /\
      (data <- obj_to_dict attrs ;;
       klass_from_dict (dict_set data "_type" (PStr "app.state.Entity")))%res
      = OK nested_entity) /\
  json_encode entity_modules 4 nested_entity
  = OK (JObj [("name", JStr "channel");
              ("balances", JObj [("ours", JNum 50); ("theirs", JNum 50)]);
              ("_type", JStr "app.state.Entity")]) /\
  json_decode entity_modules
    (JObj [("name", JStr "channel");
           ("balances", JObj [("ours", JNum 50); ("theirs", JNum 50)]);
           ("_type", JStr "app.state.Entity")])
  = Raise AttributeError /\
  (forall depth d,
      json_encode entity_modules depth nested_entity = OK d ->
      json_decode entity_modules d <> OK nested_entity).
Proof.
  split; [|split; [|split]].
  - eexists _, _, _. repeat split; reflexivity.
  - reflexivity.
  - reflexivity.
  - intros depth d. unfold json_encode, json_decode.
    destruct depth as [|[|[|[|depth]]]]; try discriminate.
    cbn. intros [= <-]. cbn. discriminate.
Qed.

Local Close Scope string_scope.

(** ** The factories *)

Lemma rbind_inv {A B} (r : result A) (k : A -> result B) (y : B) :
  rbind r k = OK y -> exists a, r = OK a /\ k a = OK y.
Proof. destruct r as [a|e]; cbn; [eauto | discriminate]. Qed.

Lemma bind_OK {A B} {m : M A} {g g' : rng} {a : A} (k : A -> M B) :
  m g = OK (a, g') -> bind m k g = k a g'.
Proof. unfold bind. now intros ->. Qed.

Lemma bind_inv {A B} (m : M A) (k : A -> M B) (g : rng) (r : B * rng) :
  bind m k g = OK r -> exists a g', m g = OK (a, g') /\ k a g' = OK r.
Proof. unfold bind. destruct (m g) as [[a g']|e]; [eauto | discriminate]. Qed.

Lemma bind_Raise {A B} (m : M A) (k : A -> M B) (g : rng) (e : exn) :
  m g = Raise e -> bind m k g = Raise e.
Proof. unfold bind. now intros ->. Qed.

Lemma lift_inv {A} (r : result A) (g g' : rng) (a : A) :
  lift r g = OK (a, g') -> r = OK a /\ g' = g.
Proof. unfold lift. destruct r; [intros [= -> ->]; auto | discriminate]. Qed.

Lemma lift_OK {A} (r : result A) (g : rng) (a : A) :
  r = OK a -> lift r g = OK (a, g).
Proof. now intros ->. Qed.

Lemma assert_inv (c : bool) (g g' : rng) (u : unit) :
  assert c g = OK (u, g') -> c = true /\ g' = g.
Proof. destruct c; cbn; [intros [= _ ->]; auto | discriminate]. Qed.

(** Decompose a computation that is known to return. *)
Ltac invert_run H :=
  repeat (cbv beta zeta in H;
          match type of H with
          | bind (lift _) _ _ = OK _ =>
              let a := fresh "a" in let g := fresh "g" in
              let E := fresh "E" in
              apply bind_inv in H as (a & g & E & H);
              apply lift_inv in E as [E ->]
          | bind (assert _) _ _ = OK _ =>
              let a := fresh "a" in let g := fresh "g" in
              let E := fresh "E" in
              apply bind_inv in H as (a & g & E & H);
              apply assert_inv in E as [E ->]
          | bind _ _ _ = OK _ =>
              let a := fresh "a" in let g := fresh "g" in
              let E := fresh "E" in
              apply bind_inv in H as (a & g & E & H)
          | rbind _ _ = OK _ =>
              let a := fresh "a" in let E := fresh "E" in
              apply rbind_inv in H as (a & E & H)
          end).

(** Evaluate lookups in dicts with literal keys, and nothing else. *)
Ltac dict_compute_in H :=
  cbv [getattr getitem dict_get dict_set dict_pop dict_has new_lock construct
       String.eqb Ascii.eqb Bool.eqb fst snd] in H.

Ltac dict_compute :=
  cbv [getattr getitem dict_get dict_set dict_pop dict_has new_lock construct
       String.eqb Ascii.eqb Bool.eqb fst snd].

Module random_facts.

Lemma randint_total (a c : Z) (g : rng) :
  exists n g', random.randint a c g = OK (n, g').
Proof. unfold random.randint, bind, random.draw, ret. eauto. Qed.

Lemma choice_total {A} (l : list A) (d : A) (g : rng) :
  exists x g', random.choice l d g = OK (x, g').
Proof. unfold random.choice, bind, random.draw, ret. eauto. Qed.

Lemma mapM_total {A B} (f : A -> M B) (l : list A) :
  (forall a g, exists y g', f a g = OK (y, g')) ->
  forall g, exists ys g', mapM f l g = OK (ys, g').
Proof.
  intros Hf. induction l as [|a l IH]; intros g; cbn.
  - unfold ret. eauto.
  - destruct (Hf a g) as (y & g1 & E1). rewrite (bind_OK _ E1).
    destruct (IH g1) as (ys & g2 & E2). rewrite (bind_OK _ E2).
    unfold ret. eauto.
Qed.

End random_facts.

Section FactoryFacts.

Context {collaborators : Collaborators}.
Variable import_rng : rng.

Local Open Scope string_scope.

Lemma random_printable_total (n : nat) (g : rng) :
  exists bs g', random_printable n g = OK (VBytes bs, g').
Proof.
  unfold random_printable.
  destruct (random_facts.mapM_total (fun _ : nat => random.choice printable x00) (seq 0 n)
              (fun _ g0 => random_facts.choice_total printable x00 g0) g)
    as (bs & g' & E).
  rewrite (bind_OK _ E). unfold ret. eauto.
Qed.

Lemma make_address_total (g : rng) :
  exists bs g', make_address g = OK (VBytes bs, g').
Proof. apply random_printable_total. Qed.

Lemma make_uint256_total (g : rng) :
  exists n g', make_uint256 g = OK (VInt n, g').
Proof.
  unfold make_uint256.
  destruct (random_facts.randint_total 0 UINT256_MAX g) as (n & g' & E).
  rewrite (bind_OK _ E). unfold ret. eauto.
Qed.

Lemma make_canonical_identifier_total (chain network channel : value) (g : rng) :
  exists cid g',
    make_canonical_identifier chain network channel g
    = OK (VObj CanonicalIdentifier
            [("chain_identifier", chain); ("token_network_address", network);
             ("channel_identifier", cid)], g').
Proof.
  unfold make_canonical_identifier. destruct (truthy channel).
  - cbn. unfold ret. eauto.
  - destruct (make_uint256_total g) as (n & g' & E).
    unfold make_channel_identifier. rewrite (bind_OK _ E). unfold ret. eauto.
Qed.

Lemma make_channel_endstate_total (address balance : value) (g : rng) :
  exists made g',
    make_channel_endstate address balance g
    = OK (NettingChannelEndState_init (if_empty address (VBytes made))
            (if_empty balance (VInt 0)), g').
Proof.
  unfold make_channel_endstate.
  destruct (make_address_total g) as (bs & g' & E).
  rewrite (bind_OK _ E). unfold ret. eauto.
Qed.

Lemma bytes_eqb_refl (x : bytes) : bytes_eqb x x = true.
Proof. unfold bytes_eqb. destruct (list_eq_dec Byte.byte_eq_dec x x); congruence. Qed.

Lemma bytes_eqb_eq (x y : bytes) : bytes_eqb x y = true -> x = y.
Proof.
  unfold bytes_eqb. destruct (list_eq_dec Byte.byte_eq_dec x y); congruence.
Qed.

Lemma value_eqb_VBytes (v : value) (x : bytes) :
  value_eqb v (VBytes x) = true <-> v = VBytes x.
Proof.
  split.
  - destruct v; cbn; try discriminate. now intros ->%bytes_eqb_eq.
  - intros ->. cbn. apply bytes_eqb_refl.
Qed.

End FactoryFacts.

(** ** Dicts, dataclasses and [_replace_properties] *)

Module dict_facts.

Lemma map_result_Forall2 {A B} (f : A -> result B) (l : list A) (l' : list B) :
  map_result f l = OK l' <-> Forall2 (fun a y => f a = OK y) l l'.
Proof.
  revert l'. induction l as [|a l IH]; intros l'; cbn.
  - split; [intros [= <-]; constructor | now inversion 1].
  - split.
    + destruct (f a) as [y|] eqn:E; cbn; [|discriminate].
      destruct (map_result f l) as [ys|]; cbn; [|discriminate].
      intros [= <-]. constructor; [assumption | now apply IH].
    + inversion 1 as [|? y ? ys Hy Hys]; subst.
      rewrite Hy. cbn. apply IH in Hys. now rewrite Hys.
Qed.

Section Dict.

Context {V : Type}.
Implicit Types (d : list (string * V)) (k : string).

Lemma dict_get_key d k : In k (map fst d) <-> dict_get d k <> None.
Proof.
  induction d as [|[k0 v0] d IH]; cbn; [tauto|].
  destruct (String.eqb_spec k0 k); [split; [discriminate | auto]|].
  rewrite <- IH. tauto.
Qed.

Lemma dict_get_None d k : ~ In k (map fst d) <-> dict_get d k = None.
Proof.
  rewrite dict_get_key. destruct (dict_get d k); split; try congruence.
  intros H. exfalso. apply H. discriminate.
Qed.

Lemma dict_get_In d k v : dict_get d k = Some v -> In (k, v) d.
Proof.
  induction d as [|[k0 v0] d IH]; cbn; [discriminate|].
  destruct (String.eqb_spec k0 k); [intros [= ->]; left; congruence | auto].
Qed.

Lemma dict_get_app d1 d2 k :
  dict_get (d1 ++ d2) k
  = match dict_get d1 k with Some v => Some v | None => dict_get d2 k end.
Proof.
  induction d1 as [|[k0 v0] d1 IH]; cbn; [reflexivity|].
  now destruct (String.eqb k0 k).
Qed.

Lemma dict_get_filter_Some (P : string * V -> bool) d k v :
  dict_get d k = Some v -> P (k, v) = true -> dict_get (filter P d) k = Some v.
Proof.
  induction d as [|[k0 v0] d IH]; cbn; [discriminate|].
  destruct (String.eqb_spec k0 k) as [->|Hne].
  - intros [= ->] HP. rewrite HP. cbn. now rewrite String.eqb_refl.
  - intros Hd HP. destruct (P (k0, v0)); cbn; auto.
    destruct (String.eqb_spec k0 k); [contradiction | auto].
Qed.

Lemma dict_get_filter_None (P : string * V -> bool) d k :
  dict_get d k = None -> dict_get (filter P d) k = None.
Proof.
  induction d as [|[k0 v0] d IH]; cbn; [reflexivity|].
  destruct (String.eqb_spec k0 k); [discriminate|]. intros Hd.
  destruct (P (k0, v0)); cbn; auto.
  destruct (String.eqb_spec k0 k); [contradiction | auto].
Qed.

Lemma dict_get_filter_dropped (P : string * V -> bool) d k v :
  NoDup (map fst d) ->
  dict_get d k = Some v -> P (k, v) = false -> dict_get (filter P d) k = None.
Proof.
  induction d as [|[k0 v0] d IH]; cbn; [discriminate|].
  intros Hnd. inversion_clear Hnd as [|? ? Hk Hnd'].
  destruct (String.eqb_spec k0 k) as [->|Hne].
  - intros [= ->] HP. rewrite HP. apply dict_get_filter_None.
    now apply dict_get_None.
  - intros Hd HP. destruct (P (k0, v0)); cbn; auto.
    destruct (String.eqb_spec k0 k); [contradiction | auto].
Qed.

Lemma dict_get_filter_inv (P : string * V -> bool) d k v :
  dict_get (filter P d) k = Some v -> In (k, v) d /\ P (k, v) = true.
Proof. intros H%dict_get_In. now apply filter_In in H. Qed.

End Dict.

Lemma dict_get_map_values {V W} (f : string -> V -> W) (d : list (string * V)) (k : string) :
  dict_get (map (fun kv => (fst kv, f (fst kv) (snd kv))) d) k
  = match dict_get d k with Some v => Some (f k v) | None => None end.
Proof.
  induction d as [|[k0 v0] d IH]; cbn; [reflexivity|].
  destruct (String.eqb_spec k0 k); [congruence | auto].
Qed.

(** A list of pairs made from another, entry by entry, keeping the keys. *)
Lemma Forall2_dict_get {V W} (Q : string -> V -> W -> Prop)
  (d : list (string * V)) (d' : list (string * W)) :
  Forall2 (fun a y => fst y = fst a /\ Q (fst a) (snd a) (snd y)) d d' ->
  map fst d' = map fst d /\
  forall k,
    match dict_get d k with
    | Some v => exists w, dict_get d' k = Some w /\ Q k v w
    | None => dict_get d' k = None
    end.
Proof.
  induction 1 as [|[k0 v0] [k1 w1] d d' [Hk HQ] H IH]; cbn in *.
  - split; [reflexivity | intros; reflexivity].
  - destruct IH as [IHk IHg]. subst k1. split; [congruence|].
    intros k. destruct (String.eqb_spec k0 k); [subst; eauto | apply IHg].
Qed.

Lemma string_mem_In (k : string) (l : list string) :
  string_mem k l = true <-> In k l.
Proof.
  unfold string_mem. rewrite existsb_exists. split.
  - intros (x & Hx & ->%String.eqb_eq). assumption.
  - intros H. exists k. split; [assumption | apply String.eqb_refl].
Qed.

Lemma strings_eqb_eq (l1 l2 : list string) : strings_eqb l1 l2 = true <-> l1 = l2.
Proof.
  revert l2. induction l1 as [|a l1 IH]; intros [|c l2]; cbn;
    try (split; [discriminate | congruence]); [tauto|].
  rewrite andb_true_iff, String.eqb_eq, IH. split; [intros [-> ->] | intros [= -> ->]]; auto.
Qed.

(** *** The constructor of a dataclass *)

Lemma new_inv (cls : pclass) (kw : list (string * value)) (r : value) :
  new cls kw = OK r ->
  exists d,
    r = VProps cls d /\
    map fst d = field_names cls /\
    (forall k, In k (map fst kw) -> In k (field_names cls)) /\
    (forall k v, dict_get kw k = Some v -> dict_get d k = Some v) /\
    (forall k v, dict_get kw k = None -> dict_get d k = Some v ->
                 dict_get (fields cls) k = Some (Some v)).
Proof.
  unfold new. destruct (forallb _ kw) eqn:Hall; cbn [negb]; [|discriminate].
  intros H. apply rbind_inv in H as (d & Hd & [= <-]).
  exists d. split; [reflexivity|].
  rewrite forallb_forall in Hall.
  assert (Hkeys : forall k, In k (map fst kw) -> In k (field_names cls)).
  { intros k ([k' v] & <- & Hin)%in_map_iff. apply string_mem_In.
    apply (Hall _ Hin). }
  apply map_result_Forall2 in Hd.
  assert (HF : Forall2
            (fun (a : string * option value) (y : string * value) =>
               fst y = fst a /\
               (fun k (dv : option value) v =>
                  match dict_get kw k with
                  | Some x => v = x
                  | None => dv = Some v
                  end) (fst a) (snd a) (snd y)) (fields cls) d).
  { eapply Forall2_impl; [|exact Hd]. cbn. intros [k dv] [k' v]. cbn.
    destruct (dict_get kw k) as [x|]; [intros [= -> ->]; auto|].
    destruct dv; [intros [= -> ->]; auto | discriminate]. }
  apply Forall2_dict_get in HF as [Hk Hg].
  split; [exact Hk|]. split; [exact Hkeys|]. split.
  - intros k v Hkv. specialize (Hg k).
    destruct (dict_get (fields cls) k) as [dv|] eqn:Hf.
    + destruct Hg as (w & -> & Hw). rewrite Hkv in Hw. congruence.
    + exfalso. apply dict_get_None in Hf. apply Hf, Hkeys.
      apply dict_get_key. congruence.
  - intros k v Hkv Hdk. specialize (Hg k).
    destruct (dict_get (fields cls) k) as [dv|] eqn:Hf.
    + destruct Hg as (w & Hw & Hdv). rewrite Hkv in Hdv. congruence.
    + congruence.
Qed.

Lemma new_OK (cls : pclass) (kw : list (string * value)) :
  (forall k, In k (map fst kw) -> In k (field_names cls)) ->
  (forall f, In f (fields cls) -> dict_get kw (fst f) <> None \/ snd f <> None) ->
  exists d, new cls kw = OK (VProps cls d).
Proof.
  intros Hkeys Hall. unfold new.
  replace (forallb _ kw) with true.
  2:{ symmetry. apply forallb_forall. intros [k v] Hin. apply string_mem_In.
      apply Hkeys. change k with (fst (k, v)). now apply in_map. }
  cbn [negb].
  assert (H : exists d, map_result
            (fun f : string * option value =>
               match dict_get kw (fst f), snd f with
               | Some v, _ => OK (fst f, v)
               | None, Some v => OK (fst f, v)
               | None, None => Raise TypeError
               end) (fields cls) = OK d).
  { clear Hkeys. induction (fields cls) as [|[k dv] fs IH]; [exists []; reflexivity|].
    destruct IH as (d & Hd); [intros f Hf; apply Hall; now right|].
    cbn [map_result fst snd]. rewrite Hd.
    destruct (Hall (k, dv) (or_introl eq_refl)) as [H|H]; cbn in H.
    - destruct (dict_get kw k); [cbn; eauto | congruence].
    - destruct (dict_get kw k); [cbn; eauto|].
      destruct dv; [cbn; eauto | congruence]. }
  destruct H as (d & ->). cbn. eauto.
Qed.

End dict_facts.

Module replace_facts.
Import dict_facts.

Definition changed (changes : list (string * value)) (k : string) (x : value) : value :=
  match dict_get changes k with Some v => v | None => x end.

Lemma replace_unfold (cls : pclass) (bd changes : list (string * value)) :
  dataclasses.replace (VProps cls bd) changes
  = new cls (map (fun kv => (fst kv, changed changes (fst kv) (snd kv))) bd
             ++ filter (fun kv => negb (dict_has bd (fst kv))) changes).
Proof.
  unfold dataclasses.replace. f_equal. f_equal. apply map_ext.
  intros [k x]. unfold changed. cbn. now destruct (dict_get changes k).
Qed.

Lemma merged_get (bd changes : list (string * value)) (k : string) :
  dict_get (map (fun kv => (fst kv, changed changes (fst kv) (snd kv))) bd
            ++ filter (fun kv => negb (dict_has bd (fst kv))) changes) k
  = match dict_get bd k with
    | Some x => Some (changed changes k x)
    | None => dict_get changes k
    end.
Proof.
  rewrite dict_get_app, (dict_get_map_values (changed changes)).
  destruct (dict_get bd k) as [x|] eqn:Hb; [reflexivity|].
  destruct (dict_get changes k) as [v|] eqn:Hc.
  - apply dict_get_filter_Some; [assumption|]. cbn. unfold dict_has. now rewrite Hb.
  - now apply dict_get_filter_None.
Qed.

Lemma replace_inv (obj r : value) (changes : list (string * value)) :
  dataclasses.replace obj changes = OK r ->
  exists cls bd rd,
    obj = VProps cls bd /\ r = VProps cls rd /\
    map fst rd = field_names cls /\
    (forall k, In k (map fst bd) -> In k (field_names cls)) /\
    (forall k, In k (map fst changes) -> In k (field_names cls)) /\
    (forall k v, dict_get changes k = Some v -> dict_get rd k = Some v) /\
    (forall k x, dict_get changes k = None -> dict_get bd k = Some x ->
                 dict_get rd k = Some x).
Proof.
  destruct obj as [| | | | | | |cls bd|]; try discriminate.
  rewrite replace_unfold. intros H.
  apply new_inv in H as (rd & -> & Hk & Hkeys & Hset & _).
  exists cls, bd, rd. split; [reflexivity|]. split; [reflexivity|].
  split; [assumption|].
  assert (Hin : forall k, dict_get bd k <> None \/ dict_get changes k <> None ->
                          In k (field_names cls)).
  { intros k Hk'. apply Hkeys, dict_get_key. rewrite merged_get.
    destruct (dict_get bd k); [discriminate | tauto]. }
  split; [intros k Hb%dict_get_key; auto|].
  split; [intros k Hc%dict_get_key; auto|]. split.
  - intros k v Hc. apply Hset. rewrite merged_get. unfold changed. rewrite Hc.
    now destruct (dict_get bd k).
  - intros k x Hc Hb. apply Hset. rewrite merged_get, Hb. unfold changed.
    now rewrite Hc.
Qed.

Lemma replace_OK (cls : pclass) (bd changes : list (string * value)) :
  map fst bd = field_names cls ->
  (forall k, In k (map fst changes) -> In k (field_names cls)) ->
  exists rd, dataclasses.replace (VProps cls bd) changes = OK (VProps cls rd).
Proof.
  intros Hb Hc. rewrite replace_unfold. apply new_OK.
  - intros k Hk%dict_get_key. rewrite merged_get in Hk.
    destruct (dict_get bd k) eqn:E.
    + rewrite <- Hb. apply dict_get_key. congruence.
    + apply Hc, dict_get_key. assumption.
  - intros f Hf. left. rewrite merged_get.
    assert (Hin : In (fst f) (map fst bd)) by (rewrite Hb; now apply in_map).
    apply dict_get_key in Hin. destruct (dict_get bd (fst f)); congruence.
Qed.

Section Replace.

Variable D : pclass -> value.

(** One entry of [replacements]. *)
Definition replacement (depth : nat) (defaults : value) (kv : string * value)
  : result (string * value) :=
  if is_properties (snd kv) then
    (d <- dict_of defaults ;;
     dk <- getitem d (fst kv) ;;
     r <- create_properties_with D (_replace_properties D depth) (snd kv) dk ;;
     OK (fst kv, r))%res
  else OK kv.

Lemma _replace_properties_unfold (depth : nat) (properties defaults : value) :
  _replace_properties D (S depth) properties defaults
  = (kw <- kwargs properties ;;
     replacements <- map_result (replacement depth defaults) kw ;;
     dataclasses.replace defaults replacements)%res.
Proof. reflexivity. Qed.

(** What [_replace_properties] returns, field by field. *)
Lemma _replace_properties_inv (depth : nat) (properties defaults r : value) :
  _replace_properties D depth properties defaults = OK r ->
  exists depth' cls pd dcls dd rd,
    depth = S depth' /\
    properties = VProps cls pd /\ defaults = VProps dcls dd /\ r = VProps dcls rd /\
    map fst rd = field_names dcls /\
    (forall k, In k (map fst dd) -> In k (field_names dcls)) /\
    forall k,
      match dict_get (filter (fun kv => negb (is_EMPTY (snd kv))) pd) k with
      | Some v =>
          In k (field_names dcls) /\
          if is_properties v then
            exists dk r',
              dict_get dd k = Some dk /\
              create_properties_with D (_replace_properties D depth') v dk = OK r' /\
              dict_get rd k = Some r'
          else dict_get rd k = Some v
      | None => forall x, dict_get dd k = Some x -> dict_get rd k = Some x
      end.
Proof.
  destruct depth as [|depth']; [discriminate|].
  rewrite _replace_properties_unfold. intros H.
  apply rbind_inv in H as (kw & Hkw & H).
  apply rbind_inv in H as (reps & Hreps & H).
  destruct properties as [| | | | | | |cls pd|]; try discriminate.
  injection Hkw as <-.
  apply replace_inv in H as (dcls & dd & rd & -> & -> & Hk & Hdk & Hck & Hset & Hkeep).
  exists depth', cls, pd, dcls, dd, rd. repeat (split; [first [reflexivity | assumption]|]).
  apply map_result_Forall2 in Hreps.
  assert (HF : Forall2
    (fun (a y : string * value) =>
       fst y = fst a /\
       (fun k v w =>
          if is_properties v then
            exists dk,
              dict_get dd k = Some dk /\
              create_properties_with D (_replace_properties D depth') v dk = OK w
          else w = v) (fst a) (snd a) (snd y))
    (filter (fun kv => negb (is_EMPTY (snd kv))) pd) reps).
  { eapply Forall2_impl; [|exact Hreps]. intros [k v] [k' w]. unfold replacement. cbn.
    destruct (is_properties v).
    - intros H. unfold getitem in H.
      destruct (dict_get dd k) as [dk|]; cbn in H; [|discriminate].
      apply rbind_inv in H as (r' & Hr' & [= <- <-]). eauto.
    - intros [= <- <-]. auto. }
  apply Forall2_dict_get in HF as [Hkeys Hg].
  intros k. specialize (Hg k).
  destruct (dict_get (filter _ pd) k) as [v|] eqn:Hv.
  - destruct Hg as (w & Hw & HQ). split.
    + apply Hck, dict_get_key. congruence.
    + destruct (is_properties v).
      * destruct HQ as (dk & Hdk' & HC). exists dk, w. auto.
      * subst w. auto.
  - intros x Hx. auto.
Qed.

Lemma create_properties_with_inv
  (rp : value -> value -> result value) (properties defaults r : value) :
  create_properties_with D rp properties defaults = OK r ->
  exists cls pd full,
    properties = VProps cls pd /\
    (if is_None defaults then full = D cls else rp defaults (D cls) = OK full) /\
    rp properties full = OK r.
Proof.
  unfold create_properties_with. intros H.
  apply rbind_inv in H as (full0 & H0 & H).
  apply rbind_inv in H as (full & H1 & H).
  destruct properties as [| | | | | | |cls pd|]; try discriminate.
  injection H0 as <-. exists cls, pd, full. split; [reflexivity|]. split; [|assumption].
  destruct (is_None defaults); cbn in H1; [congruence | assumption].
Qed.

(** More depth does not change a result. *)
Lemma _replace_properties_mono (depth : nat) : forall properties defaults r,
  _replace_properties D depth properties defaults = OK r ->
  _replace_properties D (S depth) properties defaults = OK r.
Proof.
  induction depth as [|depth IH]; intros properties defaults r; [discriminate|].
  rewrite !_replace_properties_unfold. intros H.
  apply rbind_inv in H as (kw & Hkw & H). rewrite Hkw. cbn [rbind].
  apply rbind_inv in H as (reps & Hreps & H).
  replace (map_result (replacement (S depth) defaults) kw) with (OK reps); [assumption|].
  symmetry. apply map_result_Forall2. apply map_result_Forall2 in Hreps.
  eapply Forall2_impl; [|exact Hreps]. intros kv y. unfold replacement.
  destruct (is_properties (snd kv)); [|auto].
  intros Hy. apply rbind_inv in Hy as (d & Hd & Hy). rewrite Hd. cbn [rbind].
  apply rbind_inv in Hy as (dk & Hdk & Hy). rewrite Hdk. cbn [rbind].
  apply rbind_inv in Hy as (r' & Hr' & Hy).
  replace (create_properties_with D (_replace_properties D (S depth)) (snd kv) dk)
    with (OK r'); [assumption|].
  symmetry. unfold create_properties_with in *.
  apply rbind_inv in Hr' as (f0 & Hf0 & Hr'). rewrite Hf0. cbn [rbind].
  apply rbind_inv in Hr' as (f1 & Hf1 & Hr').
  destruct (negb (is_None dk)).
  - rewrite (IH _ _ _ Hf1). cbn [rbind]. auto.
  - rewrite Hf1. cbn [rbind]. auto.
Qed.

Lemma _replace_properties_mono_le (depth depth' : nat) properties defaults r :
  depth <= depth' ->
  _replace_properties D depth properties defaults = OK r ->
  _replace_properties D depth' properties defaults = OK r.
Proof.
  induction 1 as [|m Hle IH]; [auto|]. intros Hr.
  now apply _replace_properties_mono, IH.
Qed.

Lemma create_properties_with_mono (depth depth' : nat) properties defaults r :
  depth <= depth' ->
  create_properties_with D (_replace_properties D depth) properties defaults = OK r ->
  create_properties_with D (_replace_properties D depth') properties defaults = OK r.
Proof.
  intros Hle. unfold create_properties_with. intros H.
  apply rbind_inv in H as (f0 & Hf0 & H). rewrite Hf0. cbn [rbind].
  apply rbind_inv in H as (f1 & Hf1 & H).
  destruct (negb (is_None defaults)).
  - rewrite (_replace_properties_mono_le _ _ _ _ _ Hle Hf1). cbn [rbind].
    eauto using _replace_properties_mono_le.
  - rewrite Hf1. cbn [rbind]. eauto using _replace_properties_mono_le.
Qed.

End Replace.

End replace_facts.

Section CreateFacts.

Context {collaborators : Collaborators}.
Variable import_rng : rng.

Local Open Scope string_scope.

(** C9. [create] returns its first argument unchanged, whatever the
    defaults, when the argument is not an instance of a [Properties] class:
    no registered implementation applies, and the generic one returns the
    argument. Nothing is drawn from the random source. *)
Theorem create_not_properties (x defaults : value) (g : rng)
  (Hx : is_properties x = false) :
  create import_rng x defaults g = OK (x, g).
Proof. destruct x; try discriminate; reflexivity. Qed.

End CreateFacts.

Lemma create_not_properties_witness :
  create sample_rng
    (VObj CanonicalIdentifier [("chain_identifier", VInt 337)]%string)
    (VInt 3) sample_rng
  = OK (VObj CanonicalIdentifier [("chain_identifier", VInt 337)]%string, sample_rng).
Proof.
  apply (create_not_properties sample_rng
           (VObj CanonicalIdentifier [("chain_identifier", VInt 337)]%string)
           (VInt 3) sample_rng).
  reflexivity.
Defined.

Section ChannelFacts.

Context {collaborators : Collaborators}.
Variable import_rng : rng.

Local Open Scope string_scope.

Lemma make_channel_state_defaults (g : rng) :
  exists our partner token_address network canonical_identifier g',
    make_channel_state EMPTY EMPTY EMPTY EMPTY EMPTY EMPTY EMPTY EMPTY EMPTY EMPTY g
    = OK (construct NettingChannelState
            [("canonical_identifier", canonical_identifier);
             ("token_address", token_address);
             ("payment_network_identifier", network);
             ("reveal_timeout", VInt UNIT_REVEAL_TIMEOUT);
             ("settle_timeout", VInt UNIT_SETTLE_TIMEOUT);
             ("mediation_fee", VInt 0);
             ("our_state", NettingChannelEndState_init our (VInt 0));
             ("partner_state", NettingChannelEndState_init partner (VInt 0));
             ("open_transaction",
              construct TransactionExecutionStatus
                [("started_block_number", VNone);
                 ("finished_block_number", VInt 10);
                 ("result", VStr SUCCESS)]);
             ("close_transaction", VNone);
             ("settle_transaction", VNone)], g').
Proof.
  destruct (make_address_total g) as (a1 & g1 & E1).
  destruct (make_address_total g1) as (a2 & g2 & E2).
  destruct (make_address_total g2) as (a3 & g3 & E3).
  destruct (make_address_total g3) as (a4 & g4 & E4).
  destruct (make_address_total g4) as (a5 & g5 & E5).
  destruct (make_uint256_total g5) as (n6 & g6 & E6).
  destruct (make_channel_endstate_total (VBytes a1) (VInt 0) g6) as (a7 & g7 & E7).
  destruct (make_channel_endstate_total (VBytes a2) (VInt 0) g7) as (a8 & g8 & E8).
  destruct (make_canonical_identifier_total (VInt UNIT_CHAIN_ID) (VBytes a5) (VInt n6) g8)
    as (cid & g9 & E9).
  eexists (VBytes a1), (VBytes a2), (VBytes a3), (VBytes a4), _, g9.
  unfold make_channel_state, make_payment_network_identifier, make_channel_identifier.
  rewrite (bind_OK _ E1); cbv beta zeta.
  rewrite (bind_OK _ E2); cbv beta zeta.
  rewrite (bind_OK _ E3); cbv beta zeta.
  rewrite (bind_OK _ E4); cbv beta zeta.
  rewrite (bind_OK _ E5); cbv beta zeta.
  rewrite (bind_OK _ E6); cbv beta zeta.
  cbn [if_empty is_EMPTY].
  rewrite (bind_OK _ E7); cbv beta zeta.
  rewrite (bind_OK _ E8); cbv beta zeta.
  rewrite (bind_OK _ E9); cbv beta zeta.
  reflexivity.
Qed.

Lemma create_endstate_defaults (depth : nat) (g : rng) :
  exists address g',
    create_rec import_rng (S (S depth)) NettingChannelEndStateProperties_DEFAULTS VNone g
    = OK (NettingChannelEndState_init (VBytes address) (VInt 100), g').
Proof.
  destruct (make_address_total g) as (address & g' & E).
  exists address, g'.
  transitivity
    (bind make_address
       (fun a => ret (NettingChannelEndState_init a (VInt 100))) g).
  - reflexivity.
  - now rewrite (bind_OK _ E).
Qed.

(** The state that [create] builds from the defaults of
    [NettingChannelStateProperties]. *)
Definition default_channel (canonical_identifier our partner : value) : value :=
  construct NettingChannelState
    [("canonical_identifier", canonical_identifier);
     ("token_address", UNIT_TOKEN_ADDRESS);
     ("payment_network_identifier", UNIT_PAYMENT_NETWORK_IDENTIFIER);
     ("reveal_timeout", VInt UNIT_REVEAL_TIMEOUT);
     ("settle_timeout", VInt UNIT_SETTLE_TIMEOUT);
     ("mediation_fee", VInt 0);
     ("our_state", our);
     ("partner_state", partner);
     ("open_transaction",
      construct TransactionExecutionStatus
        [("started_block_number", VNone);
         ("finished_block_number", VNone);
         ("result", VStr SUCCESS)]);
     ("close_transaction", VNone);
     ("settle_transaction", VNone)].

Lemma create_rec_plain (depth : nat) (x defaults : value) (g : rng) :
  is_properties x = false ->
  create_rec import_rng (S depth) x defaults g = OK (x, g).
Proof. intros Hx. destruct x; try discriminate; reflexivity. Qed.

Lemma mapM_cons {A B} (f : A -> M B) (a : A) (l : list A) (y : B) (ys : list B)
  (g g1 g2 : rng) :
  f a g = OK (y, g1) ->
  mapM f l g1 = OK (ys, g2) ->
  mapM f (a :: l) g = OK (y :: ys, g2).
Proof.
  intros E1 E2. cbn [mapM]. rewrite (bind_OK _ E1), (bind_OK _ E2). reflexivity.
Qed.

Lemma field_OK (create : value -> value -> M value) (kv : string * value)
  (v' : value) (g g' : rng) :
  create (snd kv) VNone g = OK (v', g') ->
  bind (create (snd kv) VNone) (fun x => ret (fst kv, x)) g = OK ((fst kv, v'), g').
Proof. intros E. now rewrite (bind_OK _ E). Qed.

Lemma _properties_to_kwargs_eq (create : value -> value -> M value)
  (cls : pclass) (pd : list (string * value)) (defaults merged : value)
  (dict : list (string * value)) (g : rng) :
  create_properties (DEFAULTS import_rng) (VProps cls pd)
    (or_default defaults (DEFAULTS import_rng cls)) = OK merged ->
  dict_of merged = OK dict ->
  _properties_to_kwargs import_rng create (VProps cls pd) defaults g
  = mapM (fun kv => bind (create (snd kv) VNone) (fun v => ret (fst kv, v))) dict g.
Proof.
  intros H1 H2. unfold _properties_to_kwargs, bind at 1 2 3, lift.
  cbn [DEFAULTS_of]. now rewrite H1, H2.
Qed.

Lemma create_transaction_defaults (depth : nat) (g : rng) :
  create_rec import_rng (S (S depth)) TransactionExecutionStatusProperties_DEFAULTS VNone g
  = OK (construct TransactionExecutionStatus
          [("started_block_number", VNone);
           ("finished_block_number", VNone);
           ("result", VStr SUCCESS)], g).
Proof. reflexivity. Qed.

Lemma NettingChannelStateProperties_DEFAULTS_eq :
  exists channel_identifier,
    DEFAULTS import_rng NettingChannelStateProperties
    = VProps NettingChannelStateProperties
        [("canonical_identifier",
          VObj CanonicalIdentifier
            [("chain_identifier", VInt UNIT_CHAIN_ID);
             ("token_network_address", UNIT_TOKEN_NETWORK_ADDRESS);
             ("channel_identifier", VInt channel_identifier)]);
         ("token_address", UNIT_TOKEN_ADDRESS);
         ("payment_network_identifier", UNIT_PAYMENT_NETWORK_IDENTIFIER);
         ("reveal_timeout", VInt UNIT_REVEAL_TIMEOUT);
         ("settle_timeout", VInt UNIT_SETTLE_TIMEOUT);
         ("mediation_fee", VInt 0);
         ("our_state", NettingChannelEndStateProperties_DEFAULTS);
         ("partner_state", NettingChannelEndStateProperties_DEFAULTS);
         ("open_transaction", TransactionExecutionStatusProperties_DEFAULTS);
         ("close_transaction", VNone);
         ("settle_transaction", VNone)].
Proof. eexists. reflexivity. Qed.

Lemma create_unfold (properties defaults : value) :
  create import_rng properties defaults
  = create_rec import_rng (S 999) properties defaults.
Proof. reflexivity. Qed.

Lemma create_rec_channel (depth : nat) (pd : list (string * value)) (defaults : value) :
  create_rec import_rng (S depth) (VProps NettingChannelStateProperties pd) defaults
  = create_generic import_rng (create_rec import_rng depth)
      (VProps NettingChannelStateProperties pd) defaults.
Proof. reflexivity. Qed.

Lemma create_channel_from_defaults (properties : value) (g : rng) :
  properties = DEFAULTS import_rng NettingChannelStateProperties \/
  new NettingChannelStateProperties [] = OK properties ->
  exists canonical_identifier our partner g',
    create import_rng properties VNone g
    = OK (default_channel canonical_identifier
            (NettingChannelEndState_init (VBytes our) (VInt 100))
            (NettingChannelEndState_init (VBytes partner) (VInt 100)), g').
Proof.
  intros Hp.
  destruct NettingChannelStateProperties_DEFAULTS_eq as (cid & HD).
  destruct (create_endstate_defaults 997 g) as (a1 & g1 & E1).
  destruct (create_endstate_defaults 997 g1) as (a2 & g2 & E2).
  eexists _, a1, a2, g2.
  assert (Hkw : exists pd,
    properties = VProps NettingChannelStateProperties pd /\
    create_properties (DEFAULTS import_rng) (VProps NettingChannelStateProperties pd)
      (or_default VNone (DEFAULTS import_rng NettingChannelStateProperties))
    = OK (DEFAULTS import_rng NettingChannelStateProperties)).
  { destruct Hp as [->|[= <-]]; eexists; split.
    - exact HD.
    - rewrite <- HD. reflexivity.
    - reflexivity.
    - reflexivity. }
  destruct Hkw as (pd & -> & Hkw).
  rewrite create_unfold, create_rec_channel. unfold create_generic.
  erewrite (bind_OK _); [reflexivity|].
  erewrite _properties_to_kwargs_eq; [|exact Hkw|rewrite HD; reflexivity].
  repeat (eapply mapM_cons;
          [apply field_OK;
           first [ exact E1 | exact E2
                 | apply (create_transaction_defaults 997)
                 | apply create_rec_plain; reflexivity ] |]).
  reflexivity.
Qed.

End ChannelFacts.

(** C5 as stated fails for the channel that [create] builds from
    [NettingChannelStateProperties.DEFAULTS]: its [open_transaction] has
    the result [SUCCESS] but no [finished_block_number]. *)
Lemma create_defaults_open_transaction_not_finished :
  exists state g' status,
    create sample_rng (DEFAULTS sample_rng NettingChannelStateProperties) VNone sample_rng
    = OK (state, g') /\
    getattr state "open_transaction"%string = OK status /\
    getattr status "finished_block_number"%string = OK VNone /\
    ~ finished_successfully status.
Proof.
  destruct (create_channel_from_defaults sample_rng
              (DEFAULTS sample_rng NettingChannelStateProperties) sample_rng
              (or_introl eq_refl)) as (c & a1 & a2 & g' & E).
  eexists _, g', _. split; [exact E|]. split; [reflexivity|]. split; [reflexivity|].
  intros [(finished & Hf & Hne) _]. cbn in Hf. congruence.
Qed.

(** C5 (amended). The channel state that [make_channel_state] builds when
    every argument is left [EMPTY], and the one that [create] builds from
    [NettingChannelStateProperties.DEFAULTS] (or from properties that leave
    every field [EMPTY]), is an open channel: [close_transaction] and
    [settle_transaction] are [None], and [reveal_timeout] is 5, strictly
    less than [settle_timeout], 50. The [open_transaction] of
    [make_channel_state] is finished (in block 10) with success; the one of
    [create] has the result [SUCCESS] and a [finished_block_number] of
    [None]. *)
Theorem default_channel_states_are_open
  {collaborators : Collaborators} (import_rng g : rng) :
  (exists state g' status,
      make_channel_state EMPTY EMPTY EMPTY EMPTY EMPTY EMPTY EMPTY EMPTY EMPTY EMPTY g
      = OK (state, g') /\
      open_channel state 5 50 /\
      getattr state "open_transaction"%string = OK status /\
      finished_successfully status) /\
  (exists state g' status,
      create import_rng (DEFAULTS import_rng NettingChannelStateProperties) VNone g
      = OK (state, g') /\
      open_channel state 5 50 /\
      getattr state "open_transaction"%string = OK status /\
      getattr status "result"%string = OK (VStr SUCCESS) /\
      getattr status "finished_block_number"%string = OK VNone) /\
  (exists blank state g' status,
      new NettingChannelStateProperties [] = OK blank /\
      create import_rng blank VNone g = OK (state, g') /\
      open_channel state 5 50 /\
      getattr state "open_transaction"%string = OK status /\
      getattr status "result"%string = OK (VStr SUCCESS) /\
      getattr status "finished_block_number"%string = OK VNone).
Proof.
  split; [|split].
  - destruct (make_channel_state_defaults g)
      as (our & partner & token & network & cid & g' & E).
    eexists _, g', _. split; [exact E|].
    split; [repeat split; reflexivity|]. split; [reflexivity|].
    split; [|reflexivity]. exists (VInt 10). split; [reflexivity | discriminate].
  - destruct (create_channel_from_defaults import_rng
                (DEFAULTS import_rng NettingChannelStateProperties) g
                (or_introl eq_refl)) as (c & a1 & a2 & g' & E).
    eexists _, g', _. split; [exact E|].
    split; [repeat split; reflexivity|]. repeat split; reflexivity.
  - destruct (new NettingChannelStateProperties []) as [blank|] eqn:Hb;
      [|discriminate].
    destruct (create_channel_from_defaults import_rng blank g (or_intror Hb))
      as (c & a1 & a2 & g' & E).
    eexists blank, _, g', _. split; [reflexivity|]. split; [exact E|].
    split; [repeat split; reflexivity|]. repeat split; reflexivity.
Qed.

Section TransferFacts.

Context {collaborators : Collaborators}.
Variable import_rng : rng.

Local Open Scope string_scope.

Lemma make_32bytes_total (g : rng) :
  exists bs g', make_secret EMPTY g = OK (VBytes bs, g').
Proof. apply random_printable_total. Qed.

Lemma make_message_identifier_total (g : rng) :
  exists n g', make_message_identifier g = OK (VInt n, g').
Proof.
  unfold make_message_identifier.
  destruct (random_facts.randint_total 0 UINT64_MAX g) as (n & g' & E).
  rewrite (bind_OK _ E). unfold ret. eauto.
Qed.

Lemma py_ge_inv (x y : value) (c : bool) :
  py_ge x y = OK c -> exists a l, x = VInt a /\ y = VInt l /\ c = (a >=? l)%Z.
Proof. destruct x, y; cbn; try discriminate. intros [= <-]. eauto. Qed.

Lemma py_lt_inv (x y : value) (c : bool) :
  py_lt x y = OK c -> exists a l, x = VInt a /\ y = VInt l /\ c = (a <? l)%Z.
Proof. destruct x, y; cbn; try discriminate. intros [= <-]. eauto. Qed.

End TransferFacts.

(** C10. [make_signed_transfer] takes [locked_amount] from [amount] when
    it is left [EMPTY], fails its assertion when [locked_amount] is less
    than [amount], and every transfer that it returns has
    [locked_amount >= amount]; when [locksroot] is left [EMPTY] (which
    stands for [EMPTY_MERKLE_ROOT]) or is [EMPTY_MERKLE_ROOT], the
    [locksroot] of the returned transfer is [sha3] of the encoding of its
    one lock. *)
Theorem make_signed_transfer_locked_amount
  {collaborators : Collaborators} (kwargs : list (string * value)) (g : rng) :
  let amount := if_empty (argument kwargs "amount") (VInt UNIT_TRANSFER_AMOUNT) in
  let locked_amount := if_empty (argument kwargs "locked_amount") amount in
  let locksroot := if_empty (argument kwargs "locksroot") (VBytes EMPTY_MERKLE_ROOT) in
  let pkey := if_empty (argument kwargs "pkey") UNIT_TRANSFER_PKEY in
  (argument kwargs "locked_amount" = EMPTY -> locked_amount = amount) /\
  (forall a l signer,
      forallb (fun kv => string_mem (fst kv) make_signed_transfer_parameters) kwargs = true ->
      as_bytes pkey = OK signer ->
      amount = VInt a -> locked_amount = VInt l -> (l < a)%Z ->
      make_signed_transfer kwargs g = Raise AssertionError) /\
  (forall transfer g',
      make_signed_transfer kwargs g = OK (transfer, g') ->
      (exists a l, amount = VInt a /\ locked_amount = VInt l /\ (l >= a)%Z) /\
      getattr transfer "locked_amount" = OK locked_amount /\
      (locksroot = VBytes EMPTY_MERKLE_ROOT ->
       exists lock encoded,
         getattr transfer "lock" = OK lock /\
         Lock_as_bytes lock = OK encoded /\
         getattr transfer "locksroot" = OK (VBytes (sha3 encoded)))).
Proof.
  intros amount locked_amount locksroot pkey. split; [|split].
  - intros He. unfold locked_amount. now rewrite He.
  - intros a l signer Hnames Hpkey Ha Hl Hlt.
    unfold make_signed_transfer. rewrite Hnames. cbn [negb].
    destruct (make_address_total g) as (b1 & g1 & E1).
    destruct (make_address_total g1) as (b2 & g2 & E2).
    destruct (make_32bytes_total g2) as (b3 & g3 & E3).
    destruct (make_message_identifier_total g3) as (n4 & g4 & E4).
    rewrite (bind_OK _ E1); cbv beta zeta.
    rewrite (bind_OK _ E2); cbv beta zeta.
    rewrite (bind_OK _ E3); cbv beta zeta.
    rewrite (bind_OK _ E4); cbv beta zeta.
    fold amount. fold locked_amount. fold pkey.
    rewrite (bind_OK _ (lift_OK _ g4 _ Hpkey)); cbv beta zeta.
    rewrite Ha, Hl. cbn [py_ge lift].
    replace (l >=? a)%Z with false by (symmetry; rewrite Z.geb_leb; apply Z.leb_gt; lia).
    reflexivity.
  - intros transfer g' H. unfold make_signed_transfer in H.
    destruct (negb _) in H; [discriminate|].
    fold amount in H. fold locked_amount in H. fold locksroot in H. fold pkey in H.
    invert_run H.
    match goal with
    | Hge : py_ge _ _ = OK ?c, Hc : ?c = true |- _ =>
        apply py_ge_inv in Hge as (zl & za & Hl & Ha & Hge);
        rewrite Hge in Hc; apply Z.geb_le in Hc
    end.
    split; [exists za, zl; repeat split; auto; lia|].
    unfold ret in H. injection H as <- <-.
    match goal with
    | Hs : sign_message _ _ = OK _ |- _ =>
        unfold sign_message, construct in Hs; injection Hs as <-
    end.
    split; [reflexivity|]. intros Hroot.
    match goal with
    | Hr : (if value_eqb locksroot _ then _ else _) _ = OK _ |- _ =>
        rewrite Hroot, (proj2 (value_eqb_VBytes _ _) eq_refl) in Hr;
        invert_run Hr; unfold ret in Hr; injection Hr as <- <-
    end.
    eexists _, _. split; [reflexivity|]. split; [eassumption|]. reflexivity.
Qed.

Lemma make_signed_transfer_locked_amount_witness :
  exists transfer g' lock encoded,
    @make_signed_transfer sample_collaborators [] sample_rng = OK (transfer, g') /\
    getattr transfer "locked_amount"%string = OK (VInt UNIT_TRANSFER_AMOUNT) /\
    getattr transfer "lock"%string = OK lock /\
    @Lock_as_bytes sample_collaborators lock = OK encoded /\
    getattr transfer "locksroot"%string = OK (VBytes (@sha3 sample_collaborators encoded)).
Proof.
  destruct (@make_signed_transfer sample_collaborators [] sample_rng)
    as [[transfer g']|e] eqn:E; [|vm_compute in E; discriminate].
  destruct (@make_signed_transfer_locked_amount sample_collaborators [] sample_rng)
    as (_ & _ & H).
  destruct (H transfer g' E) as (_ & Hlocked & Hroot).
  destruct (Hroot eq_refl) as (lock & encoded & Hlock & Henc & Hr).
  exists transfer, g', lock, encoded. repeat split; assumption.
Defined.

Section TransferForFacts.

Context {collaborators : Collaborators}.
Variable import_rng : rng.

Local Open Scope string_scope.
Import dict_facts replace_facts.

Lemma _partial_dict_get (d kw : list (string * value)) (names : list string) :
  _partial_dict d names = OK kw ->
  forall k, In k names ->
    exists v, dict_get d k = Some v /\ dict_get kw k = Some v.
Proof.
  unfold _partial_dict. revert kw.
  induction names as [|n names IH]; intros kw H k Hk; [destruct Hk|].
  cbn in H. apply rbind_inv in H as ([n' v] & Hn & H).
  apply rbind_inv in H as (kw' & Hkw' & [= <-]).
  unfold getitem in Hn. destruct (dict_get d n) as [x|] eqn:Hx; [|discriminate].
  cbn in Hn. injection Hn as <- <-. cbn.
  destruct (String.eqb_spec n k) as [->|Hne]; [eauto|].
  destruct Hk as [Hk|Hk]; [contradiction|]. eauto.
Qed.

Lemma dataclasses_fields_inv (cls : pclass) (names : list string) :
  dataclasses.fields cls = OK names -> names = field_names cls /\ cls <> Properties.
Proof.
  destruct cls; try discriminate; intros [= <-]; (split; [reflexivity | discriminate]).
Qed.

Lemma dataclasses_fields_OK (cls : pclass) :
  cls <> Properties -> dataclasses.fields cls = OK (field_names cls).
Proof. destruct cls; [congruence | reflexivity ..]. Qed.

Lemma extract_getattr (self tr : value) (cls : pclass) (k : string) :
  extract self cls = OK tr ->
  In k (field_names cls) ->
  exists v, getattr self k = OK v /\ getattr tr k = OK v.
Proof.
  unfold extract. intros H Hk.
  apply rbind_inv in H as (names & [-> _]%dataclasses_fields_inv & H).
  apply rbind_inv in H as (d & Hd & H).
  apply rbind_inv in H as (kw & Hkw & H).
  destruct (_partial_dict_get _ _ _ Hkw k Hk) as (v & Hv & Hv').
  apply new_inv in H as (trd & -> & _ & _ & Hset & _).
  exists v. split.
  - destruct self; try discriminate; injection Hd as <-; cbn; now rewrite Hv.
  - cbn. now rewrite (Hset _ _ Hv').
Qed.

Fixpoint distinct (l : list string) : bool :=
  match l with
  | [] => true
  | k :: l' => negb (string_mem k l') && distinct l'
  end.

Lemma distinct_NoDup (l : list string) : distinct l = true -> NoDup l.
Proof.
  induction l as [|k l IH]; cbn; [constructor|].
  intros [Hk Hl]%andb_prop. constructor; [|auto].
  intros Hin%string_mem_In. now rewrite Hin in Hk.
Qed.

Lemma field_names_NoDup (cls : pclass) : NoDup (field_names cls).
Proof. apply distinct_NoDup. now destruct cls. Qed.

(** A field that the properties leave [EMPTY] comes from the defaults,
    and a field of the defaults that is set with a plain value stays. *)
Lemma create_properties_field_from_defaults
  (properties defaults r : value) (k : string) (v : value) :
  create_properties (DEFAULTS import_rng) properties defaults = OK r ->
  (exists cls pd, properties = VProps cls pd /\
                  map fst pd = field_names cls /\ dict_get pd k = Some EMPTY) ->
  getattr defaults k = OK v -> is_EMPTY v = false -> is_properties v = false ->
  is_properties defaults = true ->
  getattr r k = OK v.
Proof.
  intros H (cls & pd & -> & Hkeys & Hk) Hv Hne Hnp Hd.
  apply create_properties_with_inv in H as (cls' & pd' & full & [= <- <-] & Hfull & H).
  destruct defaults as [| | | | | | |dc dd|]; try discriminate. cbn [is_None] in Hfull.
  apply _replace_properties_inv in Hfull
    as (n1 & c1 & p1 & dcls & dd' & fd & _ & [= <- <-] & _ & -> & _ & _ & Hf).
  apply _replace_properties_inv in H
    as (n2 & c2 & p2 & dcls2 & fd2 & rd & _ & [= <- <-] & [= <- <-] & -> & _ & _ & Hr).
  cbn in Hv. destruct (dict_get dd k) as [x|] eqn:Hx; [|discriminate].
  injection Hv as ->.
  specialize (Hf k). specialize (Hr k).
  rewrite (dict_get_filter_Some _ _ _ _ Hx) in Hf by (cbn; now rewrite Hne).
  rewrite Hnp in Hf. destruct Hf as [_ Hf].
  rewrite (dict_get_filter_dropped _ _ _ _ (eq_ind_r _ (field_names_NoDup cls) Hkeys) Hk)
    in Hr by reflexivity.
  cbn. now rewrite (Hr _ Hf).
Qed.

Lemma create_rec_signed (depth : nat) (pd : list (string * value)) (defaults : value) :
  create_rec import_rng (S depth) (VProps LockedTransferSignedStateProperties pd) defaults
  = create_LockedTransferSignedState import_rng
      (VProps LockedTransferSignedStateProperties pd) defaults.
Proof. reflexivity. Qed.

(** The lock of the transfer state that [create] builds for
    [LockedTransferSignedStateProperties] expires where the merged
    properties say. *)
Lemma create_signed_lock_expiration
  (pd : list (string * value)) (defaults t : value) (g g' : rng) :
  create import_rng (VProps LockedTransferSignedStateProperties pd) defaults g
  = OK (t, g') ->
  exists merged expiration lock,
    create_properties (DEFAULTS import_rng)
      (VProps LockedTransferSignedStateProperties pd) defaults = OK merged /\
    getattr merged "expiration" = OK expiration /\
    getattr t "lock" = OK lock /\
    getattr lock "expiration" = OK expiration.
Proof.
  rewrite create_unfold, create_rec_signed. unfold create_LockedTransferSignedState.
  intros H. apply lift_inv in H as [H _].
  apply rbind_inv in H as (merged & Hm & H).
  apply rbind_inv in H as (params & Hparams & H).
  apply rbind_inv in H as (amount & Hamount & H).
  apply rbind_inv in H as (expiration & Hexp & H).
  exists merged, expiration.
  invert_run H.
  destruct (value_eqb _ _) in H; [|discriminate].
  match goal with
  | Hs : sign_message _ _ = OK ?m |- _ =>
      unfold sign_message, construct in Hs; injection Hs as <-
  end.
  unfold lockedtransfersigned_from_message in H. invert_run H.
  injection H as <-.
  match goal with
  | Hl : getattr _ "lock" = OK ?l |- _ => dict_compute_in Hl; injection Hl as <-
  end.
  repeat match goal with
  | Hl : getattr (VObj Lock _) _ = OK _ |- _ =>
      dict_compute_in Hl; injection Hl as <-
  end.
  eexists. split; [assumption|]. split; [assumption|]. split; reflexivity.
Qed.

Lemma new_default (cls : pclass) (kw d : list (string * value)) (k : string) :
  new cls kw = OK (VProps cls d) ->
  dict_get kw k = None -> In k (field_names cls) ->
  exists v, dict_get d k = Some v /\ dict_get (fields cls) k = Some (Some v).
Proof.
  intros H Hk Hin. apply new_inv in H as (d' & [= <-] & Hkeys & _ & _ & Hdef).
  rewrite <- Hkeys in Hin. apply dict_get_key in Hin.
  destruct (dict_get d k) as [v|] eqn:Hv; [|congruence]. eauto.
Qed.

Lemma create_properties_is_properties (properties defaults r : value) :
  create_properties (DEFAULTS import_rng) properties defaults = OK r ->
  is_properties r = true.
Proof.
  intros H. apply create_properties_with_inv in H as (cls & pd & full & _ & _ & H).
  apply _replace_properties_inv in H
    as (n & c & p & dcls & dd & rd & _ & _ & _ & -> & _).
  reflexivity.
Qed.

(** The check of the expiration in [make_signed_transfer_for]. *)
Definition expiration_check (requested channel_state : value) : M unit :=
  (transfer <- lift (extract requested LockedTransferProperties) ;;
   expiration <- lift (getattr transfer "expiration") ;;
   reveal_timeout <- lift (getattr channel_state "reveal_timeout") ;;
   above <- lift (py_lt reveal_timeout expiration) ;;
   valid <- (if above
             then (settle_timeout <- lift (getattr channel_state "settle_timeout") ;;
                   lift (py_lt expiration settle_timeout))
             else ret false) ;;
   assert valid)%rand.

Lemma expiration_check_fails (requested channel_state transfer : value) (e r s : Z)
  (g : rng) :
  extract requested LockedTransferProperties = OK transfer ->
  getattr transfer "expiration" = OK (VInt e) ->
  getattr channel_state "reveal_timeout" = OK (VInt r) ->
  getattr channel_state "settle_timeout" = OK (VInt s) ->
  ~ (r < e < s)%Z ->
  expiration_check requested channel_state g = Raise AssertionError.
Proof.
  intros Htr He Hr Hs Hnot. unfold expiration_check.
  rewrite (bind_OK _ (lift_OK _ g _ Htr)); cbv beta.
  rewrite (bind_OK _ (lift_OK _ g _ He)); cbv beta.
  rewrite (bind_OK _ (lift_OK _ g _ Hr)); cbv beta.
  rewrite (bind_OK _ (lift_OK _ g _ (eq_refl : py_lt (VInt r) (VInt e) = OK (r <? e)%Z)));
    cbv beta.
  destruct (Z.ltb_spec r e) as [Hre|Hre].
  - rewrite (bind_OK (g' := g) (a := (e <? s)%Z)).
    + destruct (Z.ltb_spec e s); [lia | reflexivity].
    + rewrite (bind_OK _ (lift_OK _ g _ Hs)). reflexivity.
  - reflexivity.
Qed.

Lemma expiration_check_passes (requested channel_state : value) (u : unit) (g g' : rng) :
  expiration_check requested channel_state g = OK (u, g') ->
  exists e r s,
    getattr requested "expiration" = OK (VInt e) /\
    getattr channel_state "reveal_timeout" = OK (VInt r) /\
    getattr channel_state "settle_timeout" = OK (VInt s) /\
    (r < e < s)%Z.
Proof.
  unfold expiration_check. intros H. invert_run H.
  apply assert_inv in H as [-> _].
  match goal with
  | Hlt : py_lt _ _ = OK ?above, Hv : (if ?above then _ else _) _ = OK _ |- _ =>
      apply py_lt_inv in Hlt as (r & e & -> & -> & ->);
      destruct (Z.ltb_spec r e); [|discriminate]; invert_run Hv;
      apply lift_inv in Hv as [Hv _];
      apply py_lt_inv in Hv as (e' & s & [= <-] & -> & Hes)
  end.
  symmetry in Hes. apply Z.ltb_lt in Hes.
  match goal with
  | Hx : extract _ _ = OK _ |- _ =>
      destruct (extract_getattr _ _ _ "expiration" Hx) as (v & Hv1 & Hv2);
        [cbn; tauto|]
  end.
  exists e, r, s. repeat split; try assumption; congruence.
Qed.

End TransferForFacts.

(** C4. With [allow_invalid] left [False], [make_signed_transfer_for]
    fails with an assertion for every requested transfer whose expiration
    is not strictly between the [reveal_timeout] and the [settle_timeout]
    of the channel, and the lock of every transfer that it returns expires
    strictly between the two. The channel is [channel_state], or the one
    created from the defaults when [channel_state] is [EMPTY]; the
    requested transfer is [properties] merged with [defaults]. *)
Theorem make_signed_transfer_for_expiration
  {collaborators : Collaborators} (import_rng : rng)
  (channel_state properties defaults : value)
  (compute_locksroot only_transfer : bool) (g : rng) :
  (forall blank requested blank_channel made g1 transfer e r s,
      new LockedTransferSignedStateProperties [] = OK blank ->
      create_properties (DEFAULTS import_rng) (or_default properties blank)
        (or_default defaults (SIGNED_TRANSFER_FOR_CHANNEL_DEFAULTS import_rng))
      = OK requested ->
      new NettingChannelStateProperties [] = OK blank_channel ->
      create import_rng blank_channel VNone g = OK (made, g1) ->
      extract requested LockedTransferProperties = OK transfer ->
      getattr transfer "expiration" = OK (VInt e) ->
      getattr (if_empty channel_state made) "reveal_timeout" = OK (VInt r) ->
      getattr (if_empty channel_state made) "settle_timeout" = OK (VInt s) ->
      ~ (r < e < s)%Z ->
      make_signed_transfer_for import_rng channel_state properties defaults
        compute_locksroot false only_transfer g
      = Raise AssertionError) /\
  (forall t g',
      make_signed_transfer_for import_rng channel_state properties defaults
        compute_locksroot false only_transfer g
      = OK (t, g') ->
      exists blank_channel made g1 lock e r s,
        new NettingChannelStateProperties [] = OK blank_channel /\
        create import_rng blank_channel VNone g = OK (made, g1) /\
        getattr (if_empty channel_state made) "reveal_timeout" = OK (VInt r) /\
        getattr (if_empty channel_state made) "settle_timeout" = OK (VInt s) /\
        getattr t "lock" = OK lock /\
        getattr lock "expiration" = OK (VInt e) /\
        (r < e < s)%Z).
Proof.
  split.
  - intros blank requested blank_channel made g1 transfer e r s
      Hblank Hreq Hbc Hmade Htr He Hr Hs Hnot.
    unfold make_signed_transfer_for.
    rewrite (bind_OK _ (lift_OK _ g _ Hblank)); cbv beta.
    rewrite (bind_OK _ (lift_OK _ g _ Hreq)); cbv beta.
    rewrite (bind_OK _ (lift_OK _ g _ Hbc)); cbv beta.
    rewrite (bind_OK _ Hmade); cbv beta zeta.
    apply bind_Raise.
    apply (expiration_check_fails requested (if_empty channel_state made) transfer e r s);
      assumption.
  - intros t g' H. unfold make_signed_transfer_for in H.
    apply bind_inv in H as (blank & g0 & Hblank & H).
    apply lift_inv in Hblank as [Hblank ->].
    apply bind_inv in H as (requested & g0 & Hreq & H).
    apply lift_inv in Hreq as [Hreq ->].
    apply bind_inv in H as (blank_channel & g0 & Hbc & H).
    apply lift_inv in Hbc as [Hbc ->].
    apply bind_inv in H as (made & g1 & Hmade & H). cbv beta zeta in H.
    apply bind_inv in H as (u & g2 & Hcheck & H).
    apply (expiration_check_passes requested (if_empty channel_state made)) in Hcheck
      as (e & r & s & He & Hr & Hs & Hlt).
    exists blank_channel, made, g1.
    invert_run H. unfold ret in H. injection H as -> <-.
    match goal with
    | Hnew : new LockedTransferSignedStateProperties (_ :: ?td) = OK ?sp,
      Hd : dict_of ?tp = OK ?td,
      Hc : create import_rng ?sp requested _ = OK (t, _) |- _ =>
        assert (Htp : exists tpd, tp = VProps LockedTransferProperties tpd /\
                                  dict_get tpd "expiration" = Some EMPTY);
        [|destruct Htp as (tpd & -> & Htpd); injection Hd as <-;
          pose proof Hnew as Hnew';
          apply dict_facts.new_inv in Hnew' as (spd & -> & Hkeys & _ & Hset & _);
          assert (Hsp : dict_get spd "expiration" = Some EMPTY)
            by (apply Hset; cbn; exact Htpd);
          apply create_signed_lock_expiration in Hc
            as (merged & expiration & lock & Hm & Hme & Hlock & Hle)]
    end.
    { match goal with
      | Hif : (if only_transfer then _ else _) _ = OK (?tp, _) |- _ =>
          destruct only_transfer; invert_run Hif;
          apply lift_inv in Hif as [Hif _]; pose proof Hif as Hif';
          apply dict_facts.new_inv in Hif' as (tpd & -> & _);
          destruct (new_default _ _ tpd "expiration" Hif eq_refl) as (v & Hv & Hdef);
            try (cbn; tauto);
          injection Hdef as <-; eauto
      end. }
    exists lock, e, r, s.
    repeat (split; [assumption|]).
    split; [|assumption].
    assert (Hx : getattr merged "expiration" = OK (VInt e)).
    { apply (create_properties_field_from_defaults import_rng
               (VProps LockedTransferSignedStateProperties spd) requested merged
               "expiration" (VInt e)); auto.
      - eexists _, spd. split; [reflexivity|]. split; assumption.
      - eapply create_properties_is_properties; eassumption. }
    rewrite Hme in Hx. injection Hx as ->. exact Hle.
Qed.

Lemma make_signed_transfer_for_expiration_witness :
  @make_signed_transfer_for sample_collaborators sample_rng
    sample_channel late_transfer VNone false false true sample_rng
  = Raise AssertionError /\
  exists t g' lock e,
    @make_signed_transfer_for sample_collaborators sample_rng
      sample_channel VNone VNone false false true sample_rng
    = OK (t, g') /\
    getattr t "lock"%string = OK lock /\
    getattr lock "expiration"%string = OK (VInt e) /\
    (5 < e < 50)%Z.
Proof.
  split.
  - destruct (@make_signed_transfer_for_expiration sample_collaborators sample_rng
                sample_channel late_transfer VNone false true sample_rng) as [Hfails _].
    destruct (@create sample_collaborators sample_rng
                (imported (new NettingChannelStateProperties [])) VNone sample_rng)
      as [[made g1]|e] eqn:E; [|vm_compute in E; discriminate].
    apply (Hfails
             (imported (new LockedTransferSignedStateProperties []))
             (imported
                (create_properties (@DEFAULTS sample_collaborators sample_rng)
                   late_transfer
                   (@SIGNED_TRANSFER_FOR_CHANNEL_DEFAULTS sample_collaborators sample_rng)))
             (imported (new NettingChannelStateProperties []))
             made g1
             (imported
                (extract
                   (imported
                      (create_properties (@DEFAULTS sample_collaborators sample_rng)
                         late_transfer
                         (@SIGNED_TRANSFER_FOR_CHANNEL_DEFAULTS sample_collaborators
                            sample_rng)))
                   LockedTransferProperties))
             50%Z 5%Z 50%Z);
      first [ exact E | lia | vm_compute; reflexivity ].
  - destruct (@make_signed_transfer_for sample_collaborators sample_rng
                sample_channel VNone VNone false false true sample_rng)
      as [[t g']|e] eqn:E; [|vm_compute in E; discriminate].
    destruct (@make_signed_transfer_for_expiration sample_collaborators sample_rng
                sample_channel VNone VNone false true sample_rng) as [_ Hreturns].
    destruct (Hreturns t g' E)
      as (bc & made & g1 & lock & e & r & s & _ & _ & Hr & Hs & Hlock & He & Hlt).
    vm_compute in Hr. vm_compute in Hs. injection Hr as <-. injection Hs as <-.
    exists t, g', lock, e. repeat split; try assumption; lia.
Defined.

(** With [allow_invalid] set, the assertion is skipped: the same late
    transfer is returned, with a lock that expires with the settle
    timeout. *)
Example make_signed_transfer_for_allow_invalid :
  exists t g' lock,
    @make_signed_transfer_for sample_collaborators sample_rng
      sample_channel late_transfer VNone false true true sample_rng
    = OK (t, g') /\
    getattr t "lock"%string = OK lock /\
    getattr lock "expiration"%string = OK (VInt 50).
Proof.
  destruct (@make_signed_transfer_for sample_collaborators sample_rng
              sample_channel late_transfer VNone false true true sample_rng)
    as [[t g']|e] eqn:E; vm_compute in E; [|discriminate].
  injection E as <- <-. eexists _, _, _. repeat split; reflexivity.
Qed.

(** ** [create_properties] on well-formed instances *)

Module properties_facts.
Import dict_facts replace_facts.

Lemma pclass_eqb_eq (a c : pclass) : pclass_eqb a c = true <-> a = c.
Proof. destruct a, c; cbn; split; congruence. Qed.

Lemma field_class_rank (cls sub : pclass) (k : string) :
  field_class cls k = Some sub -> rank sub < rank cls.
Proof.
  destruct cls; cbn; try discriminate.
  repeat match goal with |- context [if ?c then _ else _] => destruct c end;
    try discriminate; intros [= <-]; cbn; lia.
Qed.

Lemma rank_lt_limit (cls : pclass) : rank cls < recursion_limit.
Proof. apply Nat.ltb_lt. now destruct cls. Qed.

Definition field_ok (cls : pclass) (kv : string * value) : bool :=
  match field_class cls (fst kv) with
  | Some sub =>
      match snd kv with
      | EMPTY | VNone => true
      | VProps _ _ => instance_of sub (snd kv)
      | _ => false
      end
  | None => negb (is_properties (snd kv))
  end.

Definition field_set (cls : pclass) (kv : string * value) : Prop :=
  field_class cls (fst kv) <> None -> snd kv <> EMPTY.

Lemma instance_of_spec (cls : pclass) (v : value) :
  instance_of cls v = true <->
  exists dict,
    v = VProps cls dict /\ map fst dict = field_names cls /\
    forall kv, In kv dict -> field_ok cls kv = true.
Proof.
  destruct v as [| | | | | | |c dict|]; cbn [instance_of];
    try (split; [discriminate | intros (d & [=] & _)]).
  fold (field_ok cls). rewrite !andb_true_iff, pclass_eqb_eq, strings_eqb_eq, forallb_forall.
  split.
  - intros [[-> Hk] Hf]. eauto.
  - intros (d & [= -> ->] & Hk & Hf). auto.
Qed.

Lemma nested_set_spec (cls : pclass) (v : value) :
  nested_set cls v = true <->
  exists dict,
    v = VProps cls dict /\ map fst dict = field_names cls /\
    (forall kv, In kv dict -> field_ok cls kv = true) /\
    (forall kv, In kv dict -> field_set cls kv).
Proof.
  unfold nested_set. rewrite andb_true_iff, instance_of_spec. split.
  - intros [(dict & -> & Hk & Hf) Hn]. exists dict. repeat split; auto.
    rewrite forallb_forall in Hn. intros kv Hin Hc He. specialize (Hn kv Hin).
    destruct (field_class cls (fst kv)); [|congruence]. now rewrite He in Hn.
  - intros (dict & -> & Hk & Hf & Hn). split; [eauto|].
    apply forallb_forall. intros kv Hin. specialize (Hn kv Hin). unfold field_set in Hn.
    destruct (field_class cls (fst kv)); [|reflexivity].
    destruct (snd kv); try reflexivity. exfalso. now apply Hn.
Qed.

Lemma field_ok_properties (cls c : pclass) (k : string) (d : list (string * value)) :
  field_ok cls (k, VProps c d) = true ->
  exists sub, field_class cls k = Some sub /\ c = sub /\
              instance_of sub (VProps c d) = true.
Proof.
  unfold field_ok. cbn [fst snd is_properties negb].
  destruct (field_class cls k) as [sub|]; [|discriminate].
  intros H. exists sub. split; [reflexivity|]. split; [|assumption].
  apply instance_of_spec in H as (d' & [= -> _] & _). reflexivity.
Qed.

Lemma dict_get_of_In {V} (d : list (string * V)) (k : string) (v : V) :
  NoDup (map fst d) -> In (k, v) d -> dict_get d k = Some v.
Proof.
  induction d as [|[k0 v0] d IH]; cbn; [contradiction|].
  intros Hnd [[= -> ->]|Hin]; inversion_clear Hnd as [|? ? Hk Hnd'].
  - now rewrite String.eqb_refl.
  - destruct (String.eqb_spec k0 k) as [->|]; [|auto].
    exfalso. apply Hk. change k with (fst (k, v)). now apply in_map.
Qed.

Lemma map_result_exists {A B} (f : A -> result B) (Q : A -> B -> Prop) (l : list A) :
  (forall a, In a l -> exists y, f a = OK y /\ Q a y) ->
  exists l', map_result f l = OK l' /\ Forall2 Q l l'.
Proof.
  induction l as [|a l IH]; intros H.
  - exists []. split; [reflexivity | constructor].
  - destruct (H a (or_introl eq_refl)) as (y & Hy & HQ).
    destruct IH as (l' & Hl' & HF); [intros; apply H; now right|].
    exists (y :: l'). cbn. rewrite Hy, Hl'. split; [reflexivity | now constructor].
Qed.

Lemma getattr_VProps (c : pclass) (d : list (string * value)) (k : string) (x : value) :
  getattr (VProps c d) k = OK x <-> dict_get d k = Some x.
Proof. cbn. destruct (dict_get d k); split; congruence. Qed.

Section Typed.

Variable D : pclass -> value.
Hypothesis D_ok : forall cls, D cls = VNone \/ nested_set cls (D cls) = true.
Hypothesis D_nested : forall cls k sub, field_class cls k = Some sub -> D sub <> VNone.

Lemma nested_set_default (cls sub : pclass) (k : string) :
  field_class cls k = Some sub -> nested_set sub (D sub) = true.
Proof.
  intros H. destruct (D_ok sub) as [Hn|Hs]; [|assumption].
  exfalso. eapply D_nested; eassumption.
Qed.

(** On well-formed arguments, [_replace_properties] returns a well-formed
    instance of the class, when the depth is more than the rank of the
    class. *)
Lemma _replace_properties_typed (depth : nat) : forall cls a defaults,
  rank cls < depth ->
  instance_of cls a = true -> nested_set cls defaults = true ->
  exists rd,
    _replace_properties D depth a defaults = OK (VProps cls rd) /\
    nested_set cls (VProps cls rd) = true.
Proof.
  induction depth as [|n IH]; intros cls a defaults Hrank Ha Hb; [lia|].
  apply instance_of_spec in Ha as (ad & -> & Hak & Haf).
  apply nested_set_spec in Hb as (bd & -> & Hbk & Hbf & Hbn).
  rewrite _replace_properties_unfold. cbn [kwargs rbind].
  set (kw := filter (fun kv : string * value => negb (is_EMPTY (snd kv))) ad).
  pose (Q := fun (k : string) (v w : value) =>
              if is_properties v
              then exists sub, field_class cls k = Some sub /\ nested_set sub w = true
              else w = v).
  assert (Hreps : exists reps,
    map_result (replacement D n (VProps cls bd)) kw = OK reps /\
    Forall2 (fun a y : string * value =>
               fst y = fst a /\ Q (fst a) (snd a) (snd y)) kw reps).
  { apply map_result_exists. unfold Q. intros [k v] Hin. apply filter_In in Hin as [Hin Hne].
    pose proof (Haf _ Hin) as Hok. unfold replacement. cbn [fst snd].
    destruct (is_properties v) eqn:Hv; [|eexists; split; [reflexivity | auto]].
    destruct v as [| | | | | | |c d|]; try discriminate.
    apply field_ok_properties in Hok as (sub & Hsub & -> & Hinst).
    cbn [dict_of rbind].
    assert (Hk : In k (map fst bd)).
    { rewrite Hbk, <- Hak. change k with (fst (k, VProps sub d)). now apply in_map. }
    apply dict_get_key in Hk. unfold getitem.
    destruct (dict_get bd k) as [dk|] eqn:Hdk; [|congruence]. cbn [rbind].
    pose proof (dict_get_In _ _ _ Hdk) as Hdkin.
    pose proof (Hbf _ Hdkin) as Hdkok. pose proof (Hbn _ Hdkin) as Hdkne.
    unfold field_ok in Hdkok. unfold field_set in Hdkne. cbn [fst snd] in Hdkok, Hdkne.
    rewrite Hsub in Hdkok, Hdkne.
    pose proof (field_class_rank _ _ _ Hsub) as Hr.
    pose proof (nested_set_default _ _ _ Hsub) as HD.
    unfold create_properties_with. cbn [DEFAULTS_of rbind].
    assert (Hfull : exists full,
      (if negb (is_None dk) then _replace_properties D n dk (D sub) else OK (D sub))
      = OK full /\ nested_set sub full = true).
    { destruct dk as [| | | | | | |c' d'|]; try discriminate.
      - exfalso. apply Hdkne; congruence.
      - cbn. eauto.
      - cbn [is_None negb].
        assert (Hc' : c' = sub).
        { apply instance_of_spec in Hdkok as (? & [= -> _] & _). reflexivity. }
        subst c'. destruct (IH sub (VProps sub d') (D sub)) as (rd & Hrd & Hn);
          [lia | assumption | assumption |]. eauto. }
    destruct Hfull as (full & -> & Hfull). cbn [rbind].
    destruct (IH sub (VProps sub d) full) as (rd & -> & Hn); [lia | assumption.. |].
    cbn [rbind]. eexists. split; [reflexivity|]. cbn [fst snd]. eauto. }
  destruct Hreps as (reps & -> & HF). cbn [rbind].
  apply (Forall2_dict_get Q) in HF as [Hrk Hrg]. unfold Q in Hrg. clear Q.
  assert (Hkw : forall k, In k (map fst kw) -> In k (field_names cls)).
  { intros k ([k' v] & <- & [Hin _]%filter_In)%in_map_iff. rewrite <- Hak.
    now apply in_map. }
  destruct (replace_OK cls bd reps Hbk) as (rd & Hrd); [now rewrite Hrk|].
  rewrite Hrd. exists rd. split; [reflexivity|].
  apply replace_inv in Hrd
    as (cls' & bd' & rd' & [= <- <-] & [= <-] & Hk & _ & _ & Hset & Hkeep).
  apply nested_set_spec. exists rd. split; [reflexivity|]. split; [assumption|].
  assert (Hnd : NoDup (map fst rd)) by (rewrite Hk; apply field_names_NoDup).
  assert (Hentry : forall kv, In kv rd -> field_ok cls kv = true /\ field_set cls kv).
  { intros [k x] Hin. pose proof (dict_get_of_In _ _ _ Hnd Hin) as Hx.
    specialize (Hrg k). destruct (dict_get kw k) as [v|] eqn:Hv.
    - destruct Hrg as (w & Hw & HQ). rewrite (Hset _ _ Hw) in Hx. injection Hx as <-.
      apply dict_get_filter_inv in Hv as [Hv Hne]. pose proof (Haf _ Hv) as Hok.
      destruct (is_properties v) eqn:Hp.
      + destruct HQ as (sub & Hsub & Hn). unfold nested_set in Hn.
        apply andb_prop in Hn as [Hn _]. unfold field_ok, field_set. cbn [fst snd].
        rewrite Hsub. destruct w; try discriminate. split; [assumption | discriminate].
      + subst w. split; [assumption|]. unfold field_set. cbn [fst snd] in *.
        intros _ ->. discriminate.
    - assert (Hb : In k (map fst bd)).
      { rewrite Hbk, <- Hk. change k with (fst (k, x)). now apply in_map. }
      apply dict_get_key in Hb. destruct (dict_get bd k) as [x'|] eqn:Hx'; [|congruence].
      rewrite (Hkeep _ _ Hrg Hx') in Hx. injection Hx as <-.
      apply dict_get_In in Hx'. auto. }
  split; intros kv Hin; now apply Hentry.
Qed.

Lemma create_properties_typed (cls : pclass) (properties defaults : value) :
  instance_of cls properties = true ->
  defaults = VNone \/ instance_of cls defaults = true ->
  D cls <> VNone ->
  exists rd,
    create_properties D properties defaults = OK (VProps cls rd) /\
    nested_set cls (VProps cls rd) = true.
Proof.
  intros Hp Hd HD. destruct (D_ok cls) as [|HDn]; [contradiction|].
  unfold create_properties, create_properties_with.
  pose proof Hp as Hp'. apply instance_of_spec in Hp' as (pd & -> & _).
  cbn [DEFAULTS_of rbind].
  assert (Hfull : exists fd,
    (if negb (is_None defaults)
     then _replace_properties D recursion_limit defaults (D cls)
     else OK (D cls)) = OK (VProps cls fd) /\
    nested_set cls (VProps cls fd) = true).
  { destruct Hd as [->|Hd].
    - cbn [is_None negb]. pose proof HDn as HDn'.
      apply nested_set_spec in HDn' as (Dd & HDd & _). rewrite HDd in *. eauto.
    - pose proof Hd as Hd'. apply instance_of_spec in Hd' as (dd & -> & _).
      cbn [is_None negb].
      apply _replace_properties_typed; auto using rank_lt_limit. }
  destruct Hfull as (fd & -> & Hfd). cbn [rbind].
  apply _replace_properties_typed; auto using rank_lt_limit.
Qed.

Lemma instance_of_getattr (cls : pclass) (v : value) (k : string) :
  instance_of cls v = true -> In k (field_names cls) ->
  exists x, getattr v k = OK x.
Proof.
  intros (d & -> & Hk & _)%instance_of_spec Hin. rewrite <- Hk in Hin.
  apply dict_get_key in Hin. destruct (dict_get d k) as [x|] eqn:E; [|congruence].
  exists x. now apply getattr_VProps.
Qed.

(** One call of [_replace_properties], field by field. *)
Lemma _replace_properties_field (depth : nat) (cls : pclass) (a defaults r : value) :
  depth <= recursion_limit ->
  instance_of cls a = true -> instance_of cls defaults = true ->
  _replace_properties D depth a defaults = OK r ->
  forall k, In k (field_names cls) ->
  exists ak bk rk,
    getattr a k = OK ak /\ getattr defaults k = OK bk /\ getattr r k = OK rk /\
    merge_field D ak (OK bk) = OK rk.
Proof.
  intros Hle Ha Hb HR k Hin.
  destruct (instance_of_getattr _ _ _ Ha Hin) as (ak & Hak).
  destruct (instance_of_getattr _ _ _ Hb Hin) as (bk & Hbk).
  apply instance_of_spec in Ha as (ad & -> & Hadk & _).
  apply instance_of_spec in Hb as (bd & -> & Hbdk & _).
  apply getattr_VProps in Hak, Hbk.
  apply _replace_properties_inv in HR
    as (n' & cls1 & ad1 & dcls & bd1 & rd & -> & [= <- <-] & [= <- <-] & -> & _ & _ & Hf).
  specialize (Hf k).
  assert (Hnd : NoDup (map fst ad)) by (rewrite Hadk; apply field_names_NoDup).
  destruct (dict_get (filter _ ad) k) as [v|] eqn:Hv.
  - destruct Hf as [_ Hf]. apply dict_get_filter_inv in Hv as [Hv Hne].
    cbn [snd] in Hne. rewrite (dict_get_of_In _ _ _ Hnd Hv) in Hak. injection Hak as <-.
    assert (He : is_EMPTY v = false) by now destruct (is_EMPTY v).
    destruct (is_properties v) eqn:Hp.
    + destruct Hf as (dk & r' & Hdk & HC & Hr'). rewrite Hbk in Hdk. injection Hdk as <-.
      exists v, bk, r'. rewrite !getattr_VProps.
      repeat (split; [first [assumption | now apply (dict_get_of_In _ _ _ Hnd)]|]).
      unfold merge_field. rewrite He, Hp. cbn [rbind]. unfold create_properties.
      apply (create_properties_with_mono D n'); [lia | assumption].
    + exists v, bk, v. rewrite !getattr_VProps.
      repeat (split; [first [assumption | now apply (dict_get_of_In _ _ _ Hnd)]|]).
      unfold merge_field. now rewrite He, Hp.
  - exists ak, bk, bk. rewrite !getattr_VProps.
    repeat (split; [first [assumption | now apply Hf]|]).
    unfold merge_field. destruct (is_EMPTY ak) eqn:He; [reflexivity|]. exfalso.
    rewrite (dict_get_filter_Some _ _ _ _ Hak) in Hv; [discriminate|].
    cbn [snd]. now rewrite He.
Qed.

(** [create_properties], field by field. *)
Lemma create_properties_field (cls : pclass) (properties defaults r : value) :
  instance_of cls properties = true ->
  defaults = VNone \/ instance_of cls defaults = true ->
  D cls <> VNone ->
  create_properties D properties defaults = OK r ->
  forall k, In k (field_names cls) ->
  exists pk Dk rk,
    getattr properties k = OK pk /\ getattr (D cls) k = OK Dk /\ getattr r k = OK rk /\
    merge_field D pk
      (if is_None defaults then OK Dk
       else (dk <- getattr defaults k ;; merge_field D dk (OK Dk))%res)
    = OK rk.
Proof.
  intros Hp Hd HD HC k Hin. destruct (D_ok cls) as [|HDn]; [contradiction|].
  assert (HDi : instance_of cls (D cls) = true).
  { unfold nested_set in HDn. now apply andb_prop in HDn. }
  unfold create_properties in HC.
  apply create_properties_with_inv in HC as (cls1 & pd & full & Hpeq & Hfull & HR).
  assert (cls1 = cls) as ->.
  { apply instance_of_spec in Hp as (? & Hp & _). congruence. }
  destruct Hd as [->|Hd].
  - cbn [is_None] in *. subst full.
    apply (_replace_properties_field _ cls) with (k := k) in HR; auto.
  - assert (Hn : is_None defaults = false).
    { apply instance_of_spec in Hd as (? & -> & _). reflexivity. }
    rewrite Hn in *.
    destruct (_replace_properties_typed recursion_limit cls defaults (D cls))
      as (fd & Hfd & Hfn); auto using rank_lt_limit.
    rewrite Hfd in Hfull. injection Hfull as <-.
    assert (Hfi : instance_of cls (VProps cls fd) = true).
    { unfold nested_set in Hfn. now apply andb_prop in Hfn. }
    apply (_replace_properties_field _ cls) with (k := k) in Hfd; auto.
    apply (_replace_properties_field _ cls) with (k := k) in HR; auto.
    destruct Hfd as (dk & Dk & fk & Hdk & HDk & Hfk & Hm1).
    destruct HR as (pk & fk' & rk & Hpk & Hfk' & Hrk & Hm2).
    rewrite Hfk in Hfk'. injection Hfk' as <-.
    exists pk, Dk, rk. repeat (split; [assumption|]).
    rewrite Hdk. cbn [rbind]. rewrite Hm1. exact Hm2.
Qed.

Hypothesis D_populated :
  forall cls k sub, field_class cls k = Some sub -> populated (D sub) = true.

Lemma populated_plain (v : value) :
  is_properties v = false -> is_EMPTY v = false -> populated v = true.
Proof. now destruct v. Qed.

Lemma _replace_properties_populated (depth : nat) : forall cls a defaults r,
  rank cls < depth ->
  instance_of cls a = true -> nested_set cls defaults = true ->
  populated defaults = true ->
  _replace_properties D depth a defaults = OK r ->
  populated r = true.
Proof.
  induction depth as [|n IH]; intros cls a defaults r Hrank Ha Hb Hpop HR; [lia|].
  apply _replace_properties_inv in HR
    as (n' & cls1 & ad & dcls & bd & rd & [= <-] & -> & -> & -> & Hrk & _ & Hf).
  apply instance_of_spec in Ha as (ad' & [= <- <-] & Hak & Haf).
  apply nested_set_spec in Hb as (bd' & [= <- <-] & Hbk & Hbf & Hbn).
  cbn [populated] in *. rewrite forallb_forall in Hpop.
  apply forallb_forall. intros [k x] Hin. cbn [snd].
  assert (Hnd : NoDup (map fst rd)) by (rewrite Hrk; apply field_names_NoDup).
  pose proof (dict_get_of_In _ _ _ Hnd Hin) as Hx.
  assert (Hkb : In k (map fst bd)).
  { rewrite Hbk, <- Hrk. change k with (fst (k, x)). now apply in_map. }
  apply dict_get_key in Hkb. destruct (dict_get bd k) as [bk|] eqn:Hbkv; [clear Hkb|congruence].
  pose proof (dict_get_In _ _ _ Hbkv) as Hbin.
  specialize (Hf k). destruct (dict_get (filter _ ad) k) as [v|] eqn:Hv.
  - destruct Hf as [_ Hf]. apply dict_get_filter_inv in Hv as [Hv Hne].
    cbn [snd] in Hne. pose proof (Haf _ Hv) as Hok.
    destruct (is_properties v) eqn:Hp.
    + destruct Hf as (dk & r' & Hdk & HC & Hr').
      rewrite Hx in Hr'. injection Hr' as <-.
      rewrite Hbkv in Hdk. injection Hdk as <-.
      destruct v as [| | | | | | |c d|]; try discriminate.
      apply field_ok_properties in Hok as (sub & Hsub & -> & Hinst).
      pose proof (field_class_rank _ _ _ Hsub) as Hr.
      apply create_properties_with_inv in HC as (c1 & d1 & full & [= <- <-] & Hfull & HR).
      assert (Hfulls : nested_set sub full = true /\ populated full = true).
      { pose proof (Hbf _ Hbin) as Hbok. pose proof (Hbn _ Hbin) as Hbne.
        unfold field_ok in Hbok. unfold field_set in Hbne. cbn [fst snd] in Hbok, Hbne.
        rewrite Hsub in Hbok, Hbne.
        destruct bk as [| | | | | | |c' d'|]; try discriminate.
        - exfalso. apply Hbne; congruence.
        - cbn in Hfull. subst full. eauto using nested_set_default.
        - cbn [is_None] in Hfull.
          assert (Hc' : c' = sub).
          { apply instance_of_spec in Hbok as (? & [= -> _] & _). reflexivity. }
          subst c'.
          destruct (_replace_properties_typed n sub (VProps sub d') (D sub))
            as (fd & Hfd & Hfn); [lia | assumption | eauto using nested_set_default |].
          rewrite Hfd in Hfull. injection Hfull as <-. split; [assumption|].
          apply (IH sub (VProps sub d') (D sub)); eauto using nested_set_default. lia. }
      destruct Hfulls as [Hfn Hfp].
      apply (IH sub (VProps sub d) full); auto. lia.
    + rewrite Hx in Hf. injection Hf as <-. apply populated_plain; [assumption|].
      now apply negb_true_iff.
  - rewrite (Hf _ Hbkv) in Hx. injection Hx as <-. apply (Hpop _ Hbin).
Qed.

Lemma create_properties_populated (cls : pclass) (properties defaults r : value) :
  instance_of cls properties = true ->
  defaults = VNone \/ instance_of cls defaults = true ->
  D cls <> VNone -> populated (D cls) = true ->
  create_properties D properties defaults = OK r ->
  populated r = true.
Proof.
  intros Hp Hd HD Hpop HC.
  destruct (D_ok cls) as [|HDn]; [contradiction|].
  unfold create_properties in HC.
  apply create_properties_with_inv in HC as (cls1 & pd & full & Hpeq & Hfull & HR).
  assert (cls1 = cls) as ->.
  { apply instance_of_spec in Hp as (? & Hp & _). congruence. }
  assert (Hfulls : nested_set cls full = true /\ populated full = true).
  { destruct Hd as [->|Hd].
    - cbn in Hfull. subst full. auto.
    - assert (Hn : is_None defaults = false).
      { apply instance_of_spec in Hd as (? & -> & _). reflexivity. }
      rewrite Hn in Hfull.
      destruct (_replace_properties_typed recursion_limit cls defaults (D cls))
        as (fd & Hfd & Hfn); auto using rank_lt_limit.
      rewrite Hfd in Hfull. injection Hfull as <-. split; [assumption|].
      apply (_replace_properties_populated recursion_limit cls defaults (D cls));
        auto using rank_lt_limit. }
  destruct Hfulls as [Hfn Hfp].
  apply (_replace_properties_populated recursion_limit cls properties full);
    auto using rank_lt_limit.
Qed.

End Typed.

End properties_facts.

Section PropertiesFacts.

Context {collaborators : Collaborators}.
Variable import_rng : rng.

Import properties_facts.

Local Open Scope string_scope.

Lemma DEFAULTS_nested_set (cls : pclass) :
  DEFAULTS import_rng cls = VNone \/ nested_set cls (DEFAULTS import_rng cls) = true.
Proof.
  destruct cls; try (left; reflexivity); right; reflexivity.
Qed.

Lemma DEFAULTS_of_nested (cls : pclass) (k : string) (sub : pclass) :
  field_class cls k = Some sub ->
  DEFAULTS import_rng sub <> VNone /\ populated (DEFAULTS import_rng sub) = true.
Proof.
  destruct cls; cbn; try discriminate.
  repeat match goal with |- context [if ?c then _ else _] => destruct c end;
    try discriminate; intros [= <-]; (split; [discriminate | reflexivity]).
Qed.

End PropertiesFacts.

(** C2. On the code the claim fails at
    [BalanceProofSignedStateProperties]: the [DEFAULTS] of that class are
    built without [message_hash], so that for blank properties of the
    class [create_properties] returns an instance in which the field is
    still [EMPTY], and the result is not fully populated. The [DEFAULTS]
    of every other class that has them set every field. *)
Lemma create_properties_message_hash_stays_empty :
  (exists r,
     instance_of BalanceProofSignedStateProperties blank_signed_proof = true /\
     create_properties (DEFAULTS sample_rng) blank_signed_proof VNone = OK r /\
     getattr r "message_hash"%string = OK EMPTY /\
     populated r = false) /\
  (forall cls,
     DEFAULTS sample_rng cls <> VNone ->
     cls <> BalanceProofSignedStateProperties ->
     populated (DEFAULTS sample_rng cls) = true).
Proof.
  split.
  - exists (imported (create_properties (DEFAULTS sample_rng) blank_signed_proof VNone)).
    repeat split; vm_compute; reflexivity.
  - intros cls Hd Hc. destruct cls; try congruence; vm_compute; reflexivity.
Qed.

(** The merge of [create_properties], field by field. Let [properties]
    be an instance of a properties class [cls] that has [DEFAULTS], and
    [defaults] be [None] or an instance of the same class, the fields
    annotated with a properties class holding [EMPTY], [None] or an
    instance of that class. Then [create_properties] returns an instance
    [r] of [cls] in which no nested properties field is [EMPTY], and every
    field of [r] follows [merge_field]: a field that [properties] sets with
    a plain value is kept; a field that it leaves [EMPTY] is the field of
    [defaults] or, when [defaults] is [None] or leaves it [EMPTY] too, the
    field of [cls.DEFAULTS]; a field that holds a properties object is
    merged with that default by [create_properties] again. The result is
    fully populated when no field of [cls.DEFAULTS] is [EMPTY]. *)
Theorem create_properties_merges
  {collaborators : Collaborators} (import_rng : rng)
  (cls : pclass) (properties defaults : value) :
  instance_of cls properties = true ->
  defaults = VNone \/ instance_of cls defaults = true ->
  DEFAULTS import_rng cls <> VNone ->
  exists r,
    create_properties (DEFAULTS import_rng) properties defaults = OK r /\
    nested_set cls r = true /\
    (forall k, In k (field_names cls) ->
       exists pk Dk rk,
         getattr properties k = OK pk /\
         getattr (DEFAULTS import_rng cls) k = OK Dk /\
         getattr r k = OK rk /\
         merge_field (DEFAULTS import_rng) pk
           (if is_None defaults then OK Dk
            else (dk <- getattr defaults k ;;
                  merge_field (DEFAULTS import_rng) dk (OK Dk))%res)
         = OK rk) /\
    (populated (DEFAULTS import_rng cls) = true -> populated r = true).
Proof.
  intros Hp Hd HD.
  pose proof (DEFAULTS_nested_set import_rng) as Hok.
  assert (Hnested : forall c k sub,
             field_class c k = Some sub -> DEFAULTS import_rng sub <> VNone).
  { intros c k sub H. now apply (DEFAULTS_of_nested import_rng) in H. }
  assert (Hpop : forall c k sub,
             field_class c k = Some sub -> populated (DEFAULTS import_rng sub) = true).
  { intros c k sub H. now apply (DEFAULTS_of_nested import_rng) in H. }
  destruct (properties_facts.create_properties_typed _ Hok Hnested cls properties defaults)
    as (rd & Hr & Hn); auto.
  exists (VProps cls rd). split; [assumption|]. split; [assumption|]. split.
  - now apply properties_facts.create_properties_field.
  - intros HDp.
    now apply (properties_facts.create_properties_populated _ Hok Hnested Hpop
                 cls properties defaults).
Qed.

Lemma create_properties_merges_witness :
  exists r,
    create_properties (DEFAULTS sample_rng) partial_channel channel_defaults = OK r /\
    nested_set NettingChannelStateProperties r = true /\
    (forall k, In k (field_names NettingChannelStateProperties) ->
       exists pk Dk rk,
         getattr partial_channel k = OK pk /\
         getattr (DEFAULTS sample_rng NettingChannelStateProperties) k = OK Dk /\
         getattr r k = OK rk /\
         merge_field (DEFAULTS sample_rng) pk
           (if is_None channel_defaults then OK Dk
            else (dk <- getattr channel_defaults k ;;
                  merge_field (DEFAULTS sample_rng) dk (OK Dk))%res)
         = OK rk) /\
    (populated (DEFAULTS sample_rng NettingChannelStateProperties) = true ->
     populated r = true).
Proof.
  apply (create_properties_merges sample_rng NettingChannelStateProperties
           partial_channel channel_defaults).
  - vm_compute; reflexivity.
  - right. vm_compute; reflexivity.
  - vm_compute; discriminate.
Defined.

(** What the merge gives on the example: the fields that
    [partial_channel] sets, those that it takes from [channel_defaults],
    and those of [DEFAULTS] for the rest, also inside [our_state]. *)
Example create_properties_partial_channel :
  exists r our,
    create_properties (DEFAULTS sample_rng) partial_channel channel_defaults = OK r /\
    getattr r "reveal_timeout"%string = OK (VInt 7) /\
    getattr r "settle_timeout"%string = OK (VInt 60) /\
    getattr r "mediation_fee"%string = OK (VInt 0) /\
    getattr r "our_state"%string = OK our /\
    getattr our "balance"%string = OK (VInt 30) /\
    getattr our "merkletree_width"%string = OK (VInt 2) /\
    getattr our "address"%string = OK VNone /\
    populated r = true.
Proof.
  exists (imported (create_properties (DEFAULTS sample_rng) partial_channel channel_defaults)).
  exists (imported
            (r <- create_properties (DEFAULTS sample_rng) partial_channel channel_defaults ;;
             getattr r "our_state"%string)%res).
  repeat split; vm_compute; reflexivity.
Qed.

(** * Further properties *)

(** ** Hexadecimal strings *)

Module hex_more.
Import eth_utils hex_facts address_facts.

Lemma hex_value_bound (c : ascii) (h : N) : hex_value c = Some h -> (h < 16)%N.
Proof.
  unfold hex_value.
  repeat match goal with
         | |- context [if ?c then _ else _] => destruct c eqn:?
         end; intros [= <-];
    repeat match goal with
           | H : (_ && _)%bool = true |- _ => apply andb_prop in H as [? ?]
           | H : (_ <=? _)%N = true |- _ => apply N.leb_le in H
           end; lia.
Qed.

Lemma is_hexdigit_value (c : ascii) :
  is_hexdigit c = true <-> exists h, hex_value c = Some h.
Proof.
  unfold is_hexdigit. destruct (hex_value c) as [h|]; split; eauto; try discriminate.
  intros (h & [=]).
Qed.

Lemma byte_of_pair (h l : N) :
  (h < 16)%N -> (l < 16)%N -> exists b, Byte.of_N (16 * h + l) = Some b.
Proof.
  intros Hh Hl. destruct (Byte.of_N (16 * h + l)) as [b|] eqn:E; [eauto|].
  apply Byte.of_N_None_iff in E. lia.
Qed.

(** Strings are read two characters at a time. *)
Lemma string_pair_ind (P : string -> Prop) :
  P EmptyString ->
  (forall c, P (String c EmptyString)) ->
  (forall c1 c2 r, P r -> P (String c1 (String c2 r))) ->
  forall s, P s.
Proof.
  intros H0 H1 H2.
  assert (H : forall s, P s /\ forall c, P (String c s)).
  { induction s as [|c s [IH1 IH2]]; split; auto. }
  apply H.
Qed.

(** [unhexlify] returns exactly on the strings of hexadecimal digits of
    even length, with one byte for two digits. *)
Lemma unhexlify_digits_OK (s : string) (b : bytes) :
  unhexlify_digits s = OK b ->
  string_forallb is_hexdigit s = true /\ String.length s = 2 * List.length b.
Proof.
  revert b. induction s as [| c | c1 c2 r IH] using string_pair_ind; intros b.
  - intros [= <-]. split; reflexivity.
  - discriminate.
  - cbn [unhexlify_digits string_forallb]. unfold is_hexdigit.
    destruct (hex_value c1) as [h|]; [|discriminate].
    destruct (hex_value c2) as [l|]; [|discriminate].
    destruct (Byte.of_N (16 * h + l)) as [x|]; [|discriminate].
    destruct (unhexlify_digits r) as [bs|e] eqn:E; [|discriminate].
    intros [= <-]. destruct (IH bs eq_refl) as [Hd Hl].
    fold (is_hexdigit). cbn [andb]. split; [exact Hd|]. cbn. rewrite Hl. lia.
Qed.

Lemma unhexlify_inv (s : string) (b : bytes) :
  unhexlify s = OK b -> unhexlify_digits s = OK b.
Proof. unfold unhexlify. now destruct (isascii s). Qed.

Lemma unhexlify_OK (s : string) (b : bytes) :
  unhexlify s = OK b ->
  string_forallb is_hexdigit s = true /\ String.length s = 2 * List.length b.
Proof. intros H%unhexlify_inv. now apply unhexlify_digits_OK. Qed.

Lemma hexdigits_isascii (s : string) :
  string_forallb is_hexdigit s = true -> isascii s = true.
Proof.
  unfold isascii. induction s as [|c s IH]; [reflexivity|]. cbn [string_forallb].
  intros [(h & Hc)%is_hexdigit_value Hs]%andb_prop.
  now rewrite (hex_value_ascii _ _ Hc), IH.
Qed.

Lemma unhexlify_total (s : string) :
  string_forallb is_hexdigit s = true -> Nat.even (String.length s) = true ->
  exists b, unhexlify s = OK b.
Proof.
  intros Hd. unfold unhexlify. rewrite (hexdigits_isascii s Hd). revert Hd.
  induction s as [| c | c1 c2 r IH] using string_pair_ind.
  - exists []. reflexivity.
  - discriminate.
  - cbn [string_forallb String.length]. intros [H1 [H2 Hr]%andb_prop]%andb_prop He.
    apply is_hexdigit_value in H1 as (h & H1). apply is_hexdigit_value in H2 as (l & H2).
    destruct (byte_of_pair h l) as (x & Hx); eauto using hex_value_bound.
    destruct (IH Hr) as (bs & Hbs); [exact He|].
    exists (x :: bs). cbn [unhexlify_digits]. now rewrite H1, H2, Hx, Hbs.
Qed.

Lemma unhexlify_digits_not_hex (s : string) :
  string_forallb is_hexdigit s = false -> unhexlify_digits s = Raise BinasciiError.
Proof.
  induction s as [| c | c1 c2 r IH] using string_pair_ind.
  - discriminate.
  - reflexivity.
  - cbn [unhexlify_digits string_forallb]. unfold is_hexdigit at 1 2.
    destruct (hex_value c1) as [h|]; [|reflexivity].
    destruct (hex_value c2) as [l|]; [|reflexivity].
    cbn [andb]. intros Hr. rewrite (IH Hr).
    now destruct (Byte.of_N (16 * h + l)).
Qed.

(** The string is checked as a whole before it is read: one character
    outside ASCII gives [ValueError], wherever it stands. *)
Lemma unhexlify_not_hex (s : string) :
  string_forallb is_hexdigit s = false ->
  unhexlify s = Raise (if isascii s then BinasciiError else ValueError).
Proof.
  intros H. unfold unhexlify. destruct (isascii s); [|reflexivity].
  now apply unhexlify_digits_not_hex.
Qed.

Lemma remove_prefix_prefixed (s : string) :
  is_0x_prefixed s = true ->
  exists c r, s = String "0" (String c r) /\ remove_0x_prefix s = r.
Proof.
  intros Hp. destruct (is_0x_prefixed_inv s Hp) as (c & r & -> & _).
  exists c, r. split; [reflexivity|].
  unfold remove_0x_prefix. rewrite Hp. cbn. rewrite Nat.sub_0_r. apply substring_all.
Qed.

Lemma isascii_remove_prefix (s : string) : isascii (remove_0x_prefix s) = isascii s.
Proof.
  destruct (is_0x_prefixed s) eqn:Hp.
  - destruct (remove_prefix_prefixed s Hp) as (c & r & -> & ->).
    destruct c as [[] [] [] [] [] [] [] []]; cbn in Hp; try discriminate Hp; reflexivity.
  - unfold remove_0x_prefix. now rewrite Hp.
Qed.

Lemma length_remove_prefix_odd (s : string) :
  Nat.odd (String.length (remove_0x_prefix s)) = Nat.odd (String.length s).
Proof.
  destruct (is_0x_prefixed s) eqn:Hp.
  - destruct (remove_prefix_prefixed s Hp) as (c & r & -> & ->). reflexivity.
  - unfold remove_0x_prefix. now rewrite Hp.
Qed.

(** What [to_bytes(hexstr=s)] hands to [unhexlify]. *)
Definition padded (s : string) : string :=
  if Nat.odd (String.length s)
  then String "0" (remove_0x_prefix s)
  else remove_0x_prefix s.

Lemma to_bytes_eq (s : string) : to_bytes s = unhexlify (padded s).
Proof.
  unfold to_bytes, padded, decode_hex.
  destruct (Nat.odd (String.length s)); [|reflexivity].
  change ("0x0" ++ remove_0x_prefix s)%string
    with ("0x" ++ String "0" (remove_0x_prefix s))%string.
  now rewrite remove_prefix_0x.
Qed.

Lemma padded_hex (s : string) :
  string_forallb is_hexdigit (padded s) = is_hexstr s.
Proof. unfold padded, is_hexstr. now destruct (Nat.odd (String.length s)). Qed.

Lemma padded_even (s : string) : Nat.even (String.length (padded s)) = true.
Proof.
  unfold padded. destruct (Nat.odd (String.length s)) eqn:E.
  - cbn [String.length]. rewrite Nat.even_succ. now rewrite length_remove_prefix_odd.
  - rewrite <- Nat.negb_odd. now rewrite length_remove_prefix_odd, E.
Qed.

(** The digits of a byte, read back. *)
Lemma hex2_of_digits (c1 c2 : ascii) (h l : N) (x : byte) :
  lower_hex c1 = true -> lower_hex c2 = true ->
  hex_value c1 = Some h -> hex_value c2 = Some l ->
  Byte.of_N (16 * h + l) = Some x ->
  hex2 x = String c1 (String c2 EmptyString).
Proof.
  unfold lower_hex. rewrite !existsb_exists.
  intros (d1 & Hin1 & ->%Ascii.eqb_eq) (d2 & Hin2 & ->%Ascii.eqb_eq).
  cbn in Hin1, Hin2.
  repeat (destruct Hin1 as [<-|Hin1]); try contradiction;
    repeat (destruct Hin2 as [<-|Hin2]); try contradiction;
    intros [= <-] [= <-] [= <-]; reflexivity.
Qed.

Lemma hexlify_unhexlify (s : string) (b : bytes) :
  string_forallb lower_hex s = true -> unhexlify s = OK b -> hexlify b = s.
Proof.
  intros Hl H%unhexlify_inv. revert b Hl H. induction s as [| c | c1 c2 r IH] using string_pair_ind; intros b.
  - intros _ [= <-]. reflexivity.
  - discriminate.
  - cbn [string_forallb unhexlify_digits]. intros [H1 [H2 Hr]%andb_prop]%andb_prop.
    destruct (hex_value c1) as [h|] eqn:E1; [|discriminate].
    destruct (hex_value c2) as [l|] eqn:E2; [|discriminate].
    destruct (Byte.of_N (16 * h + l)) as [x|] eqn:Ex; [|discriminate].
    destruct (unhexlify_digits r) as [bs|e] eqn:E; [|discriminate].
    intros [= <-]. cbn [hexlify].
    rewrite (hex2_of_digits c1 c2 h l x), (IH bs); auto.
Qed.

End hex_more.

(** [deserialize_bytes] returns exactly on the hexadecimal strings, with
    or without the prefix and in either case. A string of odd length is
    read as if it had a leading zero, so that the result has one byte for
    two digits, rounded up. Any other string is refused: with [ValueError]
    when it has a character outside ASCII, with [binascii.Error] when its
    characters are ASCII but not all hexadecimal digits. *)
Theorem deserialize_bytes_accepts (data : string) :
  (eth_utils.is_hexstr data = true ->
   exists b,
     deserialize_bytes data = OK b /\
     2 * List.length b
     = String.length (eth_utils.remove_0x_prefix data)
       + Nat.b2n (Nat.odd (String.length data))) /\
  (eth_utils.isascii data = false -> deserialize_bytes data = Raise ValueError) /\
  (eth_utils.isascii data = true -> eth_utils.is_hexstr data = false ->
   deserialize_bytes data = Raise BinasciiError).
Proof.
  unfold deserialize_bytes. rewrite hex_more.to_bytes_eq.
  assert (Ha : eth_utils.isascii (hex_more.padded data) = eth_utils.isascii data).
  { unfold hex_more.padded. destruct (Nat.odd (String.length data)).
    - change (eth_utils.isascii (String "0" (eth_utils.remove_0x_prefix data)))
        with (eth_utils.isascii (eth_utils.remove_0x_prefix data)).
      apply hex_more.isascii_remove_prefix.
    - apply hex_more.isascii_remove_prefix. }
  split; [|split].
  - intros H. destruct (hex_more.unhexlify_total (hex_more.padded data)) as (b & Hb).
    + now rewrite hex_more.padded_hex.
    + apply hex_more.padded_even.
    + exists b. split; [assumption|].
      apply hex_more.unhexlify_OK in Hb as [_ Hl]. rewrite <- Hl.
      unfold hex_more.padded. destruct (Nat.odd (String.length data)); cbn; lia.
  - intros H. unfold eth_utils.unhexlify. now rewrite Ha, H.
  - intros H Hh. rewrite hex_more.unhexlify_not_hex by now rewrite hex_more.padded_hex.
    now rewrite Ha, H.
Qed.

Lemma deserialize_bytes_accepts_witness :
  (exists b,
     deserialize_bytes "0xABc" = OK b /\
     2 * List.length b
     = String.length (eth_utils.remove_0x_prefix "0xABc")
       + Nat.b2n (Nat.odd (String.length "0xABc"))) /\
  deserialize_bytes (String (ascii_of_nat 233) (String (ascii_of_nat 233) EmptyString))
  = Raise ValueError /\
  deserialize_bytes "0xzz" = Raise BinasciiError.
Proof.
  split; [|split].
  - apply (proj1 (deserialize_bytes_accepts "0xABc")). reflexivity.
  - apply (proj1 (proj2 (deserialize_bytes_accepts
                           (String (ascii_of_nat 233)
                              (String (ascii_of_nat 233) EmptyString))))).
    reflexivity.
  - apply (proj2 (proj2 (deserialize_bytes_accepts "0xzz"))); reflexivity.
Defined.

(** On the strings that [serialize_bytes] writes (the prefix, then an
    even number of lowercase digits), [serialize_bytes] undoes
    [deserialize_bytes]. *)
Theorem serialize_deserialize_bytes (digits : string) :
  eth_utils.string_forallb address_facts.lower_hex digits = true ->
  Nat.even (String.length digits) = true ->
  exists b,
    deserialize_bytes ("0x" ++ digits) = OK b /\
    serialize_bytes b = ("0x" ++ digits)%string.
Proof.
  intros Hlow Heven.
  destruct (hex_more.unhexlify_total digits) as (b & Hb);
    [now apply address_facts.lower_hex_is_hexstr | assumption |].
  exists b. unfold deserialize_bytes, serialize_bytes. split.
  - rewrite hex_more.to_bytes_eq. unfold hex_more.padded.
    change (String.length ("0x" ++ digits)) with (S (S (String.length digits))).
    rewrite Nat.odd_succ, Nat.even_succ, <- Nat.negb_even, Heven. cbn [negb].
    now rewrite hex_facts.remove_prefix_0x.
  - rewrite hex_facts.to_hex_eq. f_equal.
    now apply hex_more.hexlify_unhexlify.
Qed.

Lemma serialize_deserialize_bytes_witness :
  exists b,
    deserialize_bytes "0x00ff1a" = OK b /\ serialize_bytes b = "0x00ff1a"%string.
Proof.
  apply (serialize_deserialize_bytes "00ff1a"); reflexivity.
Defined.

(** ** The participants of a channel *)

Module participants_more.
Import eth_utils hex_facts address_facts.

Lemma is_hex_address_length (s : string) (b : bytes) :
  is_hex_address s = true -> decode_hex s = OK b -> List.length b = 20.
Proof.
  unfold is_hex_address, decode_hex. intros [_ Hl%Nat.eqb_eq]%andb_prop Hb.
  apply hex_more.unhexlify_OK in Hb as [_ Hb]. lia.
Qed.

Lemma to_canonical_address_length (address : string) (b : bytes) :
  to_canonical_address address = OK b -> List.length b = 20.
Proof.
  unfold to_canonical_address, to_normalized_address_str.
  destruct (negb _ && negb _); [discriminate|].
  destruct (is_hex_address _) eqn:E; [|discriminate].
  cbn [rbind]. now apply is_hex_address_length.
Qed.

Lemma to_normalized_address_bytes_OK (a : bytes) (s : string) :
  to_normalized_address_bytes a = OK s -> List.length a = 20.
Proof.
  unfold to_normalized_address_bytes. rewrite to_hex_eq.
  change (lower ("0x" ++ hexlify a)) with ("0x" ++ lower (hexlify a))%string.
  rewrite lower_lower_hex by apply hexlify_lower_hex.
  destruct (is_hex_address _) eqn:E; [|discriminate]. intros _.
  unfold is_hex_address in E. rewrite remove_prefix_0x, length_hexlify in E.
  apply andb_prop in E as [_ E%Nat.eqb_eq]. lia.
Qed.

Lemma to_normalized_address_bytes_Raise (a : bytes) :
  List.length a <> 20 -> to_normalized_address_bytes a = Raise ValueError.
Proof.
  intros Hne. destruct (to_normalized_address_bytes a) as [s|e] eqn:E.
  - now apply to_normalized_address_bytes_OK in E.
  - unfold to_normalized_address_bytes in E.
    destruct (is_hex_address _); [discriminate | now injection E as <-].
Qed.

Lemma to_checksum_address_Raise (keccak : bytes -> N) (a : bytes) :
  List.length a <> 20 -> to_checksum_address keccak a = Raise ValueError.
Proof.
  intros Hne. unfold to_checksum_address.
  now rewrite to_normalized_address_bytes_Raise.
Qed.

Lemma length_append (s t : string) :
  String.length (s ++ t) = String.length s + String.length t.
Proof. induction s as [|c s IH]; cbn; [reflexivity | now rewrite IH]. Qed.

Lemma checksummed_is_hex_address (h : N) (a : bytes) :
  List.length a = 20 ->
  is_hex_address ("0x" ++ checksum_case h 0 (hexlify a)) = true /\
  String.length ("0x" ++ checksum_case h 0 (hexlify a)) = 42.
Proof.
  intros Hlen. unfold is_hex_address, is_hexstr. rewrite remove_prefix_0x.
  rewrite checksum_case_is_hexstr by apply hexlify_lower_hex.
  cbn [String.length append]. rewrite length_checksum_case, length_hexlify, Hlen.
  split; reflexivity.
Qed.

End participants_more.

(** [serialize_participants_tuple] returns exactly when both addresses
    have 20 bytes, and raises [ValueError] otherwise; the two strings it
    returns are hexadecimal addresses of 42 characters, the prefix
    included. *)
Theorem serialize_participants_tuple_addresses (keccak : bytes -> N) (a1 a2 : bytes) :
  (List.length a1 = 20 /\ List.length a2 = 20 ->
   exists s1 s2,
     serialize_participants_tuple keccak (a1, a2) = OK [s1; s2] /\
     eth_utils.is_hex_address s1 = true /\ String.length s1 = 42 /\
     eth_utils.is_hex_address s2 = true /\ String.length s2 = 42) /\
  (List.length a1 <> 20 \/ List.length a2 <> 20 ->
   serialize_participants_tuple keccak (a1, a2) = Raise ValueError).
Proof.
  unfold serialize_participants_tuple. cbn [fst snd]. split.
  - intros [H1 H2].
    destruct (address_facts.to_checksum_address_eq keccak a1 H1) as (h1 & ->).
    destruct (address_facts.to_checksum_address_eq keccak a2 H2) as (h2 & ->).
    cbn [rbind]. eexists _, _. split; [reflexivity|].
    destruct (participants_more.checksummed_is_hex_address h1 a1 H1) as [? ?].
    destruct (participants_more.checksummed_is_hex_address h2 a2 H2) as [? ?].
    auto.
  - intros [H|H].
    + now rewrite participants_more.to_checksum_address_Raise.
    + destruct (Nat.eq_dec (List.length a1) 20) as [H1|H1].
      * destruct (address_facts.to_checksum_address_eq keccak a1 H1) as (h1 & ->).
        cbn [rbind]. now rewrite participants_more.to_checksum_address_Raise.
      * now rewrite participants_more.to_checksum_address_Raise.
Qed.

Lemma serialize_participants_tuple_addresses_witness :
  (exists s1 s2,
     serialize_participants_tuple sample_keccak (repeat x01 20, repeat xff 20)
     = OK [s1; s2] /\
     eth_utils.is_hex_address s1 = true /\ String.length s1 = 42 /\
     eth_utils.is_hex_address s2 = true /\ String.length s2 = 42) /\
  serialize_participants_tuple sample_keccak (repeat x01 20, repeat xff 19)
  = Raise ValueError.
Proof.
  split.
  - apply (proj1 (serialize_participants_tuple_addresses sample_keccak
                    (repeat x01 20) (repeat xff 20))).
    split; reflexivity.
  - apply (proj2 (serialize_participants_tuple_addresses sample_keccak
                    (repeat x01 20) (repeat xff 19))).
    right. cbn. lia.
Defined.

(** [deserialize_participants_tuple] fails its assertion on a list that
    does not have exactly two entries, and what it returns is a pair of
    addresses of 20 bytes. *)
Theorem deserialize_participants_tuple_checks (data : list string) :
  (List.length data <> 2 -> deserialize_participants_tuple data = Raise AssertionError) /\
  (forall a0 a1,
      deserialize_participants_tuple data = OK (a0, a1) ->
      List.length data = 2 /\ List.length a0 = 20 /\ List.length a1 = 20).
Proof.
  unfold deserialize_participants_tuple. split.
  - intros Hne. apply Nat.eqb_neq in Hne. now rewrite Hne.
  - intros a0 a1. destruct (Nat.eqb_spec (List.length data) 2) as [Hl|Hl]; [|discriminate].
    cbn [negb]. destruct data as [|d0 [|d1 rest]]; try discriminate.
    destruct (eth_utils.to_canonical_address d0) as [b0|e] eqn:E0; [|discriminate].
    destruct (eth_utils.to_canonical_address d1) as [b1|e] eqn:E1; [|discriminate].
    intros [= <- <-].
    eauto using participants_more.to_canonical_address_length.
Qed.

Lemma deserialize_participants_tuple_checks_witness :
  deserialize_participants_tuple ["0x00"%string] = Raise AssertionError.
Proof.
  apply (proj1 (deserialize_participants_tuple_checks ["0x00"%string])).
  cbn. lia.
Defined.

(** ** Graphs, in general *)

Module graph_more.
Import networkx graph_facts.

Lemma map_result_Raise {A B} (f : A -> result B) (e : exn) (l : list A) :
  (forall a, In a l -> f a = Raise e \/ exists y, f a = OK y) ->
  (exists a, In a l /\ f a = Raise e) ->
  map_result f l = Raise e.
Proof.
  induction l as [|a l IH]; intros Hall (x & Hin & Hx); [destruct Hin|].
  cbn [map_result]. destruct (Hall a (or_introl eq_refl)) as [->|(y & Hy)]; [reflexivity|].
  rewrite Hy. cbn [rbind]. destruct Hin as [->|Hin]; [congruence|].
  rewrite IH; [reflexivity | intros; apply Hall; now right | eauto].
Qed.

Lemma map_result_In {A B} (f : A -> result B) (l : list A) (l' : list B) :
  map_result f l = OK l' ->
  forall y, In y l' -> exists a, In a l /\ f a = OK y.
Proof.
  revert l'. induction l as [|a l IH]; intros l'; cbn [map_result].
  - intros [= <-] y [].
  - destruct (f a) as [b|] eqn:E; [|discriminate]. cbn [rbind].
    destruct (map_result f l) as [bs|]; [|discriminate]. intros [= <-] y [<-|Hy].
    + exists a. split; [now left | assumption].
    + destruct (IH bs eq_refl y Hy) as (x & Hx & Hfx). exists x.
      split; [now right | assumption].
Qed.

Lemma dumps_edge_cases (e : node * node) :
  dumps_edge e = Raise TypeError \/ exists y, dumps_edge e = OK y.
Proof. destruct e as [[| |] [| |]]; cbn; eauto. Qed.

Lemma loads_edge_json (d : json.doc) (u v : node) :
  loads_edge d = OK (u, v) -> (forall x, u <> NBytes x) /\ (forall x, v <> NBytes x).
Proof.
  destruct d as [| | | |items|]; try discriminate.
  destruct items as [|a [|b [|c [|? ?]]]]; try discriminate.
  - destruct a, b; try discriminate; intros [= <- <-]; split; discriminate.
  - destruct c; try discriminate;
      destruct a, b; try discriminate; intros [= <- <-]; split; discriminate.
  - cbn. now destruct c.
Qed.

Lemma loads_edges_OK (items : list json.doc) :
  forallb (fun item =>
             match item with
             | JArr [u; v] => node_document u && node_document v
             | _ => false
             end) items = true ->
  exists l, map_result loads_edge items = OK l.
Proof.
  induction items as [|d items IH]; cbn [forallb map_result]; [eauto|].
  intros [Hd Hi]%andb_prop. destruct (IH Hi) as (l & ->).
  destruct d as [| | | |[|u [|v [|? ?]]]|]; try discriminate.
  apply andb_prop in Hd as [Hu Hv].
  destruct u; try discriminate; destruct v; try discriminate; cbn; eauto.
Qed.

(** *** The invariant of the class is kept *)

Lemma NoDup_add_last (n : node) (l : list node) :
  NoDup l -> ~ In n l -> NoDup (l ++ [n]).
Proof.
  induction 1 as [|x l Hx Hl IH]; cbn; intros Hn.
  - constructor; [auto | constructor].
  - constructor.
    + rewrite in_app_iff. cbn. intuition congruence.
    + apply IH. tauto.
Qed.

Lemma add_node_NoDup g n : NoDup (_node g) -> NoDup (_node (add_node g n)).
Proof.
  unfold add_node. intros H. destruct (mem n (_node g)) eqn:E; [assumption|].
  cbn. apply NoDup_add_last; [assumption | now apply mem_not_In].
Qed.

Lemma add_edge_NoDup g e : NoDup (_node g) -> NoDup (_node (add_edge g e)).
Proof. destruct e as [u v]. cbn. intros H. now apply add_node_NoDup, add_node_NoDup. Qed.

Lemma from_edgelist_NoDup l : NoDup (_node (from_edgelist l)).
Proof.
  unfold from_edgelist.
  assert (H : forall g, NoDup (_node g) -> NoDup (_node (fold_left add_edge l g))).
  { induction l as [|e l IH]; intros g Hg; cbn; [assumption|].
    apply IH. now apply add_edge_NoDup. }
  apply H. constructor.
Qed.

Lemma NoDup_nodupb (l : list node) : NoDup l -> nodupb l = true.
Proof.
  induction 1 as [|n l Hn Hl IH]; cbn; [reflexivity|].
  apply mem_not_In in Hn. now rewrite Hn, IH.
Qed.

Lemma nodes_eqb_refl (l : list node) : nodes_eqb l l = true.
Proof. induction l as [|a l IH]; cbn; [reflexivity|]. now rewrite node_eqb_refl. Qed.

Lemma from_edgelist_consistent l : consistent (from_edgelist l) = true.
Proof.
  destruct (fold_add_edge_spec l empty eq_refl) as (Hk & _ & _).
  destruct (from_edgelist_spec l) as [_ Ha].
  pose proof (from_edgelist_NoDup l) as Hnd.
  fold (from_edgelist l) in Hk. cbn zeta in Ha.
  unfold consistent. unfold keyed in Hk. rewrite Hk, nodes_eqb_refl, NoDup_nodupb by assumption.
  cbn [andb]. apply forallb_forall. intros [n nbrs] Hin. cbn [fst snd].
  apply forallb_forall. intros v Hv. apply mem_In. apply Ha.
  assert (Hn : In v (neighbors (from_edgelist l) n)).
  { unfold neighbors. rewrite (adj_get_of_In _ n nbrs); [assumption | | assumption].
    now rewrite Hk. }
  apply Ha in Hn. tauto.
Qed.

End graph_more.

(** A document that is a list of edges between integer and string
    nodes is always read as a graph. The graph keeps the invariant of
    [networkx.Graph], has integer and string nodes only, and has no node
    without an edge: it is a graph that is written and read back without
    loss. *)
Theorem deserialize_networkx_graph_invariant (data : json.doc) :
  edge_list_document data = true ->
  exists g,
    deserialize_networkx_graph data = OK g /\
    networkx.consistent g = true /\
    networkx.json_nodes g = true /\
    networkx.no_isolated_node g = true.
Proof.
  unfold deserialize_networkx_graph, edge_list_document.
  destruct data as [| | | |items|]; try discriminate.
  intros (l & E)%graph_more.loads_edges_OK. rewrite E. cbn [rbind].
  exists (networkx.from_edgelist l). split; [reflexivity|].
  destruct (graph_facts.from_edgelist_spec l) as [Hn Ha]. cbn zeta in Hn, Ha.
  split; [apply graph_more.from_edgelist_consistent|]. split.
  - apply forallb_forall. intros n ([u v] & Hin & Hx)%Hn.
    destruct (graph_more.map_result_In _ _ _ E _ Hin) as (d & _ & Hd).
    apply graph_more.loads_edge_json in Hd as [Hu Hv]. cbn in Hx.
    destruct n as [| |x]; try reflexivity.
    destruct Hx as [Hx|Hx]; symmetry in Hx; [now destruct (Hu x) | now destruct (Hv x)].
  - apply forallb_forall. intros n ([u v] & Hin & Hx)%Hn. cbn in Hx.
    destruct (networkx.neighbors (networkx.from_edgelist l) n) as [|m ms] eqn:En;
      [|reflexivity].
    exfalso. destruct Hx as [->| ->].
    + assert (H : In v (networkx.neighbors (networkx.from_edgelist l) u))
        by (apply Ha; auto).
      now rewrite En in H.
    + assert (H : In u (networkx.neighbors (networkx.from_edgelist l) v))
        by (apply Ha; auto).
      now rewrite En in H.
Qed.

Lemma deserialize_networkx_graph_invariant_witness :
  exists g,
    deserialize_networkx_graph
      (JArr [JArr [JNum 1; JStr "a"]; JArr [JStr "a"; JStr "a"]]) = OK g /\
    networkx.consistent g = true /\
    networkx.json_nodes g = true /\
    networkx.no_isolated_node g = true.
Proof.
  apply (deserialize_networkx_graph_invariant
           (JArr [JArr [JNum 1; JStr "a"]; JArr [JStr "a"; JStr "a"]])).
  reflexivity.
Defined.

(** For every graph with integer and string nodes, isolated nodes or
    not, the graph read back from the serialized form has the adjacency of
    the graph, and its nodes are the nodes of the graph that have an edge:
    the edges are never lost, the nodes without an edge always are. *)
Theorem deserialize_serialize_networkx_edges (g : networkx.Graph) :
  networkx.consistent g = true ->
  networkx.json_nodes g = true ->
  exists items g',
    serialize_networkx_graph g = OK (JArr items) /\
    deserialize_networkx_graph (JArr items) = OK g' /\
    (forall u v, In v (networkx.neighbors g' u) <-> In v (networkx.neighbors g u)) /\
    (forall n, In n (networkx._node g') <->
               In n (networkx._node g) /\ networkx.neighbors g n <> []).
Proof.
  intros Hg Hj.
  destruct (graph_facts.dumps_edges_OK (networkx.edges g)) as [Hd Hl].
  { unfold networkx.json_nodes in Hj. rewrite forallb_forall in Hj.
    intros a b [Ha Hb]%(graph_facts.edges_endpoints g Hg).
    split; intros x ->; [apply Hj in Ha | apply Hj in Hb]; discriminate. }
  exists (map graph_facts.edge_doc (networkx.edges g)),
         (networkx.from_edgelist (networkx.edges g)).
  split; [unfold serialize_networkx_graph; now rewrite Hd|].
  split; [unfold deserialize_networkx_graph; now rewrite Hl|].
  destruct (graph_facts.from_edgelist_spec (networkx.edges g)) as [Hn Ha].
  cbn zeta in Hn, Ha.
  assert (Hadj : forall u v,
    In v (networkx.neighbors g u) <->
    In (u, v) (networkx.edges g) \/ In (v, u) (networkx.edges g)).
  { intros u v. split.
    - apply graph_facts.neighbors_edges, Hg.
    - intros [H|H].
      + now apply graph_facts.edges_neighbors.
      + apply graph_facts.consistent_sym; [assumption|].
        now apply graph_facts.edges_neighbors. }
  split.
  - intros u v. now rewrite Ha, Hadj.
  - intros n. rewrite Hn. split.
    + intros ([a b] & He & Hx). cbn in Hx.
      pose proof (graph_facts.edges_endpoints g Hg _ _ He) as [Hna Hnb].
      pose proof (graph_facts.edges_neighbors g Hg _ _ He) as Hab.
      pose proof (graph_facts.consistent_sym g Hg _ _ Hab) as Hba.
      destruct Hx as [->| ->]; (split; [assumption|]); intros E;
        [now rewrite E in Hab | now rewrite E in Hba].
    + intros [_ Hne].
      destruct (networkx.neighbors g n) as [|m ms] eqn:E; [congruence|].
      assert (Hm : In m (networkx.neighbors g n)) by (rewrite E; now left).
      apply Hadj in Hm as [Hm|Hm]; eexists; (split; [eassumption|]); cbn; auto.
Qed.

Lemma deserialize_serialize_networkx_edges_witness :
  let g := networkx.add_node
             (networkx.from_edgelist [(networkx.NInt 1, networkx.NInt 2)])
             (networkx.NInt 3) in
  exists items g',
    serialize_networkx_graph g = OK (JArr items) /\
    deserialize_networkx_graph (JArr items) = OK g' /\
    (forall u v, In v (networkx.neighbors g' u) <-> In v (networkx.neighbors g u)) /\
    (forall n, In n (networkx._node g') <->
               In n (networkx._node g) /\ networkx.neighbors g n <> []).
Proof.
  intros g. apply (deserialize_serialize_networkx_edges g); reflexivity.
Defined.

(** A graph with an edge at a [bytes] node has no serialized form:
    [json.dumps] raises [TypeError]. *)
Theorem serialize_networkx_graph_bytes_node
  (g : networkx.Graph) (a b : networkx.node) (x : bytes) :
  In (a, b) (networkx.edges g) ->
  a = networkx.NBytes x \/ b = networkx.NBytes x ->
  serialize_networkx_graph g = Raise TypeError.
Proof.
  intros Hin Hx. unfold serialize_networkx_graph.
  rewrite (graph_more.map_result_Raise dumps_edge TypeError); [reflexivity | |].
  - intros e _. apply graph_more.dumps_edge_cases.
  - exists (a, b). split; [assumption|].
    destruct Hx as [->| ->]; [reflexivity|]. now destruct a.
Qed.

Lemma serialize_networkx_graph_bytes_node_witness :
  serialize_networkx_graph
    (networkx.from_edgelist [(networkx.NBytes [x01], networkx.NInt 2)])
  = Raise TypeError.
Proof.
  apply (serialize_networkx_graph_bytes_node _
           (networkx.NBytes [x01]) (networkx.NInt 2) [x01]).
  - now left.
  - now left.
Defined.

(** ** The JSON encoder and decoder, in general *)

Module json_more.
Import json_facts.

Local Open Scope string_scope.

(** A name without a dot. *)
Definition plain_name (s : string) : bool :=
  eth_utils.string_forallb (fun c => negb (Ascii.eqb c ".")) s.

Lemma rsplit_dot_plain (s : string) : plain_name s = true -> rsplit_dot s = None.
Proof.
  induction s as [|c s IH]; [reflexivity|]. cbn.
  intros [Hc Hs]%andb_prop. rewrite (IH Hs).
  now destruct (Ascii.eqb c ".").
Qed.

(** The class path is split at its last dot. *)
Lemma rsplit_dot_path (module_ name : string) :
  plain_name name = true -> rsplit_dot (module_ ++ "." ++ name) = Some (module_, name).
Proof.
  intros Hn. induction module_ as [|c m IH].
  - cbn. now rewrite rsplit_dot_plain.
  - cbn [append rsplit_dot]. cbn [append] in IH. now rewrite IH.
Qed.

Lemma dict_set_fresh {V} (d : list (string * V)) (k : string) (v : V) :
  ~ In k (map fst d) -> dict_set d k v = (d ++ [(k, v)])%list.
Proof.
  induction d as [|[k0 v0] d IH]; cbn; [reflexivity|]. intros Hn.
  destruct (String.eqb_spec k0 k) as [->|_]; [tauto|]. rewrite IH; tauto.
Qed.

Lemma dict_set_keys {V} (d : list (string * V)) (k : string) (v : V) :
  map fst (dict_set d k v)
  = if dict_has d k then map fst d else (map fst d ++ [k])%list.
Proof.
  unfold dict_has. induction d as [|[k0 v0] d IH]; cbn; [reflexivity|].
  destruct (String.eqb_spec k0 k) as [->|Hne]; cbn; [reflexivity|].
  rewrite IH. now destruct (dict_get d k).
Qed.

Lemma dict_set_NoDup {V} (d : list (string * V)) (k : string) (v : V) :
  NoDup (map fst d) -> NoDup (map fst (dict_set d k v)).
Proof.
  intros Hnd. rewrite dict_set_keys. unfold dict_has.
  destruct (dict_get d k) eqn:E; [assumption|].
  apply dict_facts.dict_get_None in E.
  apply NoDup_app; [assumption | repeat constructor; auto | ].
  intros x Hx [<-|[]]. contradiction.
Qed.

Lemma dict_of_pairs_NoDup (pairs : list (string * pyobj)) :
  NoDup (map fst pairs) -> dict_of_pairs pairs = pairs.
Proof.
  unfold dict_of_pairs. intros Hnd.
  assert (H : forall acc,
             NoDup (map fst (acc ++ pairs)) ->
             fold_left (fun d kv => dict_set d (fst kv) (snd kv)) pairs acc
             = (acc ++ pairs)%list).
  { clear Hnd. induction pairs as [|[k v] l IH]; intros acc Hnd; cbn.
    - now rewrite app_nil_r.
    - rewrite dict_set_fresh.
      + rewrite IH; rewrite <- app_assoc; [reflexivity | assumption].
      + rewrite map_app in Hnd. cbn in Hnd. apply NoDup_remove_2 in Hnd.
        rewrite in_app_iff in Hnd. tauto. }
  apply (H []). assumption.
Qed.

Lemma In_dict_set {V} (d : list (string * V)) (k : string) (v : V) (kv : string * V) :
  In kv (dict_set d k v) -> kv = (k, v) \/ In kv d.
Proof.
  induction d as [|[k0 v0] d IH]; cbn.
  - intros [<-|[]]. now left.
  - destruct (String.eqb_spec k0 k) as [->|_]; cbn.
    + intros [<-|H]; auto.
    + intros [<-|H]; auto. destruct (IH H); auto.
Qed.

Lemma _import_type_split (env : modules) (module_ name : string) :
  plain_name name = true ->
  _import_type env (module_ ++ "." ++ name)
  = (classes <- import_module env module_ ;;
     match dict_get classes name with
     | None => Raise TypeError
     | Some k => OK k
     end)%res.
Proof. intros Hn. unfold _import_type. now rewrite rsplit_dot_path. Qed.

Lemma _import_type_found (env : modules) (module_ name : string)
  (classes : list (string * klass)) (k : klass) :
  plain_name name = true ->
  dict_get env module_ = Some classes ->
  dict_get classes name = Some k ->
  _import_type env (module_ ++ "." ++ name) = OK k.
Proof.
  intros Hn Hm Hk. rewrite _import_type_split by assumption.
  unfold import_module. rewrite Hm. cbn [rbind]. now rewrite Hk.
Qed.

(** No module is imported under a name that is not absolute. *)
Lemma importable_absolute (env : modules) (name : string) :
  importable env = true -> absolute_name name = false -> dict_get env name = None.
Proof.
  unfold importable. intros He Hn. induction env as [|[m classes] env IH]; [reflexivity|].
  cbn [forallb fst] in He. apply andb_prop in He as [Hm He]. cbn [dict_get].
  destruct (String.eqb_spec m name) as [->|_]; [congruence | auto].
Qed.

End json_more.

Local Open Scope string_scope.

(** [_import_type] splits the class path at its last dot, so that the
    module name may itself be dotted. For a module name that is absolute
    it raises [ModuleNotFoundError] when the module cannot be imported and
    [TypeError] when the module has no class of that name, and else it
    returns the class. The module name is empty for a path without a dot
    and for a path whose only dot comes first: these raise [ValueError].
    Any other path that starts with a dot names a relative module and
    raises [TypeError]. *)
Theorem _import_type_path (env : modules) (module_ name : string) :
  importable env = true ->
  json_more.plain_name name = true ->
  (absolute_name module_ = true -> dict_get env module_ = None ->
   _import_type env (module_ ++ "." ++ name) = Raise ModuleNotFoundError) /\
  (forall classes,
      dict_get env module_ = Some classes ->
      dict_get classes name = None ->
      _import_type env (module_ ++ "." ++ name) = Raise TypeError) /\
  (forall classes k,
      dict_get env module_ = Some classes ->
      dict_get classes name = Some k ->
      _import_type env (module_ ++ "." ++ name) = OK k) /\
  _import_type env name = Raise ValueError /\
  _import_type env ("." ++ name) = Raise ValueError /\
  (forall rest, _import_type env ("." ++ rest ++ "." ++ name) = Raise TypeError).
Proof.
  intros He Hn. split; [|split; [|split; [|split; [|split]]]].
  - intros Ha Hm. rewrite json_more._import_type_split by assumption.
    unfold import_module. rewrite Hm.
    destruct module_ as [|c m]; [discriminate|]. cbn in Ha.
    destruct c as [[] [] [] [] [] [] [] []]; try reflexivity; discriminate.
  - intros classes Hm Hk. rewrite json_more._import_type_split by assumption.
    unfold import_module. rewrite Hm. cbn [rbind]. now rewrite Hk.
  - intros classes k. now apply json_more._import_type_found.
  - unfold _import_type. rewrite json_more.rsplit_dot_plain by assumption.
    unfold import_module.
    now rewrite (json_more.importable_absolute env "" He eq_refl).
  - change (_import_type env ("." ++ name))
      with (_import_type env ("" ++ "." ++ name)).
    rewrite (json_more._import_type_split env "" name Hn). unfold import_module.
    now rewrite (json_more.importable_absolute env "" He eq_refl).
  - intros rest.
    change ("." ++ rest ++ "." ++ name) with (("." ++ rest) ++ "." ++ name).
    rewrite json_more._import_type_split by assumption. unfold import_module.
    now rewrite (json_more.importable_absolute env ("." ++ rest) He eq_refl).
Qed.

Lemma _import_type_path_witness :
  (absolute_name "app.state" = true -> dict_get entity_modules "app.state" = None ->
   _import_type entity_modules ("app.state" ++ "." ++ "Entity") = Raise ModuleNotFoundError) /\
  (forall classes,
      dict_get entity_modules "app.state" = Some classes ->
      dict_get classes "Entity" = None ->
      _import_type entity_modules ("app.state" ++ "." ++ "Entity") = Raise TypeError) /\
  (forall classes k,
      dict_get entity_modules "app.state" = Some classes ->
      dict_get classes "Entity" = Some k ->
      _import_type entity_modules ("app.state" ++ "." ++ "Entity") = OK k) /\
  _import_type entity_modules "Entity" = Raise ValueError /\
  _import_type entity_modules ("." ++ "Entity") = Raise ValueError /\
  (forall rest,
      _import_type entity_modules ("." ++ rest ++ "." ++ "Entity") = Raise TypeError).
Proof.
  apply (_import_type_path entity_modules "app.state" "Entity"); reflexivity.
Defined.

(** The round trip of the encoder and the decoder, where it holds: an
    instance of a class that has [to_dict] and [from_dict], whose dict form
    holds scalars and lists only, and whose [from_dict] builds the instance
    back from the dict form with [_type], is encoded and decoded to
    itself. *)
Theorem json_decode_encode_flat
  (env : modules) (module_ name : string) (attrs data : list (string * pyobj))
  (k : klass)
  (obj_to_dict : list (string * pyobj) -> result (list (string * pyobj)))
  (klass_from_dict : list (string * pyobj) -> result pyobj) (depth : nat) :
  class_of env module_ name = Some k ->
  to_dict k = Some obj_to_dict ->
  from_dict k = Some klass_from_dict ->
  json_more.plain_name name = true ->
  obj_to_dict attrs = OK data ->
  NoDup (map fst data) ->
  (forall kv, In kv data -> flat (snd kv) = true /\ height (snd kv) + 3 <= depth) ->
  3 <= depth ->
  klass_from_dict (dict_set data "_type" (PStr (module_ ++ "." ++ name)))
  = OK (PInstance module_ name attrs) ->
  exists d,
    json_encode env depth (PInstance module_ name attrs) = OK d /\
    json_decode env d = OK (PInstance module_ name attrs).
Proof.
  intros Hclass Hto Hfrom Hname Hdata Hnd Hflat Hdepth Hback.
  destruct depth as [|[|depth]]; try lia.
  set (typed := dict_set data "_type" (PStr (module_ ++ "." ++ name))) in *.
  destruct (json_facts.map_result_inverse
              (fun kv : string * pyobj =>
                 (d <- dumps env depth (snd kv) ;; OK (fst kv, d))%res)
              (fun kv : string * json.doc =>
                 (o <- loads env (snd kv) ;; OK (fst kv, o))%res)
              typed) as (members & Hdumps & Hloads).
  { intros [key v] Hin. cbn [fst snd].
    assert (Hv : flat v = true /\ height v < depth).
    { apply json_more.In_dict_set in Hin as [[= -> ->]|Hin].
      - cbn. split; [reflexivity | lia].
      - destruct (Hflat _ Hin) as [Hf Hh]. cbn in Hf, Hh. split; [assumption | lia]. }
    destruct Hv as [Hf Hh].
    destruct (json_facts.loads_dumps_flat env depth v Hh Hf) as (d & Hd & Hl).
    exists (key, d). rewrite Hd. cbn. now rewrite Hl. }
  exists (JObj members). unfold json_encode, json_decode. split.
  - cbn [dumps default]. rewrite Hclass. destruct k as [td fd]. cbn in Hto, Hfrom.
    subst td fd. rewrite Hdata. cbn [rbind dumps]. fold typed. now rewrite Hdumps.
  - cbn [loads]. rewrite Hloads. cbn [rbind].
    rewrite json_more.dict_of_pairs_NoDup by now apply json_more.dict_set_NoDup.
    unfold object_hook, dict_has. unfold typed at 1 2.
    rewrite json_facts.dict_set_same.
    unfold class_of in Hclass.
    destruct (dict_get env module_) as [classes|] eqn:Hm; [|discriminate].
    rewrite (json_more._import_type_found env module_ name classes k Hname Hm Hclass).
    cbn [rbind]. rewrite Hfrom. exact Hback.
Qed.

Lemma json_decode_encode_flat_witness :
  exists d,
    json_encode entity_modules 4 flat_entity = OK d /\
    json_decode entity_modules d = OK flat_entity.
Proof.
  apply (json_decode_encode_flat entity_modules "app.state" "Entity"
           [("name", PStr "channel"); ("nonces", PList [PInt 1; PInt 2])]
           [("name", PStr "channel"); ("nonces", PList [PInt 1; PInt 2])]
           Entity (fun attrs => OK attrs)
           (fun data => OK (PInstance "app.state" "Entity" (dict_pop data "_type"))) 4);
    try reflexivity.
  - repeat constructor; cbn; intuition discriminate.
  - intros kv [<-|[<-|[]]]; cbn; split; try reflexivity; lia.
  - lia.
Defined.

Local Close Scope string_scope.

(** ** Random values *)

Module random_more.

(** The generator after [n] more calls to the functions of [random]. *)
Definition advance (g : rng) (n : nat) : rng := mkRng (source g) (position g + n).

Lemma advance_0 (g : rng) : advance g 0 = g.
Proof. destruct g. unfold advance. cbn. now rewrite Nat.add_0_r. Qed.

Lemma advance_advance (g : rng) (n m : nat) : advance (advance g n) m = advance g (n + m).
Proof. unfold advance. cbn. now rewrite Nat.add_assoc. Qed.

Lemma choice_printable (g : rng) :
  exists c, random.choice printable x00 g = OK (c, advance g 1) /\ In c printable.
Proof.
  unfold random.choice, bind, random.draw, ret, advance. eexists. split.
  - rewrite Nat.add_1_r. reflexivity.
  - apply nth_In. apply Nat.mod_upper_bound. discriminate.
Qed.

Lemma mapM_choice {A} (l : list A) : forall g,
  exists bs,
    mapM (fun _ : A => random.choice printable x00) l g
    = OK (bs, advance g (List.length l)) /\
    List.length bs = List.length l /\ Forall (fun c => In c printable) bs.
Proof.
  induction l as [|a l IH]; intros g.
  - exists []. cbn. unfold ret. rewrite advance_0. auto.
  - destruct (choice_printable g) as (c & Ec & Hc).
    destruct (IH (advance g 1)) as (bs & Ebs & Hl & Hf).
    exists (c :: bs). cbn [mapM]. rewrite (bind_OK _ Ec), (bind_OK _ Ebs).
    unfold ret. rewrite advance_advance. cbn. auto.
Qed.

Lemma random_printable_spec (n : nat) (g : rng) :
  exists bs,
    random_printable n g = OK (VBytes bs, advance g n) /\
    List.length bs = n /\ Forall (fun c => In c printable) bs.
Proof.
  destruct (mapM_choice (seq 0 n) g) as (bs & E & Hl & Hf).
  rewrite length_seq in E, Hl.
  exists bs. unfold random_printable. rewrite (bind_OK _ E). unfold ret. auto.
Qed.

End random_more.

(** [make_address] returns 20 bytes and [make_32bytes] returns 32, each
    the code of a character of [string.printable], after as many calls of
    [random.choice]. *)
Theorem make_address_printable (g : rng) :
  (exists b,
      make_address g = OK (VBytes b, random_more.advance g 20) /\
      List.length b = 20 /\ Forall (fun c => In c printable) b) /\
  (exists b,
      make_32bytes g = OK (VBytes b, random_more.advance g 32) /\
      List.length b = 32 /\ Forall (fun c => In c printable) b).
Proof. split; apply random_more.random_printable_spec. Qed.

(** [make_checksum_address] never fails: the address drawn has 20 bytes,
    so it has a checksummed form; the string is a hexadecimal address and
    [to_canonical_address] gives the address back. *)
Theorem make_checksum_address_canonical {collaborators : Collaborators} (g : rng) :
  exists b s,
    make_address g = OK (VBytes b, random_more.advance g 20) /\
    make_checksum_address g = OK (VStr s, random_more.advance g 20) /\
    eth_utils.is_hex_address s = true /\
    eth_utils.to_canonical_address s = OK b.
Proof.
  destruct (random_more.random_printable_spec 20 g) as (b & E & Hl & _).
  destruct (address_facts.to_checksum_address_eq keccak b Hl) as (h & Hs).
  exists b, ("0x" ++ eth_utils.checksum_case h 0 (eth_utils.hexlify b))%string.
  split; [exact E|]. split; [|split].
  - unfold make_checksum_address. change make_address with (random_printable 20).
    rewrite (bind_OK _ E). cbv beta. unfold bind, lift, as_bytes, ret.
    now rewrite Hs.
  - now apply participants_more.checksummed_is_hex_address.
  - now apply address_facts.to_canonical_checksummed.
Qed.

(** [make_privatekey_address] keeps the key that it is given and derives
    the address from it, and draws a key of 32 characters otherwise; in
    both cases it draws the 32 characters, the default of [if_empty] being
    evaluated before the call. *)
Theorem make_privatekey_address_draws {collaborators : Collaborators} (g : rng) :
  exists made,
    List.length made = 32 /\
    make_privatekey_address EMPTY g
    = OK ((VBytes made, VBytes (privatekey_to_address made)), random_more.advance g 32) /\
    forall key,
      make_privatekey_address (VBytes key) g
      = OK ((VBytes key, VBytes (privatekey_to_address key)), random_more.advance g 32).
Proof.
  destruct (random_more.random_printable_spec 32 g) as (made & E & Hl & _).
  exists made. split; [assumption|].
  assert (Hm : make_privatekey EMPTY g = OK (VBytes made, random_more.advance g 32)).
  { unfold make_privatekey, make_privatekey_bin. change make_32bytes with (random_printable 32).
    now rewrite (bind_OK _ E). }
  split; [|intros key]; unfold make_privatekey_address; now rewrite (bind_OK _ Hm).
Qed.



(** ** Properties, in general *)

Module properties_more.
Import dict_facts replace_facts properties_facts.

Lemma filter_all {A} (f : A -> bool) (l : list A) :
  forallb f l = true -> filter f l = l.
Proof.
  induction l as [|a l IH]; cbn; [reflexivity|].
  intros [-> Hl]%andb_prop. now rewrite IH.
Qed.

Lemma filter_none {A} (f : A -> bool) (l : list A) :
  (forall a, In a l -> f a = false) -> filter f l = [].
Proof.
  induction l as [|a l IH]; cbn; [reflexivity|]. intros H.
  rewrite (H a (or_introl eq_refl)). apply IH. auto.
Qed.

(** Two dicts with the same keys in the same order and the same values
    are the same dict. *)
Lemma dict_ext {V} (d1 d2 : list (string * V)) :
  map fst d1 = map fst d2 -> NoDup (map fst d1) ->
  (forall k, dict_get d1 k = dict_get d2 k) -> d1 = d2.
Proof.
  revert d2. induction d1 as [|[k1 v1] d1 IH]; intros [|[k2 v2] d2]; cbn;
    try discriminate; [reflexivity|].
  intros [= <- Hk] Hnd Hget. inversion_clear Hnd as [|? ? Hn Hnd'].
  pose proof (Hget k1) as H1. rewrite String.eqb_refl in H1. injection H1 as <-.
  f_equal. apply IH; [assumption | assumption |]. intros k. specialize (Hget k).
  destruct (String.eqb_spec k1 k) as [E|Hne]; [|assumption]. subst k.
  pose proof Hn as Hn2. rewrite Hk in Hn2.
  apply dict_get_None in Hn, Hn2. congruence.
Qed.

Lemma populated_kwargs (d : list (string * value)) :
  forallb (fun kv : string * value => populated (snd kv)) d = true ->
  filter (fun kv : string * value => negb (is_EMPTY (snd kv))) d = d.
Proof.
  intros H. apply filter_all. apply forallb_forall. intros [k v] Hin.
  rewrite forallb_forall in H. specialize (H _ Hin). cbn in *. now destruct v.
Qed.

Section Fixed.

Variable D : pclass -> value.
Hypothesis D_ok : forall cls, D cls = VNone \/ nested_set cls (D cls) = true.
Hypothesis D_nested : forall cls k sub, field_class cls k = Some sub -> D sub <> VNone.

(** The defaults that [create_properties] completes for a nested field. *)
Lemma nested_defaults (n : nat) (cls sub : pclass) (k : string)
  (fd : list (string * value)) (dk full : value) :
  rank sub < n ->
  nested_set cls (VProps cls fd) = true ->
  field_class cls k = Some sub ->
  dict_get fd k = Some dk ->
  (if is_None dk then full = D sub else _replace_properties D n dk (D sub) = OK full) ->
  nested_set sub full = true.
Proof.
  intros Hr Hfull Hsub Hdk Hf.
  apply nested_set_spec in Hfull as (fd' & [= <-] & _ & Hbf & Hbn).
  pose proof (dict_get_In _ _ _ Hdk) as Hin.
  pose proof (Hbf _ Hin) as Hok. pose proof (Hbn _ Hin) as Hne.
  unfold field_ok in Hok. unfold field_set in Hne. cbn [fst snd] in Hok, Hne.
  rewrite Hsub in Hok, Hne.
  pose proof (nested_set_default D D_ok D_nested _ _ _ Hsub) as HD.
  destruct dk as [| | | | | | |c' d'|]; try discriminate.
  - exfalso. apply Hne; congruence.
  - cbn in Hf. now subst full.
  - cbn [is_None] in Hf.
    assert (Hc' : c' = sub).
    { apply instance_of_spec in Hok as (? & [= -> _] & _). reflexivity. }
    subst c'.
    destruct (_replace_properties_typed D D_ok D_nested n sub (VProps sub d') (D sub))
      as (rd & Hrd & Hn); auto.
    rewrite Hrd in Hf. now injection Hf as <-.
Qed.

(** A fully populated instance is its own merge with any defaults. *)
Lemma _replace_properties_fixed (depth : nat) : forall cls r full,
  rank cls < depth ->
  instance_of cls r = true -> populated r = true ->
  nested_set cls full = true ->
  _replace_properties D depth r full = OK r.
Proof.
  induction depth as [|n IH]; intros cls r full Hrank Hr Hpop Hfull; [lia|].
  destruct (_replace_properties_typed D D_ok D_nested (S n) cls r full)
    as (rd & HR & Hrd); auto.
  rewrite HR. f_equal.
  pose proof Hr as Hr'. apply instance_of_spec in Hr' as (pd & -> & Hpk & Hpf).
  f_equal. symmetry.
  apply nested_set_spec in Hrd as (rd' & [= <-] & Hrk & _).
  pose proof Hfull as Hfull'.
  apply nested_set_spec in Hfull' as (fd & -> & Hfk & _).
  assert (Hnd : NoDup (map fst pd)) by (rewrite Hpk; apply field_names_NoDup).
  apply dict_ext; [congruence | assumption |]. intros k.
  apply _replace_properties_inv in HR
    as (n' & c1 & pd1 & c2 & fd1 & rd1 & [= <-] & [= <- <-] & [= <- <-] & [= <-] & _ & _ & Hf).
  specialize (Hf k). cbn [populated] in Hpop.
  rewrite (populated_kwargs _ Hpop) in Hf.
  destruct (dict_get pd k) as [v|] eqn:Hv.
  - destruct Hf as [_ Hf]. pose proof (dict_get_In _ _ _ Hv) as Hin.
    destruct (is_properties v) eqn:Hp; [|now rewrite Hf].
    destruct Hf as (dk & r' & Hdk & HC & ->). f_equal.
    pose proof (Hpf _ Hin) as Hok.
    destruct v as [| | | | | | |c d|]; try discriminate.
    apply field_ok_properties in Hok as (sub & Hsub & -> & Hinst).
    pose proof (field_class_rank _ _ _ Hsub) as Hlt.
    apply create_properties_with_inv in HC as (c1 & d1 & full' & [= <- <-] & Hfull' & HR').
    assert (Hn' : nested_set sub full' = true).
    { apply (nested_defaults n cls sub k fd dk full'); auto. lia. }
    rewrite (IH sub (VProps sub d) full') in HR'; try assumption; try lia.
    + now injection HR' as <-.
    + rewrite forallb_forall in Hpop. apply (Hpop _ Hin).
  - symmetry. apply dict_get_None. rewrite Hrk, <- Hpk. now apply dict_get_None.
Qed.

Lemma create_properties_fixed (cls : pclass) (r defaults : value) :
  instance_of cls r = true -> populated r = true ->
  defaults = VNone \/ instance_of cls defaults = true ->
  D cls <> VNone ->
  create_properties D r defaults = OK r.
Proof.
  intros Hr Hpop Hd HD. destruct (D_ok cls) as [|HDn]; [contradiction|].
  unfold create_properties, create_properties_with.
  pose proof Hr as Hr'. apply instance_of_spec in Hr' as (pd & -> & _).
  cbn [DEFAULTS_of rbind].
  assert (Hfull : exists full,
    (if negb (is_None defaults)
     then _replace_properties D recursion_limit defaults (D cls)
     else OK (D cls)) = OK full /\ nested_set cls full = true).
  { destruct Hd as [->|Hd]; [cbn; eauto|].
    pose proof Hd as Hd'. apply instance_of_spec in Hd' as (dd & -> & _).
    cbn [is_None negb].
    destruct (_replace_properties_typed D D_ok D_nested recursion_limit cls
                (VProps cls dd) (D cls)) as (fd & Hfd & Hfn);
      eauto using rank_lt_limit. }
  destruct Hfull as (full & -> & Hfull). cbn [rbind].
  apply (_replace_properties_fixed recursion_limit cls); auto using rank_lt_limit.
Qed.

(** Nothing to replace: the defaults come back. *)
Lemma _replace_properties_blank (depth : nat) (cls : pclass)
  (pd : list (string * value)) (full : value) :
  (forall kv, In kv pd -> snd kv = EMPTY) ->
  nested_set cls full = true ->
  _replace_properties D (S depth) (VProps cls pd) full = OK full.
Proof.
  intros Hblank Hfull. rewrite _replace_properties_unfold. cbn [kwargs rbind].
  rewrite filter_none; [|intros kv Hin; now rewrite (Hblank kv Hin)].
  cbn [map_result rbind].
  apply nested_set_spec in Hfull as (fd & -> & Hfk & _).
  destruct (replace_OK cls fd [] Hfk) as (rd & Hrd); [intros k []|].
  rewrite Hrd. f_equal. f_equal.
  apply replace_inv in Hrd as (c & bd & rd' & [= <- <-] & [= <-] & Hrk & _ & _ & _ & Hkeep).
  apply dict_ext; [congruence | rewrite Hrk; apply field_names_NoDup |].
  intros k. destruct (dict_get fd k) as [x|] eqn:Hx.
  - now apply Hkeep.
  - apply dict_get_None. rewrite Hrk, <- Hfk. now apply dict_get_None.
Qed.

End Fixed.

End properties_more.

(** A fully populated instance is a fixed point of [create_properties]:
    whatever the defaults, it is returned as it is. In particular
    [create_properties] is idempotent on the classes whose [DEFAULTS] leave
    no field [EMPTY]. *)
Theorem create_properties_fixed_point
  {collaborators : Collaborators} (import_rng : rng)
  (cls : pclass) (properties defaults : value) :
  instance_of cls properties = true ->
  populated properties = true ->
  defaults = VNone \/ instance_of cls defaults = true ->
  DEFAULTS import_rng cls <> VNone ->
  create_properties (DEFAULTS import_rng) properties defaults = OK properties.
Proof.
  intros Hp Hpop Hd HD.
  apply (properties_more.create_properties_fixed (DEFAULTS import_rng)) with (cls := cls);
    auto using DEFAULTS_nested_set.
  intros c k sub H. now apply (DEFAULTS_of_nested import_rng) in H.
Qed.

Lemma create_properties_fixed_point_witness :
  create_properties (DEFAULTS sample_rng)
    (DEFAULTS sample_rng NettingChannelStateProperties) channel_defaults
  = OK (DEFAULTS sample_rng NettingChannelStateProperties).
Proof.
  apply (create_properties_fixed_point sample_rng NettingChannelStateProperties).
  - vm_compute; reflexivity.
  - vm_compute; reflexivity.
  - right. vm_compute; reflexivity.
  - vm_compute; discriminate.
Defined.

(** Properties that leave every field [EMPTY] stand for the defaults:
    without defaults [create_properties] returns the [DEFAULTS] of the
    class, and with defaults it returns what it returns for the defaults
    alone. *)
Theorem create_properties_blank
  {collaborators : Collaborators} (import_rng : rng)
  (cls : pclass) (properties : value) :
  instance_of cls properties = true ->
  (forall k v, getattr properties k = OK v -> v = EMPTY) ->
  DEFAULTS import_rng cls <> VNone ->
  create_properties (DEFAULTS import_rng) properties VNone = OK (DEFAULTS import_rng cls) /\
  forall defaults,
    instance_of cls defaults = true ->
    create_properties (DEFAULTS import_rng) properties defaults
    = create_properties (DEFAULTS import_rng) defaults VNone.
Proof.
  intros Hp Hblank HD.
  pose proof (DEFAULTS_nested_set import_rng) as Hok.
  assert (Hnested : forall c k sub,
             field_class c k = Some sub -> DEFAULTS import_rng sub <> VNone).
  { intros c k sub H. now apply (DEFAULTS_of_nested import_rng) in H. }
  destruct (Hok cls) as [|HDn]; [contradiction|].
  pose proof Hp as Hp'.
  apply properties_facts.instance_of_spec in Hp' as (pd & -> & Hpk & _).
  assert (Hpd : forall kv, In kv pd -> snd kv = EMPTY).
  { intros [k v] Hin. apply (Hblank k). apply properties_facts.getattr_VProps.
    apply properties_facts.dict_get_of_In; [|assumption].
    rewrite Hpk. apply field_names_NoDup. }
  unfold create_properties, create_properties_with. cbn [DEFAULTS_of rbind is_None negb].
  split.
  - now apply properties_more._replace_properties_blank.
  - intros defaults Hd. pose proof Hd as Hd'.
    apply properties_facts.instance_of_spec in Hd' as (dd & -> & _).
    cbn [DEFAULTS_of rbind is_None negb].
    destruct (properties_facts._replace_properties_typed (DEFAULTS import_rng) Hok Hnested
                recursion_limit cls (VProps cls dd) (DEFAULTS import_rng cls))
      as (fd & Hfd & Hfn); auto using properties_facts.rank_lt_limit.
    rewrite Hfd. cbn [rbind].
    now apply properties_more._replace_properties_blank.
Qed.

Lemma create_properties_blank_witness :
  create_properties (DEFAULTS sample_rng)
    (imported (new NettingChannelStateProperties [])) VNone
  = OK (DEFAULTS sample_rng NettingChannelStateProperties) /\
  forall defaults,
    instance_of NettingChannelStateProperties defaults = true ->
    create_properties (DEFAULTS sample_rng)
      (imported (new NettingChannelStateProperties [])) defaults
    = create_properties (DEFAULTS sample_rng) defaults VNone.
Proof.
  apply (create_properties_blank sample_rng NettingChannelStateProperties).
  - vm_compute; reflexivity.
  - intros k v H.
    assert (E : imported (new NettingChannelStateProperties [])
                = VProps NettingChannelStateProperties
                    (map (fun n => (n, EMPTY)) (field_names NettingChannelStateProperties)))
      by reflexivity.
    rewrite E in H. apply properties_facts.getattr_VProps in H.
    apply dict_facts.dict_get_In in H. apply in_map_iff in H as (n & [= _ <-] & _).
    reflexivity.
  - vm_compute; discriminate.
Defined.

(** ** [extract] and [create], in general *)

Section CreateMore.

Context {collaborators : Collaborators}.
Variable import_rng : rng.

Import dict_facts replace_facts properties_facts.

Local Open Scope string_scope.

Lemma _partial_dict_OK (d : list (string * value)) (names : list string) :
  (forall k, In k names -> dict_get d k <> None) ->
  exists kw, _partial_dict d names = OK kw /\ map fst kw = names.
Proof.
  intros H. unfold _partial_dict. induction names as [|n names IH].
  - exists []. split; reflexivity.
  - destruct IH as (kw & Hkw & Hk); [intros; apply H; now right|].
    specialize (H n (or_introl eq_refl)).
    destruct (dict_get d n) as [v|] eqn:Hv; [|congruence].
    exists ((n, v) :: kw). cbn [map_result]. rewrite Hkw. unfold getitem. rewrite Hv.
    cbn. now rewrite Hk.
Qed.

Lemma _partial_dict_KeyError (d : list (string * value)) (names : list string) (k : string) :
  In k names -> dict_get d k = None -> _partial_dict d names = Raise KeyError.
Proof.
  intros Hin Hk. unfold _partial_dict. apply graph_more.map_result_Raise.
  - intros n _. unfold getitem. destruct (dict_get d n); cbn; eauto.
  - exists k. split; [assumption|]. unfold getitem. now rewrite Hk.
Qed.

(** What [mapM] returns, element by element. *)
Lemma mapM_inv {A B} (f : A -> M B) (l : list A) : forall g ys g',
  mapM f l g = OK (ys, g') ->
  Forall2 (fun a y => exists g0 g1, f a g0 = OK (y, g1)) l ys.
Proof.
  induction l as [|a l IH]; intros g ys g' H; cbn [mapM] in H.
  - injection H as <- _. constructor.
  - apply bind_inv in H as (y & g1 & Ey & H).
    apply bind_inv in H as (ys' & g2 & Eys & H). injection H as <- _.
    constructor; eauto.
Qed.

Lemma mapM_length {A B} (f : A -> M B) (l : list A) (g : rng) (ys : list B) (g' : rng) :
  mapM f l g = OK (ys, g') -> List.length ys = List.length l.
Proof. intros H%mapM_inv. symmetry. eapply Forall2_length; eassumption. Qed.

(** The classes whose states are built by the generic [create]. *)
Definition generic (cls : pclass) : bool :=
  match cls with
  | TransactionExecutionStatusProperties
  | NettingChannelStateProperties
  | BalanceProofProperties => true
  | _ => false
  end.

Lemma create_generic_class (cls : pclass) (pd : list (string * value)) (defaults : value) :
  generic cls = true ->
  create import_rng (VProps cls pd) defaults
  = create_generic import_rng (create_rec import_rng 999) (VProps cls pd) defaults.
Proof.
  intros H. rewrite create_unfold. generalize 999. intros depth.
  destruct cls; first [discriminate H | reflexivity].
Qed.

Lemma generic_DEFAULTS (cls : pclass) :
  generic cls = true ->
  DEFAULTS import_rng cls <> VNone /\ instance_of cls (DEFAULTS import_rng cls) = true /\
  exists target, TARGET_TYPE cls = Some target.
Proof.
  intros H. destruct (DEFAULTS_nested_set import_rng cls) as [E|E].
  - destruct cls; try discriminate H; discriminate E.
  - unfold nested_set in E. apply andb_prop in E as [E _]. split; [|split].
    + intros E'. now rewrite E' in E.
    + assumption.
    + destruct cls; try discriminate; eexists; reflexivity.
Qed.

Lemma create_generic_inv (cls : pclass) (pd : list (string * value))
  (defaults state : value) (g g' : rng) :
  generic cls = true ->
  create import_rng (VProps cls pd) defaults g = OK (state, g') ->
  exists merged md target kw,
    create_properties (DEFAULTS import_rng) (VProps cls pd)
      (or_default defaults (DEFAULTS import_rng cls)) = OK merged /\
    dict_of merged = OK md /\
    TARGET_TYPE cls = Some target /\
    state = VObj target kw /\
    map fst kw = map fst md /\
    forall k v, dict_get md k = Some v -> is_properties v = false ->
                dict_get kw k = Some v.
Proof.
  intros Hg H. rewrite create_generic_class in H by assumption.
  unfold create_generic in H. apply bind_inv in H as (kw & g1 & Hkw & H).
  destruct (generic_DEFAULTS cls Hg) as (_ & _ & target & Ht). rewrite Ht in H.
  injection H as <- <-.
  unfold _properties_to_kwargs in Hkw. invert_run Hkw.
  cbn [DEFAULTS_of] in E. injection E as <-.
  exists a0, a1, target, kw. repeat (split; [first [assumption | reflexivity]|]).
  apply mapM_inv in Hkw.
  assert (HF : Forall2
            (fun (a y : string * value) =>
               fst y = fst a /\
               (fun (k : string) (v w : value) => is_properties v = false -> w = v)
                 (fst a) (snd a) (snd y)) a1 kw).
  { eapply Forall2_impl; [|exact Hkw]. intros [k v] [k' w] (g0 & g2 & Hf).
    apply bind_inv in Hf as (x & g3 & Hx & Hf). injection Hf as <- <- _. cbn [fst snd].
    split; [reflexivity|]. intros Hv.
    rewrite (create_rec_plain import_rng 998 v VNone g0 Hv) in Hx. now injection Hx as <-. }
  apply Forall2_dict_get in HF as [Hk Hget]. split; [assumption|].
  intros k v Hv Hp. specialize (Hget k). rewrite Hv in Hget.
  destruct Hget as (w & Hw & HQ). now rewrite Hw, (HQ Hp).
Qed.

Lemma mapM_pure {A B} (f : A -> M B) (h : A -> B) (l : list A) (g : rng) :
  (forall a, In a l -> forall g0, f a g0 = OK (h a, g0)) ->
  mapM f l g = OK (map h l, g).
Proof.
  induction l as [|a l IH]; intros H; [reflexivity|].
  cbn [mapM map]. rewrite (bind_OK _ (H a (or_introl eq_refl) g)).
  rewrite (bind_OK _ (IH (fun x Hx => H x (or_intror Hx)))). reflexivity.
Qed.

Lemma or_default_idem (defaults fallback : value) :
  or_default (or_default defaults fallback) fallback = or_default defaults fallback.
Proof.
  unfold or_default. destruct (truthy defaults) eqn:E; [now rewrite E|].
  now destruct (truthy fallback).
Qed.

(** The keyword arguments that [create] passes to the target type when
    no field of the merged properties is a properties object: the merged
    fields themselves, and [random] is not called. *)
Lemma _properties_to_kwargs_plain (depth : nat) (cls : pclass)
  (pd : list (string * value)) (defaults merged : value) (md : list (string * value))
  (g : rng) :
  create_properties (DEFAULTS import_rng) (VProps cls pd)
    (or_default defaults (DEFAULTS import_rng cls)) = OK merged ->
  dict_of merged = OK md ->
  (forall kv, In kv md -> is_properties (snd kv) = false) ->
  _properties_to_kwargs import_rng (create_rec import_rng (S depth)) (VProps cls pd)
    defaults g
  = OK (md, g).
Proof.
  intros Hm Hmd Hplain.
  rewrite (_properties_to_kwargs_eq import_rng _ cls pd defaults merged md g Hm Hmd).
  rewrite (mapM_pure _ (fun kv => kv)); [now rewrite map_id|].
  intros [k v] Hin g0. cbn [fst snd].
  rewrite (bind_OK _ (create_rec_plain import_rng depth v VNone g0 (Hplain _ Hin))).
  reflexivity.
Qed.

End CreateMore.

(** [Properties.extract] to a dataclass whose fields are among the
    fields of the instance returns an instance of that class with the
    values of these fields; when the class has a field that the instance
    lacks, it raises [KeyError]. The base class [Properties] is no
    dataclass: [extract] to it raises [TypeError]. *)
Theorem extract_subset (cls subset_type : pclass) (self : value) :
  instance_of cls self = true ->
  (subset_type <> Properties ->
   (forall k, In k (field_names subset_type) -> In k (field_names cls)) ->
   exists d,
     extract self subset_type = OK (VProps subset_type d) /\
     map fst d = field_names subset_type /\
     forall k, In k (field_names subset_type) ->
               getattr (VProps subset_type d) k = getattr self k) /\
  ((exists k, In k (field_names subset_type) /\ ~ In k (field_names cls)) ->
   extract self subset_type = Raise KeyError) /\
  extract self Properties = Raise TypeError.
Proof.
  intros (sd & -> & Hk & _)%properties_facts.instance_of_spec. split; [|split].
  - intros Hne Hsub.
    destruct (_partial_dict_OK sd (field_names subset_type)) as (kw & Hkw & Hkeys).
    { intros k Hin. apply dict_facts.dict_get_key. rewrite Hk. auto. }
    destruct (dict_facts.new_OK subset_type kw) as (d & Hd).
    { intros k. now rewrite Hkeys. }
    { intros f Hf. left. apply dict_facts.dict_get_key. rewrite Hkeys.
      now apply in_map. }
    assert (He : extract (VProps cls sd) subset_type = OK (VProps subset_type d)).
    { unfold extract. rewrite (dataclasses_fields_OK subset_type Hne).
      cbn [dict_of rbind]. rewrite Hkw. exact Hd. }
    exists d. split; [assumption|]. split.
    + apply dict_facts.new_inv in Hd as (d' & [= <-] & Hd' & _). assumption.
    + intros k Hin. destruct (extract_getattr _ _ _ k He Hin) as (v & -> & ->).
      reflexivity.
  - intros (k & Hin & Hnot). unfold extract.
    rewrite dataclasses_fields_OK by (intros ->; destruct Hin).
    cbn [dict_of rbind].
    rewrite (_partial_dict_KeyError sd _ k); [reflexivity | assumption |].
    apply dict_facts.dict_get_None. now rewrite Hk.
  - reflexivity.
Qed.

Lemma extract_subset_witness :
  (exists d,
     extract late_transfer LockedTransferProperties
     = OK (VProps LockedTransferProperties d) /\
     map fst d = field_names LockedTransferProperties /\
     forall k, In k (field_names LockedTransferProperties) ->
               getattr (VProps LockedTransferProperties d) k = getattr late_transfer k) /\
  extract (imported (new BalanceProofProperties [])) LockedTransferProperties
  = Raise KeyError /\
  extract late_transfer Properties = Raise TypeError.
Proof.
  split; [|split].
  - apply (proj1 (extract_subset LockedTransferSignedStateProperties
                    LockedTransferProperties late_transfer eq_refl)).
    + discriminate.
    + intros k Hin. cbn in Hin |- *. tauto.
  - apply (proj1 (proj2 (extract_subset BalanceProofProperties
                           LockedTransferProperties
                           (imported (new BalanceProofProperties [])) eq_refl))).
    exists "amount"%string. split; [cbn; tauto|]. cbn. intuition discriminate.
  - apply (proj2 (proj2 (extract_subset LockedTransferSignedStateProperties
                           LockedTransferProperties late_transfer eq_refl))).
Defined.

(** The state that [create] builds from properties of
    [TransactionExecutionStatusProperties], [NettingChannelStateProperties]
    or [BalanceProofProperties] is an object of the target type of the
    class with the fields of the class, and every field that the
    properties set with a plain value is an attribute of the state with
    that value, whatever the defaults are. *)
Theorem create_keeps_set_fields
  {collaborators : Collaborators} (import_rng : rng)
  (cls : pclass) (properties defaults state : value) (g g' : rng) :
  In cls [TransactionExecutionStatusProperties; NettingChannelStateProperties;
          BalanceProofProperties] ->
  instance_of cls properties = true ->
  defaults = VNone \/ instance_of cls defaults = true ->
  create import_rng properties defaults g = OK (state, g') ->
  exists target kw,
    TARGET_TYPE cls = Some target /\
    state = VObj target kw /\
    map fst kw = field_names cls /\
    forall k v,
      getattr properties k = OK v ->
      is_EMPTY v = false -> is_properties v = false ->
      getattr state k = OK v.
Proof.
  intros Hcls Hp Hd Hcreate.
  assert (Hg : generic cls = true).
  { cbn in Hcls. destruct Hcls as [<-|[<-|[<-|[]]]]; reflexivity. }
  destruct (generic_DEFAULTS import_rng cls Hg) as (HD & HDi & _).
  pose proof Hp as Hp'.
  apply properties_facts.instance_of_spec in Hp' as (pd & -> & Hpk & _).
  apply (create_generic_inv import_rng) in Hcreate
    as (merged & md & target & kw & Hm & Hmd & Ht & -> & Hkw & Hplain); [|assumption].
  set (d := or_default defaults (DEFAULTS import_rng cls)) in *.
  assert (Hd' : d = VNone \/ instance_of cls d = true).
  { unfold d. destruct Hd as [->|Hd]; [right; exact HDi|].
    right. apply properties_facts.instance_of_spec in Hd as Hd'.
    destruct Hd' as (dd & -> & _). exact Hd. }
  pose proof (DEFAULTS_nested_set import_rng) as Hok.
  assert (Hnested : forall c k sub,
             field_class c k = Some sub -> DEFAULTS import_rng sub <> VNone).
  { intros c k sub H. now apply (DEFAULTS_of_nested import_rng) in H. }
  destruct (properties_facts.create_properties_typed _ Hok Hnested cls
              (VProps cls pd) d Hp Hd' HD) as (rd & Hr & Hn).
  rewrite Hr in Hm. injection Hm as <-. cbn in Hmd. injection Hmd as <-.
  apply properties_facts.nested_set_spec in Hn as (rd' & [= <-] & Hrk & _).
  exists target, kw. split; [assumption|]. split; [reflexivity|].
  split; [congruence|].
  intros k v Hv He Hprop.
  assert (Hin : In k (field_names cls)).
  { rewrite <- Hpk. apply dict_facts.dict_get_key.
    apply properties_facts.getattr_VProps in Hv. congruence. }
  destruct (properties_facts.create_properties_field _ Hok Hnested cls
              (VProps cls pd) d (VProps cls rd) Hp Hd' HD Hr k Hin)
    as (pk & Dk & rk & Hpk' & _ & Hrk' & Hmerge).
  rewrite Hv in Hpk'. injection Hpk' as <-.
  unfold merge_field in Hmerge. rewrite He, Hprop in Hmerge. injection Hmerge as <-.
  apply properties_facts.getattr_VProps in Hrk'.
  cbn [getattr]. now rewrite (Hplain k v Hrk' Hprop).
Qed.

Lemma create_keeps_set_fields_witness :
  exists state g' target kw,
    create sample_rng partial_channel channel_defaults sample_rng = OK (state, g') /\
    TARGET_TYPE NettingChannelStateProperties = Some target /\
    state = VObj target kw /\
    map fst kw = field_names NettingChannelStateProperties /\
    forall k v,
      getattr partial_channel k = OK v ->
      is_EMPTY v = false -> is_properties v = false ->
      getattr state k = OK v.
Proof.
  destruct (create sample_rng partial_channel channel_defaults sample_rng)
    as [[state g']|e] eqn:E; [|vm_compute in E; discriminate].
  destruct (create_keeps_set_fields sample_rng NettingChannelStateProperties
              partial_channel channel_defaults state sample_rng g')
    as (target & kw & H).
  - cbn. tauto.
  - vm_compute; reflexivity.
  - right. vm_compute; reflexivity.
  - exact E.
  - exists state, g', target, kw. split; [reflexivity | exact H].
Defined.

(** ** Sets of channels *)

Section ChannelSetFacts.

Context {collaborators : Collaborators}.
Variable import_rng : rng.

Local Open Scope string_scope.

Lemma blank_channel_properties :
  exists blank, new NettingChannelStateProperties [] = OK blank.
Proof. eexists. reflexivity. Qed.

Lemma pad_properties_length (properties padded : list value) (n : Z) :
  pad_properties properties n = OK padded ->
  Z.to_nat n <= List.length padded /\
  firstn (List.length properties) padded = properties.
Proof.
  unfold pad_properties. destruct blank_channel_properties as (blank & ->).
  cbn [rbind]. intros [= <-]. rewrite length_app, repeat_length. split; [lia|].
  rewrite firstn_app, Nat.sub_diag, firstn_all. cbn. apply app_nil_r.
Qed.

Lemma make_channel_set_inv
  (properties : option (list value)) (defaults : value)
  (number_of_channels : option Z) (g g' : rng) (cs : ChannelSet) :
  make_channel_set import_rng properties defaults number_of_channels g = OK (cs, g') ->
  exists n padded made g0,
    match number_of_channels, properties with
    | Some m, _ => n = m
    | None, Some l => n = Z.of_nat (List.length l)
    | None, None => False
    end /\
    pad_properties (match properties with Some l => l | None => [] end) n = OK padded /\
    mapM (fun p =>
            bind (lift (pkeys_from_channel_state p defaults))
              (fun keys => bind (create import_rng p defaults)
                             (fun channel => ret (channel, keys))))
         (firstn (Z.to_nat n) padded) g0 = OK (made, g') /\
    cs = mkChannelSet (map fst made) (map (fun x => fst (snd x)) made)
           (map (fun x => snd (snd x)) made).
Proof.
  unfold make_channel_set. intros H.
  apply bind_inv in H as (n & g0 & Hn & H).
  apply bind_inv in H as (padded & g1 & Hpad & H). apply lift_inv in Hpad as [Hpad ->].
  apply bind_inv in H as (made & g2 & Hmade & H). injection H as <- <-.
  exists n, padded, made, g0. repeat split; try assumption.
  destruct number_of_channels as [m|]; [now injection Hn as <- _|].
  destruct properties as [l|]; [now injection Hn as <- _ | discriminate].
Qed.

End ChannelSetFacts.

(** [make_channel_set] needs the list of properties or the number of
    channels: with neither it raises [TypeError]. The set that it returns has
    as many channels as asked for (the length of the list when no number is
    given, none for a negative number), with one private key of each side
    for every channel. *)
Theorem make_channel_set_sizes
  {collaborators : Collaborators} (import_rng : rng)
  (properties : option (list value)) (defaults : value)
  (number_of_channels : option Z) (g : rng) :
  (properties = None -> number_of_channels = None ->
   make_channel_set import_rng properties defaults number_of_channels g = Raise TypeError) /\
  (forall cs g',
      make_channel_set import_rng properties defaults number_of_channels g = OK (cs, g') ->
      let n := match number_of_channels, properties with
               | Some m, _ => Z.to_nat m
               | None, Some l => List.length l
               | None, None => 0
               end in
      List.length (channels cs) = n /\
      List.length (our_privatekeys cs) = n /\
      List.length (partner_privatekeys cs) = n).
Proof.
  split.
  - intros -> ->. reflexivity.
  - intros cs g' H.
    apply (make_channel_set_inv import_rng) in H
      as (n & padded & made & g0 & Hn & Hpad & Hmade & ->).
    apply mapM_length in Hmade. apply pad_properties_length in Hpad as [Hlen _].
    rewrite length_firstn in Hmade. cbn [channels our_privatekeys partner_privatekeys].
    rewrite !length_map, Hmade.
    destruct number_of_channels as [m|]; [subst n; lia|].
    destruct properties as [l|]; [|contradiction]. subst n. lia.
Qed.

Lemma make_channel_set_sizes_witness :
  make_channel_set sample_rng None VNone None sample_rng = Raise TypeError.
Proof.
  apply (proj1 (make_channel_set_sizes sample_rng None VNone None sample_rng));
    reflexivity.
Defined.

(** [pkeys_from_channel_state] reads the private key of a side from the
    properties when they give the side, without looking at the defaults:
    when the properties give a side and not its key, the key returned is
    [EMPTY], whatever key the defaults hold. When the properties leave a
    side [EMPTY], the key is the one of the defaults, and when the defaults
    leave the side [EMPTY] too, the call raises [AttributeError]. *)
Theorem pkeys_from_channel_state_sides
  (properties defaults our_state partner_state : value) :
  getattr properties "our_state"%string = OK our_state ->
  getattr properties "partner_state"%string = OK partner_state ->
  (forall our_key partner_key,
      is_properties our_state = true ->
      is_properties partner_state = true ->
      getattr our_state "privatekey"%string = OK our_key ->
      getattr partner_state "privatekey"%string = OK partner_key ->
      pkeys_from_channel_state properties defaults = OK (our_key, partner_key)) /\
  (our_state = EMPTY ->
   getattr defaults "our_state"%string = OK EMPTY ->
   pkeys_from_channel_state properties defaults = Raise AttributeError) /\
  (our_state = EMPTY -> partner_state = EMPTY -> defaults = VNone ->
   pkeys_from_channel_state properties defaults = OK (VNone, VNone)).
Proof.
  intros Ho Hp. unfold pkeys_from_channel_state. rewrite Ho, Hp. cbn [rbind].
  split; [|split].
  - intros ok pk Hio Hip Hok Hpk.
    destruct our_state; try discriminate. destruct partner_state; try discriminate.
    cbn [is_EMPTY negb]. now rewrite Hok, Hpk.
  - intros -> Hd. cbn [is_EMPTY negb].
    destruct defaults; try discriminate; now rewrite Hd.
  - intros -> -> ->. reflexivity.
Qed.

Lemma pkeys_from_channel_state_sides_witness :
  pkeys_from_channel_state (imported (new NettingChannelStateProperties []))
    (imported (new NettingChannelStateProperties [("reveal_timeout", VInt 3)]%string))
  = Raise AttributeError.
Proof.
  apply (proj1 (proj2 (pkeys_from_channel_state_sides
                         (imported (new NettingChannelStateProperties []))
                         (imported (new NettingChannelStateProperties
                                      [("reveal_timeout", VInt 3)]%string))
                         EMPTY EMPTY eq_refl eq_refl)));
    reflexivity.
Defined.

(** [make_channel_set] cannot be used with defaults that leave a side
    [EMPTY] when the first properties leave it [EMPTY] as well: reading the
    private keys raises [AttributeError] before any channel is created,
    although [create] accepts such defaults. *)
Theorem make_channel_set_partial_defaults
  {collaborators : Collaborators} (import_rng : rng)
  (first defaults : value) (others : list value) (g : rng) :
  getattr first "our_state"%string = OK EMPTY ->
  getattr defaults "our_state"%string = OK EMPTY ->
  make_channel_set import_rng (Some (first :: others)) defaults None g
  = Raise AttributeError.
Proof.
  intros Hp Hd. unfold make_channel_set.
  unfold bind at 1, ret at 1.
  destruct (blank_channel_properties) as (blank & Hb).
  unfold pad_properties. rewrite Hb. cbn [rbind].
  unfold bind at 1, lift at 1.
  rewrite Nat2Z.id, Nat.sub_diag. cbn [repeat]. rewrite app_nil_r, firstn_all.
  cbn [mapM]. unfold bind at 1 2 3, lift at 1.
  assert (E : pkeys_from_channel_state first defaults = Raise AttributeError).
  { unfold pkeys_from_channel_state. rewrite Hp. cbn [rbind is_EMPTY negb].
    destruct defaults; try discriminate; now rewrite Hd. }
  now rewrite E.
Qed.

Lemma make_channel_set_partial_defaults_witness :
  make_channel_set sample_rng
    (Some [imported (new NettingChannelStateProperties [])])
    (imported (new NettingChannelStateProperties [("reveal_timeout", VInt 3)]%string))
    None sample_rng
  = Raise AttributeError.
Proof.
  apply (make_channel_set_partial_defaults sample_rng); reflexivity.
Defined.

(** The channel set of [mediator_make_channel_pair] has two channels,
    and the private keys that it records for the partners are the [EMPTY]
    sentinel, not keys: the properties of the pair give the partner states
    without a key. The same holds for our key of the second channel. *)
Theorem mediator_make_channel_pair_keys
  {collaborators : Collaborators} (import_rng : rng)
  (defaults amount : value) (g g' : rng) (cs : ChannelSet) :
  mediator_make_channel_pair import_rng defaults amount g = OK (cs, g') ->
  List.length (channels cs) = 2 /\
  partner_privatekeys cs = [EMPTY; EMPTY] /\
  exists our_key,
    our_privatekeys cs = [our_key; EMPTY] /\
    (defaults = VNone -> our_key = VNone).
Proof.
  unfold mediator_make_channel_pair, make_canonical_identifier. cbn [truthy Z.eqb negb].
  intros H. invert_run H.
  cbv [bind ret] in E, E2. injection E as <- <-. injection E2 as <- <-.
  assert (Ha0 : a0 = VProps NettingChannelEndStateProperties
                       [("address", UNIT_TRANSFER_SENDER); ("privatekey", EMPTY);
                        ("balance", amount); ("merkletree_leaves", EMPTY);
                        ("merkletree_width", EMPTY)]%string).
  { enough (H' : OK a0 = OK (VProps NettingChannelEndStateProperties
                       [("address", UNIT_TRANSFER_SENDER); ("privatekey", EMPTY);
                        ("balance", amount); ("merkletree_leaves", EMPTY);
                        ("merkletree_width", EMPTY)]%string)) by now injection H'.
    rewrite <- E0. reflexivity. }
  assert (Ha3 : a3 = VProps NettingChannelEndStateProperties
                       [("address", EMPTY); ("privatekey", EMPTY);
                        ("balance", amount); ("merkletree_leaves", EMPTY);
                        ("merkletree_width", EMPTY)]%string).
  { enough (H' : OK a3 = OK (VProps NettingChannelEndStateProperties
                       [("address", EMPTY); ("privatekey", EMPTY);
                        ("balance", amount); ("merkletree_leaves", EMPTY);
                        ("merkletree_width", EMPTY)]%string)) by now injection H'.
    rewrite <- E3. reflexivity. }
  assert (Ha4 : a4 = VProps NettingChannelEndStateProperties
                       [("address", UNIT_TRANSFER_TARGET); ("privatekey", EMPTY);
                        ("balance", EMPTY); ("merkletree_leaves", EMPTY);
                        ("merkletree_width", EMPTY)]%string).
  { enough (H' : OK a4 = OK (VProps NettingChannelEndStateProperties
                       [("address", UNIT_TRANSFER_TARGET); ("privatekey", EMPTY);
                        ("balance", EMPTY); ("merkletree_leaves", EMPTY);
                        ("merkletree_width", EMPTY)]%string)) by now injection H'.
    rewrite <- E4. reflexivity. }
  subst a0 a3 a4.
  cbv [new negb forallb string_mem existsb field_names fields map fst snd
       map_result dict_get rbind String.eqb Ascii.eqb Bool.eqb orb] in E1, E5.
  injection E1 as <-. injection E5 as <-.
  apply (make_channel_set_inv import_rng) in H
    as (n & padded & made & g0 & Hn & Hpad & Hmade & ->).
  subst n. apply pad_properties_length in Hpad as [_ Hfirst].
  rewrite Nat2Z.id, Hfirst in Hmade. cbn [mapM] in Hmade.
  apply bind_inv in Hmade as (y1 & g1 & Hy1 & Hmade).
  apply bind_inv in Hmade as (ys & g2 & Hys & Hmade). injection Hmade as <- _.
  apply bind_inv in Hys as (y2 & g3 & Hy2 & Hys).
  apply bind_inv in Hys as (ys' & g4 & Hnil & Hys).
  injection Hnil as <- _. injection Hys as <- _.
  apply bind_inv in Hy1 as (keys1 & g5 & Hk1 & Hy1). apply lift_inv in Hk1 as [Hk1 ->].
  apply bind_inv in Hy1 as (c1 & g6 & _ & Hy1). injection Hy1 as <- _.
  apply bind_inv in Hy2 as (keys2 & g7 & Hk2 & Hy2). apply lift_inv in Hk2 as [Hk2 ->].
  apply bind_inv in Hy2 as (c2 & g8 & _ & Hy2). injection Hy2 as <- _.
  cbn [channels our_privatekeys partner_privatekeys map fst snd List.length].
  unfold pkeys_from_channel_state in Hk1, Hk2.
  dict_compute_in Hk1. dict_compute_in Hk2. cbn [rbind is_EMPTY negb] in Hk1, Hk2.
  injection Hk2 as <-.
  split; [reflexivity|].
  destruct (is_None defaults) eqn:Hd; cbn [negb] in Hk1.
  - injection Hk1 as <-. cbn [fst snd]. split; [reflexivity|]. eauto.
  - apply rbind_inv in Hk1 as (k & _ & [= <-]). cbn [fst snd]. split; [reflexivity|].
    eexists. split; [reflexivity|]. intros ->. discriminate.
Qed.

Lemma mediator_make_channel_pair_keys_witness :
  exists cs g',
    @mediator_make_channel_pair sample_collaborators sample_rng VNone (VInt 10) sample_rng
    = OK (cs, g') /\
    List.length (channels cs) = 2 /\
    partner_privatekeys cs = [EMPTY; EMPTY] /\
    exists our_key,
      our_privatekeys cs = [our_key; EMPTY] /\
      (VNone = VNone -> our_key = VNone).
Proof.
  destruct (@mediator_make_channel_pair sample_collaborators sample_rng VNone (VInt 10)
              sample_rng) as [[cs g']|e] eqn:E; [|vm_compute in E; discriminate].
  exists cs, g'. split; [reflexivity|].
  apply (@mediator_make_channel_pair_keys sample_collaborators sample_rng
           VNone (VInt 10) sample_rng g' cs E).
Defined.

(** ** Signed transfers, in general *)

Section TransferMore.

Context {collaborators : Collaborators}.

Local Open Scope string_scope.

Lemma value_eqb_VBytes_l (x : bytes) (v : value) :
  value_eqb (VBytes x) v = true -> v = VBytes x.
Proof.
  destruct v; cbn; try discriminate. intros H%bytes_eqb_eq. congruence.
Qed.

Lemma as_bytes_inv (v : value) (b : bytes) : as_bytes v = OK b -> v = VBytes b.
Proof. destruct v; cbn; congruence. Qed.

Lemma message_sender_bytes (message sender : value) :
  message_sender message = OK sender -> exists b, sender = VBytes b.
Proof.
  unfold message_sender. destruct message; try discriminate.
  intros H. invert_run H. injection H as <-. eauto.
Qed.

Lemma make_address_advance (a : value) (g g' : rng) :
  make_address g = OK (a, g') -> g' = random_more.advance g 20.
Proof.
  destruct (random_more.random_printable_spec 20 g) as (b & E & _).
  change make_address with (random_printable 20). rewrite E. now intros [= _ <-].
Qed.

Lemma make_32bytes_advance (a : value) (g g' : rng) :
  make_32bytes g = OK (a, g') -> g' = random_more.advance g 32.
Proof.
  destruct (random_more.random_printable_spec 32 g) as (b & E & _).
  change make_32bytes with (random_printable 32). rewrite E. now intros [= _ <-].
Qed.

Lemma make_secret_EMPTY (g : rng) : make_secret EMPTY g = make_32bytes g.
Proof. reflexivity. Qed.

Lemma make_message_identifier_advance (a : value) (g g' : rng) :
  make_message_identifier g = OK (a, g') -> g' = random_more.advance g 1.
Proof.
  unfold make_message_identifier, random.randint, bind, random.draw, ret,
    random_more.advance. cbn [source position]. intros [= _ <-]. f_equal. lia.
Qed.

Lemma locksroot_branch (c : bool) (lock locksroot a : value) (g g' : rng) :
  (if c
   then bind (lift (Lock_as_bytes lock)) (fun encoded => ret (VBytes (sha3 encoded)))
   else ret locksroot) g = OK (a, g') ->
  g' = g.
Proof.
  destruct c; intros H.
  - apply bind_inv in H as (e & g0 & He & H). apply lift_inv in He as [_ ->].
    now injection H as _ <-.
  - now injection H as _ <-.
Qed.

End TransferMore.

(** Every transfer that [make_signed_transfer] returns is signed by the
    sender that was asked for: the address recovered from its signature is
    the [sender] argument, or [UNIT_TRANSFER_SENDER] when none is given.
    Whatever the arguments are, a call that returns has made 73 calls to
    [random]: two addresses, a secret and a message identifier are drawn
    before the arguments are looked at. *)
Theorem make_signed_transfer_sender
  {collaborators : Collaborators} (kwargs : list (string * value))
  (transfer : value) (g g' : rng) :
  make_signed_transfer kwargs g = OK (transfer, g') ->
  message_sender transfer
  = OK (if_empty (argument kwargs "sender") UNIT_TRANSFER_SENDER) /\
  g' = random_more.advance g 73.
Proof.
  intros H. unfold make_signed_transfer in H.
  destruct (negb _) in H; [discriminate|].
  apply bind_inv in H as (a1 & g1 & E1 & H). apply make_address_advance in E1.
  cbv beta zeta in H.
  apply bind_inv in H as (a2 & g2 & E2 & H). apply make_address_advance in E2.
  cbv beta zeta in H.
  apply bind_inv in H as (a3 & g3 & E3 & H).
  rewrite make_secret_EMPTY in E3.
  apply make_32bytes_advance in E3.
  cbv beta zeta in H.
  apply bind_inv in H as (a4 & g4 & E4 & H).
  apply make_message_identifier_advance in E4.
  assert (Hg : g4 = random_more.advance g 73).
  { rewrite E4, E3, E2, E1, !random_more.advance_advance. reflexivity. }
  clear E1 E2 E3 E4.
  invert_run H. unfold ret in H. injection H as <- <-.
  match goal with
  | Hr : (if _ then _ else _) _ = OK _ |- _ => apply locksroot_branch in Hr as ->
  end.
  split; [|exact Hg].
  match goal with
  | Hs : message_sender _ = OK ?s, He : value_eqb ?s _ = true |- _ =>
      destruct (message_sender_bytes _ _ Hs) as (b & ->);
      apply value_eqb_VBytes_l in He; rewrite Hs, He
  end.
  reflexivity.
Qed.

Lemma make_signed_transfer_sender_witness :
  exists transfer g',
    @make_signed_transfer sample_collaborators [] sample_rng = OK (transfer, g') /\
    @message_sender sample_collaborators transfer
    = OK (if_empty (argument [] "sender") (@UNIT_TRANSFER_SENDER sample_collaborators)) /\
    g' = random_more.advance sample_rng 73.
Proof.
  destruct (@make_signed_transfer sample_collaborators [] sample_rng)
    as [[transfer g']|e] eqn:E; [|vm_compute in E; discriminate].
  exists transfer, g'. split; [reflexivity|].
  apply (@make_signed_transfer_sender sample_collaborators [] transfer sample_rng g' E).
Defined.

(** [make_signed_transfer_for] never returns a transfer whose sender is
    not a participant of the channel, or whose key is not the key of the
    sender: in the requested properties, [sender] is the address of [pkey],
    and it is the address of our side of the channel or of the partner.
    This holds whether [allow_invalid] is set or not. *)
Theorem make_signed_transfer_for_participant
  {collaborators : Collaborators} (import_rng : rng)
  (channel_state properties defaults : value)
  (compute_locksroot allow_invalid only_transfer : bool)
  (t : value) (g g' : rng) :
  make_signed_transfer_for import_rng channel_state properties defaults
    compute_locksroot allow_invalid only_transfer g
  = OK (t, g') ->
  exists blank requested blank_channel made g1 key our_state our_address,
    new LockedTransferSignedStateProperties [] = OK blank /\
    create_properties (DEFAULTS import_rng) (or_default properties blank)
      (or_default defaults (SIGNED_TRANSFER_FOR_CHANNEL_DEFAULTS import_rng))
    = OK requested /\
    new NettingChannelStateProperties [] = OK blank_channel /\
    create import_rng blank_channel VNone g = OK (made, g1) /\
    getattr requested "pkey" = OK (VBytes key) /\
    getattr requested "sender" = OK (VBytes (privatekey_to_address key)) /\
    getattr (if_empty channel_state made) "our_state" = OK our_state /\
    getattr our_state "address" = OK our_address /\
    (our_address = VBytes (privatekey_to_address key) \/
     exists partner_state,
       getattr (if_empty channel_state made) "partner_state" = OK partner_state /\
       getattr partner_state "address" = OK (VBytes (privatekey_to_address key))).
Proof.
  intros H. unfold make_signed_transfer_for in H.
  apply bind_inv in H as (blank & g0 & Hblank & H).
  apply lift_inv in Hblank as [Hblank ->].
  apply bind_inv in H as (requested & g0 & Hreq & H).
  apply lift_inv in Hreq as [Hreq ->].
  apply bind_inv in H as (blank_channel & g0 & Hbc & H).
  apply lift_inv in Hbc as [Hbc ->].
  apply bind_inv in H as (made & g1 & Hmade & H). cbv beta zeta in H.
  apply bind_inv in H as (u & g2 & _ & H).
  apply bind_inv in H as (pkey & g3 & Hpkey & H). apply lift_inv in Hpkey as [Hpkey ->].
  apply bind_inv in H as (key & g3 & Hkey & H). apply lift_inv in Hkey as [Hkey ->].
  apply bind_inv in H as (sender & g3 & Hsender & H).
  apply lift_inv in Hsender as [Hsender ->].
  apply bind_inv in H as (u' & g3 & Hassert & H). apply assert_inv in Hassert as [Ha ->].
  apply bind_inv in H as (our_state & g3 & Hos & H). apply lift_inv in Hos as [Hos ->].
  apply bind_inv in H as (our_address & g3 & Hoa & H). apply lift_inv in Hoa as [Hoa ->].
  apply bind_inv in H as (recipient & g3 & Hrec & _).
  apply as_bytes_inv in Hkey as ->. apply value_eqb_VBytes_l in Ha as ->.
  exists blank, requested, blank_channel, made, g1, key, our_state, our_address.
  repeat (split; [assumption|]).
  destruct (value_eqb (VBytes (privatekey_to_address key)) our_address) eqn:Eo.
  - left. now apply value_eqb_VBytes_l in Eo.
  - right. apply bind_inv in Hrec as (partner_state & g4 & Hps & Hrec).
    apply lift_inv in Hps as [Hps ->].
    apply bind_inv in Hrec as (partner_address & g4 & Hpa & Hrec).
    apply lift_inv in Hpa as [Hpa ->].
    destruct (value_eqb (VBytes (privatekey_to_address key)) partner_address) eqn:Ep;
      [|discriminate].
    apply value_eqb_VBytes_l in Ep as ->. eauto.
Qed.

Lemma make_signed_transfer_for_participant_witness :
  exists t g',
    @make_signed_transfer_for sample_collaborators sample_rng
      sample_channel VNone VNone false false true sample_rng
    = OK (t, g') /\
    exists blank requested blank_channel made g1 key our_state our_address,
      new LockedTransferSignedStateProperties [] = OK blank /\
      create_properties (@DEFAULTS sample_collaborators sample_rng)
        (or_default VNone blank)
        (or_default VNone
           (@SIGNED_TRANSFER_FOR_CHANNEL_DEFAULTS sample_collaborators sample_rng))
      = OK requested /\
      new NettingChannelStateProperties [] = OK blank_channel /\
      @create sample_collaborators sample_rng blank_channel VNone sample_rng
      = OK (made, g1) /\
      getattr requested "pkey"%string = OK (VBytes key) /\
      getattr requested "sender"%string
      = OK (VBytes (@privatekey_to_address sample_collaborators key)) /\
      getattr (if_empty sample_channel made) "our_state"%string = OK our_state /\
      getattr our_state "address"%string = OK our_address /\
      (our_address = VBytes (@privatekey_to_address sample_collaborators key) \/
       exists partner_state,
         getattr (if_empty sample_channel made) "partner_state"%string
         = OK partner_state /\
         getattr partner_state "address"%string
         = OK (VBytes (@privatekey_to_address sample_collaborators key))).
Proof.
  destruct (@make_signed_transfer_for sample_collaborators sample_rng
              sample_channel VNone VNone false false true sample_rng)
    as [[t g']|e] eqn:E; [|vm_compute in E; discriminate].
  exists t, g'. split; [reflexivity|].
  apply (@make_signed_transfer_for_participant sample_collaborators sample_rng
           sample_channel VNone VNone false false true t sample_rng g' E).
Defined.

(** ** The states that the registered implementations build *)

Section StateFacts.

Context {collaborators : Collaborators}.
Variable import_rng : rng.

Import dict_facts replace_facts properties_facts.

Local Open Scope string_scope.

Lemma dict_pop_get_same {V} (d : list (string * V)) (k : string) :
  NoDup (map fst d) -> dict_get (dict_pop d k) k = None.
Proof.
  induction d as [|[k0 v0] d IH]; cbn; [reflexivity|].
  intros Hnd. inversion_clear Hnd as [|? ? Hn Hnd'].
  destruct (String.eqb_spec k0 k) as [->|Hne].
  - now apply dict_get_None.
  - cbn. destruct (String.eqb_spec k0 k); [contradiction | auto].
Qed.

Lemma dict_pop_get_other {V} (d : list (string * V)) (k k' : string) :
  k' <> k -> dict_get (dict_pop d k) k' = dict_get d k'.
Proof.
  intros Hne. induction d as [|[k0 v0] d IH]; cbn; [reflexivity|].
  destruct (String.eqb_spec k0 k) as [->|Hk]; cbn.
  - destruct (String.eqb_spec k k'); congruence.
  - now rewrite IH.
Qed.

Lemma create_properties_keys (properties defaults merged : value) :
  create_properties (DEFAULTS import_rng) properties defaults = OK merged ->
  exists cls md, merged = VProps cls md /\ map fst md = field_names cls.
Proof.
  intros H. apply create_properties_with_inv in H as (cls & pd & full & _ & _ & H).
  apply _replace_properties_inv in H
    as (n & c & p & dcls & dd & rd & _ & _ & _ & -> & Hk & _).
  eauto.
Qed.

Lemma create_rec_balance_proof_signed (depth : nat) (pd : list (string * value))
  (defaults : value) :
  create_rec import_rng (S depth) (VProps BalanceProofSignedStateProperties pd) defaults
  = create_BalanceProofSignedState import_rng
      (VProps BalanceProofSignedStateProperties pd) defaults.
Proof. reflexivity. Qed.

Lemma create_rec_endstate (depth : nat) (pd : list (string * value)) (defaults : value) :
  create_rec import_rng (S depth) (VProps NettingChannelEndStateProperties pd) defaults
  = create_NettingChannelEndState import_rng (create_rec import_rng depth)
      (VProps NettingChannelEndStateProperties pd) defaults.
Proof. reflexivity. Qed.

End StateFacts.

(** The state that [create] builds from
    [BalanceProofSignedStateProperties] never holds the private key, which
    is taken out of the parameters before the state is built, and its
    signature is never the [GENERATE] sentinel: a signature is computed in
    its place. No random value is drawn. *)
Theorem create_balance_proof_signed_state
  {collaborators : Collaborators} (import_rng : rng)
  (pd : list (string * value)) (defaults state : value) (g g' : rng) :
  create import_rng (VProps BalanceProofSignedStateProperties pd) defaults g
  = OK (state, g') ->
  g' = g /\
  getattr state "pkey" = Raise AttributeError /\
  exists signature, getattr state "signature" = OK signature /\ signature <> GENERATE.
Proof.
  intros H. rewrite create_unfold, create_rec_balance_proof_signed in H.
  unfold create_BalanceProofSignedState in H. apply lift_inv in H as [H ->].
  split; [reflexivity|]. cbv zeta in H.
  apply rbind_inv in H as (merged & Hm & H).
  apply rbind_inv in H as (params & Hp & H).
  apply rbind_inv in H as (pkey & Hpkey & H).
  apply rbind_inv in H as (key & Hkey & H).
  apply rbind_inv in H as (sig & Hsig & H).
  apply rbind_inv in H as (params' & Hparams & H). injection H as <-.
  apply (create_properties_keys import_rng) in Hm as (cls & md & -> & Hk).
  cbn in Hp. injection Hp as <-.
  assert (Hnd : NoDup (map fst md)) by (rewrite Hk; apply field_names_NoDup).
  pose proof (dict_pop_get_same md "pkey" Hnd) as Hpop.
  unfold getitem in Hsig.
  destruct (dict_get (dict_pop md "pkey") "signature") as [s|] eqn:Es; [|discriminate].
  injection Hsig as <-. unfold construct, getattr.
  assert (Hkeep : params' = dict_pop md "pkey" -> s <> GENERATE ->
                  match dict_get params' "pkey" with
                  | Some x => OK x
                  | None => Raise AttributeError
                  end = Raise AttributeError /\
                  exists signature,
                    match dict_get params' "signature" with
                    | Some x => OK x
                    | None => Raise AttributeError
                    end = OK signature /\ signature <> GENERATE).
  { intros -> Hs. rewrite Hpop, Es. eauto. }
  destruct s; try (injection Hparams as <-; apply Hkeep; [reflexivity | discriminate]).
  clear Hkeep. invert_run Hparams. injection Hparams as <-.
  rewrite json_facts.dict_set_other by discriminate.
  rewrite Hpop, json_facts.dict_set_same.
  split; [reflexivity|]. eexists. split; [reflexivity | discriminate].
Qed.

Lemma create_balance_proof_signed_state_witness :
  exists state g',
    @create sample_collaborators sample_rng blank_signed_proof VNone sample_rng
    = OK (state, g') /\
    g' = sample_rng /\
    getattr state "pkey"%string = Raise AttributeError /\
    exists signature,
      getattr state "signature"%string = OK signature /\ signature <> GENERATE.
Proof.
  destruct (@create sample_collaborators sample_rng blank_signed_proof VNone sample_rng)
    as [[state g']|e] eqn:E; [|vm_compute in E; discriminate].
  exists state, g'. split; [reflexivity|].
  assert (Hb : blank_signed_proof
               = VProps BalanceProofSignedStateProperties
                   [("nonce", EMPTY); ("transferred_amount", EMPTY);
                    ("locked_amount", EMPTY); ("locksroot", EMPTY);
                    ("canonical_identifier", EMPTY); ("message_hash", EMPTY);
                    ("signature", GENERATE); ("sender", EMPTY); ("pkey", EMPTY)]%string)
    by reflexivity.
  rewrite Hb in E.
  apply (@create_balance_proof_signed_state sample_collaborators sample_rng _ VNone
           state sample_rng g' E).
Defined.

(** The end state that [create] builds has the balance of the merged
    properties, and their address when it is given; an address that is
    [None] or empty is replaced by 20 random bytes. *)
Theorem create_endstate_fields
  {collaborators : Collaborators} (import_rng : rng)
  (properties defaults state : value) (g g' : rng) :
  instance_of NettingChannelEndStateProperties properties = true ->
  defaults = VNone \/ instance_of NettingChannelEndStateProperties defaults = true ->
  create import_rng properties defaults g = OK (state, g') ->
  exists merged given address balance,
    create_properties (DEFAULTS import_rng) properties
      (or_default defaults (DEFAULTS import_rng NettingChannelEndStateProperties))
    = OK merged /\
    getattr merged "balance" = OK balance /\
    getattr state "balance" = OK balance /\
    getattr merged "address" = OK given /\
    getattr state "address" = OK address /\
    (truthy given = true -> address = given) /\
    (truthy given = false -> exists b, address = VBytes b /\ List.length b = 20).
Proof.
  intros Hp Hd H.
  pose proof (DEFAULTS_nested_set import_rng) as Hok.
  assert (Hnested : forall c k sub,
             field_class c k = Some sub -> DEFAULTS import_rng sub <> VNone).
  { intros c k sub E. now apply (DEFAULTS_of_nested import_rng) in E. }
  pose proof Hp as Hp'.
  apply properties_facts.instance_of_spec in Hp' as (pd & -> & _).
  set (D := DEFAULTS import_rng NettingChannelEndStateProperties).
  assert (HDi : instance_of NettingChannelEndStateProperties D = true) by reflexivity.
  assert (Hd' : or_default defaults D = VNone \/
                instance_of NettingChannelEndStateProperties (or_default defaults D) = true).
  { right. destruct Hd as [->|Hd]; [exact HDi|].
    apply properties_facts.instance_of_spec in Hd as Hd''.
    destruct Hd'' as (dd & -> & _). exact Hd. }
  destruct (properties_facts.create_properties_typed _ Hok Hnested
              NettingChannelEndStateProperties
              (VProps NettingChannelEndStateProperties pd) (or_default defaults D)
              Hp Hd') as (md & Hm & Hn); [discriminate|].
  assert (Hplain : forall kv, In kv md -> is_properties (snd kv) = false).
  { apply properties_facts.nested_set_spec in Hn as (md' & [= <-] & _ & Hf & _).
    intros kv Hin. specialize (Hf kv Hin). unfold properties_facts.field_ok in Hf.
    cbn [field_class] in Hf. now apply negb_true_iff in Hf. }
  assert (Hkeys : map fst md = field_names NettingChannelEndStateProperties).
  { apply properties_facts.nested_set_spec in Hn as (md' & [= <-] & Hk & _). exact Hk. }
  rewrite create_unfold, create_rec_endstate in H.
  unfold create_NettingChannelEndState in H.
  change NettingChannelEndStateProperties_DEFAULTS with D in H.
  rewrite (bind_OK _ (_properties_to_kwargs_plain import_rng 998
                        NettingChannelEndStateProperties pd (or_default defaults D)
                        (VProps NettingChannelEndStateProperties md) md g
                        ltac:(fold D; rewrite or_default_idem; exact Hm) eq_refl Hplain))
    in H.
  apply bind_inv in H as (given & g1 & Hgiven & H). apply lift_inv in Hgiven as [Hgiven ->].
  apply bind_inv in H as (address & g1 & Haddress & H).
  apply bind_inv in H as (balance & g2 & Hbalance & H).
  apply lift_inv in Hbalance as [Hbalance ->].
  cbv zeta in H.
  apply bind_inv in H as (leaves & g2 & _ & H).
  apply bind_inv in H as (merkletree_leaves & g3 & _ & H).
  exists (VProps NettingChannelEndStateProperties md), given, address, balance.
  split; [exact Hm|].
  unfold getitem in Hgiven, Hbalance.
  destruct (dict_get md "address") as [a|] eqn:Ea; [|discriminate].
  destruct (dict_get md "balance") as [b|] eqn:Eb; [|discriminate].
  injection Hgiven as <-. injection Hbalance as <-.
  assert (Hstate : getattr state "balance" = OK b /\ getattr state "address" = OK address).
  { unfold NettingChannelEndState_init, construct in H.
    destruct (truthy merkletree_leaves).
    - apply bind_inv in H as (layers & g4 & _ & H). injection H as <- _.
      split; reflexivity.
    - injection H as <- _. split; reflexivity. }
  destruct Hstate as [Hsb Hsa].
  split; [cbn; now rewrite Eb|]. split; [assumption|].
  split; [cbn; now rewrite Ea|]. split; [assumption|].
  destruct (truthy a) eqn:Ht.
  - injection Haddress as <- _. split; [reflexivity | discriminate].
  - split; [discriminate|]. intros _.
    destruct (random_more.random_printable_spec 20 g) as (bs & E & Hl & _).
    change make_address with (random_printable 20) in Haddress.
    rewrite E in Haddress. injection Haddress as <- _. eauto.
Qed.

Lemma create_endstate_fields_witness :
  exists state g' merged given address balance,
    @create sample_collaborators sample_rng
      (imported (new NettingChannelEndStateProperties [("balance", VInt 30)]%string))
      VNone sample_rng
    = OK (state, g') /\
    create_properties (@DEFAULTS sample_collaborators sample_rng)
      (imported (new NettingChannelEndStateProperties [("balance", VInt 30)]%string))
      (or_default VNone
         (@DEFAULTS sample_collaborators sample_rng NettingChannelEndStateProperties))
    = OK merged /\
    getattr merged "balance"%string = OK balance /\
    getattr state "balance"%string = OK balance /\
    getattr merged "address"%string = OK given /\
    getattr state "address"%string = OK address /\
    (truthy given = true -> address = given) /\
    (truthy given = false -> exists b, address = VBytes b /\ List.length b = 20).
Proof.
  destruct (@create sample_collaborators sample_rng
              (imported (new NettingChannelEndStateProperties
                           [("balance", VInt 30)]%string))
              VNone sample_rng) as [[state g']|e] eqn:E; [|vm_compute in E; discriminate].
  destruct (@create_endstate_fields sample_collaborators sample_rng
              (imported (new NettingChannelEndStateProperties
                           [("balance", VInt 30)]%string))
              VNone state sample_rng g')
    as (merged & given & address & balance & H);
    [reflexivity | now left | exact E |].
  exists state, g', merged, given, address, balance. split; [reflexivity | exact H].
Defined.

(** ** The sides of a channel *)

Section NestedFacts.

Context {collaborators : Collaborators}.
Variable import_rng : rng.

Import dict_facts replace_facts properties_facts.

Local Open Scope string_scope.

(** A field that the properties set is kept by [create_properties] when
    its value is plain, and merged by [create_properties] when its value
    is a properties object. *)
Lemma create_properties_set_field (D : pclass -> value) (p d r : value)
  (k : string) (v : value) :
  create_properties D p d = OK r ->
  getattr p k = OK v -> is_EMPTY v = false ->
  if is_properties v then
    exists dk r', create_properties D v dk = OK r' /\ getattr r k = OK r'
  else getattr r k = OK v.
Proof.
  unfold create_properties. intros H Hk He.
  apply create_properties_with_inv in H as (cls & pd & full & -> & _ & H).
  apply _replace_properties_inv in H
    as (depth' & cls' & pd' & dcls & dd & rd & Hdepth & [= <- <-] & -> & -> & _ & _ & Hf).
  apply getattr_VProps in Hk. specialize (Hf k).
  rewrite (dict_get_filter_Some _ _ _ _ Hk) in Hf by (cbn; now rewrite He).
  destruct Hf as [_ Hf]. destruct (is_properties v).
  - destruct Hf as (dk & r' & _ & Hc & Hr). exists dk, r'. split.
    + apply create_properties_with_mono with (depth := depth'); [|exact Hc].
      rewrite Hdepth. auto.
    + now apply getattr_VProps.
  - now apply getattr_VProps.
Qed.

(** The merged properties are an instance of the class of the defaults
    of the class. *)
Lemma create_properties_class (D : pclass -> value) (c : pclass)
  (pd Dd : list (string * value)) (d r : value) :
  D c = VProps c Dd ->
  create_properties D (VProps c pd) d = OK r -> exists rd, r = VProps c rd.
Proof.
  unfold create_properties. intros HD H.
  apply create_properties_with_inv in H as (cls & pd' & full & [= <- <-] & Hfull & H).
  assert (Hc : exists fd, full = VProps c fd).
  { destruct (is_None d).
    - rewrite Hfull, HD. eauto.
    - apply _replace_properties_inv in Hfull
        as (n & c0 & p0 & dcls & dd & rd & _ & _ & Hdef & -> & _).
      rewrite HD in Hdef. injection Hdef as <- _. eauto. }
  destruct Hc as (fd & ->).
  apply _replace_properties_inv in H
    as (n & c0 & p0 & dcls & dd & rd & _ & _ & [= <- _] & -> & _).
  eauto.
Qed.

(** The keyword arguments of [_properties_to_kwargs], field by field. *)
Lemma _properties_to_kwargs_inv (depth : nat) (cls : pclass)
  (pd : list (string * value)) (defaults : value) (kw : list (string * value))
  (g g' : rng) :
  _properties_to_kwargs import_rng (create_rec import_rng (S depth)) (VProps cls pd)
    defaults g = OK (kw, g') ->
  exists merged md,
    create_properties (DEFAULTS import_rng) (VProps cls pd)
      (or_default defaults (DEFAULTS import_rng cls)) = OK merged /\
    dict_of merged = OK md /\
    forall k v, dict_get md k = Some v ->
      exists w, dict_get kw k = Some w /\
        (is_properties v = false -> w = v) /\
        exists g0 g1, create_rec import_rng (S depth) v VNone g0 = OK (w, g1).
Proof.
  intros Hkw. unfold _properties_to_kwargs in Hkw.
  apply bind_inv in Hkw as (fallback & g0 & Hf & Hkw). apply lift_inv in Hf as [Hf ->].
  cbn [DEFAULTS_of] in Hf. injection Hf as <-.
  apply bind_inv in Hkw as (merged & g0 & Hm & Hkw). apply lift_inv in Hm as [Hm ->].
  apply bind_inv in Hkw as (md & g0 & Hmd & Hkw). apply lift_inv in Hmd as [Hmd ->].
  exists merged, md. split; [assumption|]. split; [assumption|].
  apply mapM_inv in Hkw.
  pose (Q := fun (k : string) (v w : value) =>
               (is_properties v = false -> w = v) /\
               exists g0 g1, create_rec import_rng (S depth) v VNone g0 = OK (w, g1)).
  assert (HF : Forall2
            (fun (a y : string * value) => fst y = fst a /\ Q (fst a) (snd a) (snd y))
            md kw).
  { eapply Forall2_impl; [|exact Hkw]. intros [k v] [k' w] (g0 & g2 & Hx).
    apply bind_inv in Hx as (x & g3 & Hx & Hr). injection Hr as <- <- _. cbn [fst snd].
    split; [reflexivity|]. split; [|eauto].
    intros Hv. rewrite (create_rec_plain import_rng depth v VNone g0 Hv) in Hx.
    now injection Hx as <-. }
  apply (Forall2_dict_get Q) in HF as [_ Hget].
  intros k v Hv. specialize (Hget k). rewrite Hv in Hget.
  destruct Hget as (w & Hw & HQ & HC). eauto.
Qed.

(** The end state that [create] builds keeps an address and a balance
    that the properties set. *)
Lemma create_rec_endstate_given (depth : nat) (rd : list (string * value))
  (defaults w : value) (g0 g1 : rng) :
  create_rec import_rng (S (S depth)) (VProps NettingChannelEndStateProperties rd)
    defaults g0 = OK (w, g1) ->
  (forall x, dict_get rd "address" = Some x -> is_EMPTY x = false ->
             is_properties x = false -> truthy x = true ->
             getattr w "address" = OK x) /\
  (forall b, dict_get rd "balance" = Some b -> is_EMPTY b = false ->
             is_properties b = false -> getattr w "balance" = OK b).
Proof.
  rewrite create_rec_endstate. unfold create_NettingChannelEndState. intros H.
  apply bind_inv in H as (args & g2 & Hargs & H).
  apply _properties_to_kwargs_inv in Hargs as (merged & md & Hm & Hmd & Hget).
  apply bind_inv in H as (given & g3 & Hgiven & H). apply lift_inv in Hgiven as [Hgiven ->].
  apply bind_inv in H as (address & g3 & Haddress & H).
  apply bind_inv in H as (balance & g4 & Hbalance & H).
  apply lift_inv in Hbalance as [Hbalance ->].
  cbv zeta in H.
  apply bind_inv in H as (leaves & g4 & _ & H).
  apply bind_inv in H as (merkletree_leaves & g5 & _ & H).
  assert (Hstate : getattr w "balance" = OK balance /\ getattr w "address" = OK address).
  { unfold NettingChannelEndState_init, construct in H.
    destruct (truthy merkletree_leaves).
    - apply bind_inv in H as (layers & g6 & _ & H). injection H as <- _.
      split; reflexivity.
    - injection H as <- _. split; reflexivity. }
  destruct Hstate as [Hsb Hsa].
  assert (Hkeep : forall k v, dict_get rd k = Some v -> is_EMPTY v = false ->
                              is_properties v = false -> getitem args k = OK v).
  { intros k v Hk He Hp.
    pose proof (create_properties_set_field _ _ _ _ k v Hm
                  (proj2 (getattr_VProps _ _ _ _) Hk) He) as Hr.
    rewrite Hp in Hr.
    destruct (create_properties_keys import_rng _ _ _ Hm) as (c & l & -> & _).
    injection Hmd as <-. apply getattr_VProps in Hr.
    destruct (Hget k v Hr) as (w' & Hw' & Hv & _).
    unfold getitem. now rewrite Hw', (Hv Hp). }
  split.
  - intros x Hx He Hp Ht. rewrite (Hkeep _ _ Hx He Hp) in Hgiven. injection Hgiven as <-.
    rewrite Ht in Haddress. injection Haddress as <- _. exact Hsa.
  - intros b Hb He Hp. rewrite (Hkeep _ _ Hb He Hp) in Hbalance. injection Hbalance as <-.
    exact Hsb.
Qed.

(** The state that [create] builds for a channel has, for a side that
    the properties give as end-state properties, an end state with the
    address and the balance that these set. *)
Lemma create_channel_side (pd spd : list (string * value)) (defaults state : value)
  (side : string) (g g' : rng) :
  create import_rng (VProps NettingChannelStateProperties pd) defaults g
  = OK (state, g') ->
  dict_get pd side = Some (VProps NettingChannelEndStateProperties spd) ->
  exists w,
    getattr state side = OK w /\
    (forall x, dict_get spd "address" = Some x -> is_EMPTY x = false ->
               is_properties x = false -> truthy x = true ->
               getattr w "address" = OK x) /\
    (forall b, dict_get spd "balance" = Some b -> is_EMPTY b = false ->
               is_properties b = false -> getattr w "balance" = OK b).
Proof.
  intros H Hside. rewrite create_generic_class in H by reflexivity.
  unfold create_generic in H. apply bind_inv in H as (kw & g1 & Hkw & H).
  cbn [TARGET_TYPE] in H. injection H as <- _.
  apply _properties_to_kwargs_inv in Hkw as (merged & md & Hm & Hmd & Hget).
  pose proof (create_properties_set_field _ _ _ _ side _ Hm
                (proj2 (getattr_VProps _ _ _ _) Hside) eq_refl) as Hr.
  cbn [is_properties] in Hr. destruct Hr as (dk & rk & Hrk & Hmerged).
  destruct (create_properties_class (DEFAULTS import_rng)
              NettingChannelEndStateProperties spd _ dk rk eq_refl Hrk) as (rkd & ->).
  assert (Hmdside : dict_get md side
                    = Some (VProps NettingChannelEndStateProperties rkd)).
  { destruct (create_properties_keys import_rng _ _ _ Hm) as (c & l & -> & _).
    injection Hmd as <-. now apply getattr_VProps in Hmerged. }
  destruct (Hget _ _ Hmdside) as (w & Hw & _ & g2 & g3 & Hc).
  exists w. split; [unfold construct; cbn [getattr]; now rewrite Hw|].
  apply create_rec_endstate_given in Hc as [Ha Hb].
  split.
  - intros x Hx He Hp Ht. apply Ha; try assumption.
    pose proof (create_properties_set_field _ _ _ _ "address" x Hrk
                  (proj2 (getattr_VProps _ _ _ _) Hx) He) as Hr.
    rewrite Hp in Hr. now apply getattr_VProps in Hr.
  - intros b Hb' He Hp. apply Hb; try assumption.
    pose proof (create_properties_set_field _ _ _ _ "balance" b Hrk
                  (proj2 (getattr_VProps _ _ _ _) Hb') He) as Hr.
    rewrite Hp in Hr. now apply getattr_VProps in Hr.
Qed.

Lemma new_channel_side (kw side_kw : list (string * value)) (sp p defaults state : value)
  (side : string) (g g' : rng) :
  new NettingChannelEndStateProperties side_kw = OK sp ->
  new NettingChannelStateProperties kw = OK p ->
  dict_get kw side = Some sp ->
  create import_rng p defaults g = OK (state, g') ->
  exists w,
    getattr state side = OK w /\
    (forall x, dict_get side_kw "address" = Some x -> is_EMPTY x = false ->
               is_properties x = false -> truthy x = true ->
               getattr w "address" = OK x) /\
    (forall b, dict_get side_kw "balance" = Some b -> is_EMPTY b = false ->
               is_properties b = false -> getattr w "balance" = OK b).
Proof.
  intros Hsp Hp Hside H.
  apply new_inv in Hsp as (spd & -> & _ & _ & Hsset & _).
  apply new_inv in Hp as (pd & -> & _ & _ & Hpset & _).
  destruct (create_channel_side pd spd defaults state side g g' H (Hpset _ _ Hside))
    as (w & Hw & Ha & Hb).
  exists w. split; [assumption|]. split.
  - intros x Hx. apply Ha, Hsset, Hx.
  - intros b Hb'. apply Hb, Hsset, Hb'.
Qed.

Lemma partner_address_at (cs : ChannelSet) (index : Z) (channel state address : value) :
  ChannelSet_getitem cs index = OK channel ->
  getattr channel "partner_state" = OK state ->
  getattr state "address" = OK address ->
  ChannelSet_partner_address cs index = OK address.
Proof.
  unfold ChannelSet_getitem, ChannelSet_partner_address. intros -> Hs Ha.
  cbn [rbind]. rewrite Hs. cbn [rbind]. exact Ha.
Qed.

Lemma bytes_truthy (b : bytes) : b <> [] -> truthy (VBytes b) = true.
Proof. destruct b; [congruence | reflexivity]. Qed.

End NestedFacts.

(** The channel of [route_properties_to_channel] takes its two sides
    from the route: our side has [address1] and the capacity from 1 to 2
    as its balance, the partner has [address2] and the capacity from 2 to
    1, for addresses that are not empty. *)
Theorem route_properties_to_channel_sides
  {collaborators : Collaborators} (import_rng : rng)
  (route channel : value) (g g' : rng)
  (address1 address2 : bytes) (capacity1to2 capacity2to1 : Z) :
  getattr route "address1" = OK (VBytes address1) ->
  getattr route "address2" = OK (VBytes address2) ->
  getattr route "capacity1to2" = OK (VInt capacity1to2) ->
  getattr route "capacity2to1" = OK (VInt capacity2to1) ->
  address1 <> [] -> address2 <> [] ->
  route_properties_to_channel import_rng route g = OK (channel, g') ->
  exists our_state partner_state,
    getattr channel "our_state" = OK our_state /\
    getattr our_state "address" = OK (VBytes address1) /\
    getattr our_state "balance" = OK (VInt capacity1to2) /\
    getattr channel "partner_state" = OK partner_state /\
    getattr partner_state "address" = OK (VBytes address2) /\
    getattr partner_state "balance" = OK (VInt capacity2to1).
Proof.
  intros H1 H2 H12 H21 Hn1 Hn2 H. unfold route_properties_to_channel in H.
  apply bind_inv in H as (cid & g0 & _ & H).
  apply bind_inv in H as (a1 & g1 & E1 & H). apply lift_inv in E1 as [E1 ->].
  apply bind_inv in H as (c12 & g1 & E12 & H). apply lift_inv in E12 as [E12 ->].
  apply bind_inv in H as (our & g1 & Eour & H). apply lift_inv in Eour as [Eour ->].
  apply bind_inv in H as (a2 & g1 & E2 & H). apply lift_inv in E2 as [E2 ->].
  apply bind_inv in H as (c21 & g1 & E21 & H). apply lift_inv in E21 as [E21 ->].
  apply bind_inv in H as (partner & g1 & Epartner & H).
  apply lift_inv in Epartner as [Epartner ->].
  apply bind_inv in H as (props & g1 & Eprops & H). apply lift_inv in Eprops as [Eprops ->].
  rewrite H1 in E1. injection E1 as <-. rewrite H2 in E2. injection E2 as <-.
  rewrite H12 in E12. injection E12 as <-. rewrite H21 in E21. injection E21 as <-.
  destruct (new_channel_side import_rng _ _ _ _ VNone channel "our_state" g0 g'
              Eour Eprops eq_refl H) as (ours & Ho & Hoa & Hob).
  destruct (new_channel_side import_rng _ _ _ _ VNone channel "partner_state" g0 g'
              Epartner Eprops eq_refl H) as (theirs & Hp & Hpa & Hpb).
  exists ours, theirs.
  split; [assumption|].
  split; [apply Hoa; [reflexivity | reflexivity | reflexivity | now apply bytes_truthy]|].
  split; [apply Hob; reflexivity|].
  split; [assumption|].
  split; [apply Hpa; [reflexivity | reflexivity | reflexivity | now apply bytes_truthy]|].
  apply Hpb; reflexivity.
Qed.

Lemma route_properties_to_channel_sides_witness :
  exists channel g' our_state partner_state,
    @route_properties_to_channel sample_collaborators sample_rng sample_route sample_rng
    = OK (channel, g') /\
    getattr channel "our_state"%string = OK our_state /\
    getattr our_state "address"%string = OK (py_bytes "hop1hop1hop1hop1hop1") /\
    getattr our_state "balance"%string = OK (VInt 50) /\
    getattr channel "partner_state"%string = OK partner_state /\
    getattr partner_state "address"%string = OK (py_bytes "hop2hop2hop2hop2hop2") /\
    getattr partner_state "balance"%string = OK (VInt 0).
Proof.
  destruct (@route_properties_to_channel sample_collaborators sample_rng sample_route
              sample_rng) as [[channel g']|e] eqn:E; [|vm_compute in E; discriminate].
  destruct (@route_properties_to_channel_sides sample_collaborators sample_rng
              sample_route channel sample_rng g'
              (eth_utils.string_to_bytes "hop1hop1hop1hop1hop1")
              (eth_utils.string_to_bytes "hop2hop2hop2hop2hop2") 50 0)
    as (our_state & partner_state & H);
    [reflexivity | reflexivity | reflexivity | reflexivity
    | vm_compute; discriminate | vm_compute; discriminate | exact E |].
  exists channel, g', our_state, partner_state. split; [reflexivity | exact H].
Defined.

(** In the channel set of [mediator_make_channel_pair] the partner of
    the first channel is [UNIT_TRANSFER_SENDER] and the partner of the
    second is [UNIT_TRANSFER_TARGET], whatever the defaults are; index -1 is
    the second channel and index 2 raises [IndexError]. An [amount] that is
    given is the balance of the partner in the first channel and our
    balance in the second. *)
Theorem mediator_make_channel_pair_partners
  {collaborators : Collaborators} (import_rng : rng)
  (defaults amount : value) (g g' : rng) (cs : ChannelSet) :
  truthy UNIT_TRANSFER_SENDER = true ->
  mediator_make_channel_pair import_rng defaults amount g = OK (cs, g') ->
  ChannelSet_partner_address cs 0 = OK UNIT_TRANSFER_SENDER /\
  ChannelSet_partner_address cs 1 = OK UNIT_TRANSFER_TARGET /\
  ChannelSet_partner_address cs (-1) = OK UNIT_TRANSFER_TARGET /\
  ChannelSet_partner_address cs 2 = Raise IndexError /\
  (is_EMPTY amount = false -> is_properties amount = false ->
   exists first second partner ours,
     ChannelSet_getitem cs 0 = OK first /\
     getattr first "partner_state" = OK partner /\
     getattr partner "balance" = OK amount /\
     ChannelSet_getitem cs 1 = OK second /\
     getattr second "our_state" = OK ours /\
     getattr ours "balance" = OK amount).
Proof.
  intros Hsender H. unfold mediator_make_channel_pair in H.
  apply bind_inv in H as (cid1 & g0 & _ & H).
  apply bind_inv in H as (partner1 & g1 & Ep1 & H). apply lift_inv in Ep1 as [Ep1 ->].
  apply bind_inv in H as (props1 & g1 & Epr1 & H). apply lift_inv in Epr1 as [Epr1 ->].
  apply bind_inv in H as (cid2 & g1 & _ & H).
  apply bind_inv in H as (our2 & g2 & Eo2 & H). apply lift_inv in Eo2 as [Eo2 ->].
  apply bind_inv in H as (partner2 & g2 & Ep2 & H). apply lift_inv in Ep2 as [Ep2 ->].
  apply bind_inv in H as (props2 & g2 & Epr2 & H). apply lift_inv in Epr2 as [Epr2 ->].
  apply (make_channel_set_inv import_rng) in H
    as (n & padded & made & g3 & Hn & Hpad & Hmade & ->).
  subst n. apply pad_properties_length in Hpad as [_ Hfirst].
  rewrite Nat2Z.id, Hfirst in Hmade. cbn [mapM] in Hmade.
  apply bind_inv in Hmade as (y1 & g4 & Hy1 & Hmade).
  apply bind_inv in Hmade as (ys & g5 & Hys & Hmade). injection Hmade as <- _.
  apply bind_inv in Hys as (y2 & g6 & Hy2 & Hys).
  apply bind_inv in Hys as (ys' & g7 & Hnil & Hys).
  injection Hnil as <- _. injection Hys as <- _.
  apply bind_inv in Hy1 as (keys1 & g8 & _ & Hy1).
  apply bind_inv in Hy1 as (c1 & g9 & Hc1 & Hy1). injection Hy1 as <- _.
  apply bind_inv in Hy2 as (keys2 & g10 & _ & Hy2).
  apply bind_inv in Hy2 as (c2 & g11 & Hc2 & Hy2). injection Hy2 as <- _.
  destruct (new_channel_side import_rng _ _ _ _ defaults c1 "partner_state" _ _
              Ep1 Epr1 eq_refl Hc1) as (w1 & Hw1 & Ha1 & Hb1).
  destruct (new_channel_side import_rng _ _ _ _ defaults c2 "partner_state" _ _
              Ep2 Epr2 eq_refl Hc2) as (w2 & Hw2 & Ha2 & _).
  destruct (new_channel_side import_rng _ _ _ _ defaults c2 "our_state" _ _
              Eo2 Epr2 eq_refl Hc2) as (o2 & Ho2 & _ & Hb2).
  specialize (Ha1 UNIT_TRANSFER_SENDER eq_refl eq_refl eq_refl Hsender).
  specialize (Ha2 UNIT_TRANSFER_TARGET eq_refl eq_refl eq_refl eq_refl).
  split; [now apply (partner_address_at _ _ c1 w1)|].
  split; [now apply (partner_address_at _ _ c2 w2)|].
  split; [now apply (partner_address_at _ _ c2 w2)|].
  split; [reflexivity|].
  intros He Hp. exists c1, c2, w1, o2.
  split; [reflexivity|]. split; [assumption|].
  split; [now apply Hb1|].
  split; [reflexivity|]. split; [assumption|].
  now apply Hb2.
Qed.

Lemma mediator_make_channel_pair_partners_witness :
  exists cs g',
    @mediator_make_channel_pair sample_collaborators sample_rng VNone (VInt 10) sample_rng
    = OK (cs, g') /\
    ChannelSet_partner_address cs 0 = OK (@UNIT_TRANSFER_SENDER sample_collaborators) /\
    ChannelSet_partner_address cs 1 = OK UNIT_TRANSFER_TARGET /\
    ChannelSet_partner_address cs (-1) = OK UNIT_TRANSFER_TARGET /\
    ChannelSet_partner_address cs 2 = Raise IndexError /\
    (is_EMPTY (VInt 10) = false -> is_properties (VInt 10) = false ->
     exists first second partner ours,
       ChannelSet_getitem cs 0 = OK first /\
       getattr first "partner_state"%string = OK partner /\
       getattr partner "balance"%string = OK (VInt 10) /\
       ChannelSet_getitem cs 1 = OK second /\
       getattr second "our_state"%string = OK ours /\
       getattr ours "balance"%string = OK (VInt 10)).
Proof.
  destruct (@mediator_make_channel_pair sample_collaborators sample_rng VNone (VInt 10)
              sample_rng) as [[cs g']|e] eqn:E; [|vm_compute in E; discriminate].
  exists cs, g'. split; [reflexivity|].
  apply (@mediator_make_channel_pair_partners sample_collaborators sample_rng
           VNone (VInt 10) sample_rng g' cs); [vm_compute; reflexivity | exact E].
Defined.

(** ** Transfers that are not signed *)

Section UnsignedFacts.

Context {collaborators : Collaborators}.
Variable import_rng : rng.

Import dict_facts replace_facts properties_facts.

Local Open Scope string_scope.

Lemma create_rec_unsigned (depth : nat) (pd : list (string * value)) (defaults : value) :
  create_rec import_rng (S depth) (VProps LockedTransferProperties pd) defaults
  = create_LockedTransferUnsignedState import_rng (create_rec import_rng depth)
      (VProps LockedTransferProperties pd) defaults.
Proof. reflexivity. Qed.

Lemma create_rec_balance_proof (depth : nat) (pd : list (string * value))
  (defaults : value) :
  create_rec import_rng (S depth) (VProps BalanceProofProperties pd) defaults
  = create_generic import_rng (create_rec import_rng depth)
      (VProps BalanceProofProperties pd) defaults.
Proof. reflexivity. Qed.

Lemma value_eqb_VBytes_r (v : value) (x : bytes) :
  value_eqb v (VBytes x) = true <-> v = VBytes x.
Proof.
  split.
  - destruct v; cbn; try discriminate. now intros ->%bytes_eqb_eq.
  - intros ->. cbn. apply bytes_eqb_refl.
Qed.

Lemma getattr_skip (c : tclass) (k0 : string) (v0 : value) (d : list (string * value))
  (k : string) :
  String.eqb k0 k = false ->
  getattr (VObj c ((k0, v0) :: d)) k = getattr (VObj c d) k.
Proof. intros H. cbn [getattr dict_get]. now rewrite H. Qed.

(** [replace] with one change leaves the other fields as they are. *)
Lemma replace_other (cls : pclass) (bd : list (string * value)) (r : value)
  (k0 : string) (h : value) (k : string) :
  dataclasses.replace (VProps cls bd) [(k0, h)] = OK r ->
  map fst bd = field_names cls ->
  k <> k0 -> getattr r k = getattr (VProps cls bd) k.
Proof.
  intros H Hkeys Hne.
  apply replace_inv in H
    as (cls' & bd' & rd & [= <- <-] & -> & Hrk & _ & _ & _ & Hkeep).
  cbn [getattr]. destruct (dict_get bd k) as [x|] eqn:Hb.
  - rewrite (Hkeep k x); [reflexivity | | assumption].
    cbn. destruct (String.eqb_spec k0 k); [congruence | reflexivity].
  - replace (dict_get rd k) with (@None value); [reflexivity|].
    symmetry. apply dict_get_None. rewrite Hrk, <- Hkeys. now apply dict_get_None.
Qed.

(** The state that the generic [create] builds for a balance proof keeps
    a field that the properties set with a plain value. *)
Lemma create_rec_balance_proof_keeps (depth : nat) (bd : list (string * value))
  (defaults state : value) (g g' : rng) (k : string) (v : value) :
  create_rec import_rng (S (S depth)) (VProps BalanceProofProperties bd) defaults g
  = OK (state, g') ->
  dict_get bd k = Some v -> is_EMPTY v = false -> is_properties v = false ->
  getattr state k = OK v.
Proof.
  rewrite create_rec_balance_proof. unfold create_generic. intros H Hk He Hp.
  apply bind_inv in H as (kw & g1 & Hkw & H). cbn [TARGET_TYPE] in H.
  injection H as <- _.
  apply _properties_to_kwargs_inv in Hkw as (merged & md & Hm & Hmd & Hget).
  pose proof (create_properties_set_field _ _ _ _ k v Hm
                (proj2 (getattr_VProps _ _ _ _) Hk) He) as Hr.
  rewrite Hp in Hr.
  destruct (create_properties_keys import_rng _ _ _ Hm) as (c & l & -> & _).
  injection Hmd as <-. apply getattr_VProps in Hr.
  destruct (Hget k v Hr) as (w & Hw & Hv & _).
  unfold construct. cbn [getattr]. now rewrite Hw, (Hv Hp).
Qed.

End UnsignedFacts.

(** The transfer state that [create] builds for
    [LockedTransferProperties] has a lock with the amount and the
    expiration of the merged properties and the hash of their secret, and
    their initiator, target, payment identifier and token. The locksroot
    of its balance proof is the hash of the lock when the merged one is
    the root of the empty tree, and the merged one when that is another
    plain value. *)
Theorem create_unsigned_transfer_fields
  {collaborators : Collaborators} (import_rng : rng)
  (pd : list (string * value)) (defaults t : value) (g g' : rng) :
  create import_rng (VProps LockedTransferProperties pd) defaults g = OK (t, g') ->
  exists merged amount expiration secret locksroot balance_proof,
    create_properties (DEFAULTS import_rng) (VProps LockedTransferProperties pd) defaults
    = OK merged /\
    getattr merged "amount" = OK amount /\
    getattr merged "expiration" = OK expiration /\
    getattr merged "secret" = OK (VBytes secret) /\
    getattr merged "locksroot" = OK locksroot /\
    getattr t "lock"
    = OK (new_lock HashTimeLockState amount expiration (VBytes (sha3 secret))) /\
    (forall k, In k ["initiator"; "target"; "payment_identifier"; "token"]%string ->
               exists v, getattr merged k = OK v /\ getattr t k = OK v) /\
    getattr t "balance_proof" = OK balance_proof /\
    (locksroot = VBytes EMPTY_MERKLE_ROOT ->
     getattr balance_proof "locksroot"
     = lockhash (new_lock HashTimeLockState amount expiration (VBytes (sha3 secret)))) /\
    (locksroot <> VBytes EMPTY_MERKLE_ROOT ->
     is_EMPTY locksroot = false -> is_properties locksroot = false ->
     getattr balance_proof "locksroot" = OK locksroot).
Proof.
  rewrite create_unfold, create_rec_unsigned. unfold create_LockedTransferUnsignedState.
  intros H.
  apply bind_inv in H as (merged & g0 & Hm & H). apply lift_inv in Hm as [Hm ->].
  apply bind_inv in H as (lock & g0 & Hlock & H). apply lift_inv in Hlock as [Hlock ->].
  apply rbind_inv in Hlock as (amount & Hamount & Hlock).
  apply rbind_inv in Hlock as (expiration & Hexp & Hlock).
  apply rbind_inv in Hlock as (sv & Hsv & Hlock).
  apply rbind_inv in Hlock as (secret & Hsecret & Hlock).
  apply as_bytes_inv in Hsecret as ->. injection Hlock as <-.
  apply bind_inv in H as (transfer & g0 & Ht & H). apply lift_inv in Ht as [Ht ->].
  apply rbind_inv in Ht as (locksroot & Hroot & Ht).
  apply bind_inv in H as (bpp & g0 & Hbpp & H). apply lift_inv in Hbpp as [Hbpp ->].
  apply bind_inv in H as (balance_proof & g1 & Hbp & H).
  apply bind_inv in H as (rest & g2 & Hrest & H). apply lift_inv in Hrest as [Hrest ->].
  apply rbind_inv in Hrest as (d & Hd & Hrest).
  injection H as <- _.
  exists merged, amount, expiration, secret, locksroot, balance_proof.
  repeat (split; [first [assumption | reflexivity]|]).
  destruct (create_properties_keys import_rng _ _ _ Hm) as (c & md & -> & Hkeys).
  assert (Hother : forall k, k <> "locksroot"%string ->
                             getattr transfer k = getattr (VProps c md) k).
  { intros k Hne. destruct (value_eqb locksroot (VBytes EMPTY_MERKLE_ROOT)).
    - apply rbind_inv in Ht as (h & _ & Ht).
      now apply (replace_other _ _ _ _ _ k Ht Hkeys).
    - now injection Ht as <-. }
  assert (Hextract : exists bd x,
             bpp = VProps BalanceProofProperties bd /\
             getattr transfer "locksroot" = OK x /\
             dict_get bd "locksroot"%string = Some x).
  { destruct (extract_getattr _ _ _ "locksroot"%string Hbpp) as (x & Hx & Hx');
      [cbn; tauto|].
    unfold extract in Hbpp. apply rbind_inv in Hbpp as (names & _ & Hbpp).
    apply rbind_inv in Hbpp as (d' & _ & Hbpp).
    apply rbind_inv in Hbpp as (kw & _ & Hbpp).
    apply dict_facts.new_inv in Hbpp as (bd & -> & _).
    exists bd, x. split; [reflexivity|]. split; [assumption|].
    now apply properties_facts.getattr_VProps in Hx'. }
  destruct Hextract as (bd & x & -> & Hx & Hbx).
  split.
  - intros k Hk.
    destruct (_partial_dict_get _ _ _ Hrest k Hk) as (v & Hv & Hv').
    exists v. split.
    + rewrite <- Hother.
      * destruct transfer; try discriminate; injection Hd as <-; cbn [getattr];
          now rewrite Hv.
      * cbn in Hk. intuition (subst; discriminate).
    + unfold construct. rewrite !getattr_skip.
      * cbn [getattr]. now rewrite Hv'.
      * cbn in Hk. intuition (subst; reflexivity).
      * cbn in Hk. intuition (subst; reflexivity).
  - split; [reflexivity|]. split.
    + intros ->. rewrite (proj2 (value_eqb_VBytes_r _ _) eq_refl) in Ht.
      apply rbind_inv in Ht as (h & Hh & Ht). rewrite Hh.
      apply replace_facts.replace_inv in Ht
        as (cls' & bd' & rd & _ & -> & _ & _ & _ & Hset & _).
      apply properties_facts.getattr_VProps in Hx.
      rewrite (Hset "locksroot"%string h eq_refl) in Hx. injection Hx as <-.
      unfold lockhash in Hh. apply rbind_inv in Hh as (encoded & _ & [= <-]).
      now apply (create_rec_balance_proof_keeps import_rng _ _ _ _ _ _ _ _ Hbp Hbx).
    + intros Hne He Hp.
      destruct (value_eqb locksroot (VBytes EMPTY_MERKLE_ROOT)) eqn:Eq;
        [now apply value_eqb_VBytes_r in Eq|].
      injection Ht as <-. rewrite Hroot in Hx. injection Hx as <-.
      now apply (create_rec_balance_proof_keeps import_rng _ _ _ _ _ _ _ _ Hbp Hbx).
Qed.

Lemma create_unsigned_transfer_fields_witness :
  exists t g' merged amount expiration secret locksroot balance_proof,
    @create sample_collaborators sample_rng
      (VProps LockedTransferProperties
         (map (fun n => (n, EMPTY)) (field_names LockedTransferProperties)))
      VNone sample_rng = OK (t, g') /\
    create_properties (@DEFAULTS sample_collaborators sample_rng)
      (VProps LockedTransferProperties
         (map (fun n => (n, EMPTY)) (field_names LockedTransferProperties))) VNone
    = OK merged /\
    getattr merged "amount"%string = OK amount /\
    getattr merged "expiration"%string = OK expiration /\
    getattr merged "secret"%string = OK (VBytes secret) /\
    getattr merged "locksroot"%string = OK locksroot /\
    getattr t "lock"%string
    = OK (new_lock HashTimeLockState amount expiration
            (VBytes (@sha3 sample_collaborators secret))) /\
    (forall k, In k ["initiator"; "target"; "payment_identifier"; "token"]%string ->
               exists v, getattr merged k = OK v /\ getattr t k = OK v) /\
    getattr t "balance_proof"%string = OK balance_proof /\
    (locksroot = VBytes (@EMPTY_MERKLE_ROOT sample_collaborators) ->
     getattr balance_proof "locksroot"%string
     = @lockhash sample_collaborators
         (new_lock HashTimeLockState amount expiration
            (VBytes (@sha3 sample_collaborators secret)))) /\
    (locksroot <> VBytes (@EMPTY_MERKLE_ROOT sample_collaborators) ->
     is_EMPTY locksroot = false -> is_properties locksroot = false ->
     getattr balance_proof "locksroot"%string = OK locksroot).
Proof.
  destruct (@create sample_collaborators sample_rng
              (VProps LockedTransferProperties
                 (map (fun n => (n, EMPTY)) (field_names LockedTransferProperties)))
              VNone sample_rng) as [[t g']|e] eqn:E; [|vm_compute in E; discriminate].
  destruct (@create_unsigned_transfer_fields sample_collaborators sample_rng
              (map (fun n => (n, EMPTY)) (field_names LockedTransferProperties))
              VNone t sample_rng g' E)
    as (merged & amount & expiration & secret & locksroot & balance_proof & H).
  exists t, g', merged, amount, expiration, secret, locksroot, balance_proof.
  split; [reflexivity | exact H].
Defined.
